(** * python-telestailib: address/key codec and signing protocol

    A shallow embedding of [telestai/__init__.py], [telestai/wallet.py],
    [telestai/signmessage.py] and [evrmore/core/transaction.py].

    Python values are modelled as follows: [bytes] as [list byte], [str]
    as [string], integers as [Z], a raised exception as [Raise e] in the
    [result] monad, the module-level global [telestai.params] as an
    explicit argument (or, for [SelectParams], as the threaded state), and
    an attribute assignment on a shared object as an update of an object
    store. *)

From Stdlib Require Import ZArith Lia.
From Stdlib.Strings Require Import Byte Ascii String.
From stdpp Require Import base option list strings gmap.

Local Open Scope Z_scope.

(** ** Exceptions and the result monad *)

(** The exception classes the modelled code can raise.  The last three
    are error kinds of section 7 of the spec, raised by modelled code
    whose exception classes are not under src/. *)
Inductive exn : Type :=
  | ValueError
  | TypeError
  | AttributeError
  | IndexError
  | AssertionError
  | binascii_Error
  | InvalidBase58Error
  | Base58ChecksumError
  | SerializationTruncationError
  | CScriptInvalidError
  | CTelestaiAddressError
  | CTelestaiSecretError
  | TooShort
  | InvalidHeaderByte
  | RecoveryFailed.

Global Instance exn_eq_dec : EqDecision exn.
Proof. solve_decision. Defined.

Inductive result (A : Type) : Type :=
  | Ok (a : A)
  | Raise (e : exn).
Arguments Ok {A} a.
Arguments Raise {A} e.

Global Instance result_ret : MRet result := fun A a => Ok a.
Global Instance result_bind : MBind result := fun A B f m =>
  match m with
  | Ok a => f a
  | Raise e => Raise e
  end.

Global Instance result_fmap : FMap result := fun A B f m =>
  match m with
  | Ok a => Ok (f a)
  | Raise e => Raise e
  end.

(** [try: m except e0: h] runs the handler only for the named class. *)
Definition try_except {A} (m : result A) (e0 : exn) (h : result A) : result A :=
  match m with
  | Ok a => Ok a
  | Raise e => if decide (e = e0) then h else Raise e
  end.

Definition is_Ok {A} (m : result A) : bool :=
  match m with Ok _ => true | Raise _ => false end.

(** ** Bytes *)

Global Instance byte_eq_dec : EqDecision byte := Byte.byte_eq_dec.

Definition Z_of_byte (b : byte) : Z := Z.of_N (Byte.to_N b).

Definition byte_of_Z (z : Z) : byte :=
  match Byte.of_N (Z.to_N (z mod 256)) with
  | Some b => b
  | None => x00
  end.

(** Python [bytes([z])]: a [ValueError] outside [range(256)]. *)
Definition bytes_of_int (z : Z) : result (list byte) :=
  if decide (0 <= z < 256) then Ok [byte_of_Z z] else Raise ValueError.

(** Python slice [b[i:j]] for [0 <= i <= j]. *)
Definition slice {A} (i j : nat) (l : list A) : list A :=
  take (j - i) (drop i l).

(** ** Chain parameters ([telestai/__init__.py]) *)

(** The attributes the three parameter classes define.  The dictionary
    [BASE58_PREFIXES] has the same three keys in every class, so it is a
    record of three fields; [DNS_SEEDS] is read by nothing modelled here
    and is left out. *)
Record ChainParams : Type := {
  MESSAGE_START : list byte;
  DEFAULT_PORT : Z;
  RPC_PORT : Z;
  PUBKEY_ADDR : Z;
  SCRIPT_ADDR : Z;
  SECRET_KEY : Z;
  BECH32_HRP : string
}.

Definition MainParams : ChainParams := {|
  MESSAGE_START := [x54; x45; x4c; x45];
  DEFAULT_PORT := 8767;
  RPC_PORT := 8766;
  PUBKEY_ADDR := 66;
  SCRIPT_ADDR := 127;
  SECRET_KEY := 128;
  BECH32_HRP := "ev"
|}.

Definition TestNetParams : ChainParams := {|
  MESSAGE_START := [x52; x56; x4e; x54];
  DEFAULT_PORT := 18770;
  RPC_PORT := 18766;
  PUBKEY_ADDR := 111;
  SCRIPT_ADDR := 196;
  SECRET_KEY := 239;
  BECH32_HRP := ""
|}.

Definition RegTestParams : ChainParams := {|
  MESSAGE_START := [x43; x52; x4f; x57];
  DEFAULT_PORT := 18444;
  RPC_PORT := 18443;
  PUBKEY_ADDR := 111;
  SCRIPT_ADDR := 196;
  SECRET_KEY := 239;
  BECH32_HRP := ""
|}.

Inductive network : Type := mainnet | testnet | regtest.

(** What [telestai.core.coreparams] holds: an instance of one of the core
    classes, put there by [_SelectCoreParams], or the very instance
    [SelectParams] has just bound to [params]. *)
Inductive coreparams_val : Type :=
  | CoreInstance (n : network)
  | FullInstance (p : ChainParams).

(** The two module-level globals [SelectParams] writes. *)
Record globals : Type := {
  params : ChainParams;
  core_coreparams : coreparams_val
}.

(** At import time: [params = MainParams()]. *)
Definition initial_globals : globals :=
  {| params := MainParams; core_coreparams := CoreInstance mainnet |}.

(** The names [SelectParams] documents. *)
Definition known_networks : list string :=
  ["mainnet"; "testnet"; "regtest"]%string.

(** Modelled from the spec: [telestai.core._SelectCoreParams] is not under
    src/.  Section 4.1 gives the selection three accepted names and an
    unknown-network failure for any other; the core-level selector is
    taken to do the same on [telestai.core.coreparams]. *)
Definition _SelectCoreParams (name : string) (g : globals) : result () * globals :=
  if decide (name = "mainnet"%string) then
    (Ok (), {| params := params g; core_coreparams := CoreInstance mainnet |})
  else if decide (name = "testnet"%string) then
    (Ok (), {| params := params g; core_coreparams := CoreInstance testnet |})
  else if decide (name = "regtest"%string) then
    (Ok (), {| params := params g; core_coreparams := CoreInstance regtest |})
  else (Raise ValueError, g).

(** [params = telestai.core.coreparams = X()] binds one fresh instance to
    both names. *)
Definition set_both (p : ChainParams) : globals :=
  {| params := p; core_coreparams := FullInstance p |}.

(** The body of [SelectParams] over the core-level selector it calls
    first. *)
Definition SelectParams_over (core : string -> globals -> result () * globals)
    (name : string) (g : globals) : result () * globals :=
  match core name g with
  | (Raise e, g1) => (Raise e, g1)
  | (Ok _, g1) =>
      if decide (name = "mainnet"%string) then (Ok (), set_both MainParams)
      else if decide (name = "testnet"%string) then (Ok (), set_both TestNetParams)
      else if decide (name = "regtest"%string) then (Ok (), set_both RegTestParams)
      else (Raise ValueError, g1)
  end.

Definition SelectParams (name : string) (g : globals) : result () * globals :=
  SelectParams_over _SelectCoreParams name g.

(** [s.index(c)], counted from [i]; [None] when [c] is not in [s]. *)
Fixpoint index_from (c : ascii) (s : string) (i : Z) : option Z :=
  match s with
  | EmptyString => None
  | String c' s' => if decide (c' = c) then Some i else index_from c s' (i + 1)
  end.

(** ** The external primitives

    Hashing and the elliptic-curve library are outside the repository; the
    code only calls them.  They are the fields of a class, and what is
    assumed of them is stated separately in [CryptoLaws]. *)
Class Crypto : Type := {
  (** [telestai.core.Hash], also imported as [double_sha256]. *)
  Hash : list byte -> list byte;
  (** [telestai.core.Hash160]. *)
  Hash160 : list byte -> list byte;
  (** [CECKey.set_secretbytes], which may reject the scalar. *)
  ec_set_secretbytes : list byte -> result ();
  (** [CECKey.get_pubkey] after [set_secretbytes] and [set_compressed]. *)
  ec_get_pubkey : list byte -> bool -> list byte;
  (** [CECKey.sign] of a secret on a hash. *)
  ec_sign : list byte -> list byte -> list byte;
  (** [CECKey.sign_compact]: the 64 signature bytes and the recovery id. *)
  ec_sign_compact : list byte -> list byte -> list byte * Z;
  (** Public-key recovery from hash, 64 signature bytes, recovery id and
      compression flag; [None] when no point is found. *)
  ec_recover : list byte -> list byte -> Z -> bool -> option (list byte);
  (** [CPubKey.is_fullyvalid]. *)
  ec_is_fullyvalid : list byte -> bool;
  (** [str] of a [telestai.bech32.CBech32Data]: human-readable part,
      witness version, witness program. *)
  bech32_str : string -> Z -> list byte -> string
}.

(** ** Base58 ([telestai.base58]) *)

Module Base58.

Definition B58_DIGITS : string :=
  "123456789ABCDEFGHJKLMNPQRSTUVWXYZabcdefghijkmnopqrstuvwxyz".

(** Big-endian bytes to integer. *)
Definition int_from_bytes (b : list byte) : Z :=
  fold_left (fun n c => n * 256 + Z_of_byte c) b 0.

(** The loop [while n > 0: n, r = divmod(n, base); res.append(r)]: the
    digits of [n], least significant first.  [fuel] bounds the number of
    iterations; [divmod_loop_value] shows when it is enough. *)
Fixpoint divmod_loop (base : Z) (fuel : nat) (n : Z) : list Z :=
  match fuel with
  | O => []
  | S f =>
      if decide (0 < n) then (n mod base) :: divmod_loop base f (n / base)
      else []
  end.

(** The number a digit list stands for, least significant digit first. *)
Definition digits_value (base : Z) (ds : list Z) : Z :=
  fold_right (fun d acc => d + base * acc) 0 ds.

(** The number of leading elements equal to [x]. *)
Fixpoint leading {A} `{EqDecision A} (x : A) (l : list A) : nat :=
  match l with
  | [] => O
  | y :: l' => if decide (y = x) then S (leading x l') else O
  end.

Definition digit_char (r : Z) : ascii :=
  default "1"%char (String.get (Z.to_nat r) B58_DIGITS).

Definition digit_index (c : ascii) : option Z := index_from c B58_DIGITS 0.

(** Modelled from the spec: [telestai.base58.encode] is not under src/.
    The bytes are read as one big-endian number and written in base 58,
    most significant symbol first; every leading zero byte becomes one
    leading ["1"]. *)
Definition encode (b : list byte) : string :=
  let n := int_from_bytes b in
  let res := rev (divmod_loop 58 (2 * length b) n) in
  let pad := leading x00 b in
  string_of_list_ascii (repeat "1"%char pad ++ map digit_char res).

Fixpoint decode_int (s : list ascii) (n : Z) : result Z :=
  match s with
  | [] => Ok n
  | c :: s' =>
      match digit_index c with
      | None => Raise InvalidBase58Error
      | Some d => decode_int s' (n * 58 + d)
      end
  end.

(** Integer to big-endian bytes through an even number of hex digits:
    the shortest representation, and one zero byte for zero. *)
Definition int_to_bytes (fuel : nat) (n : Z) : list byte :=
  match rev (divmod_loop 256 fuel n) with
  | [] => [x00]
  | ds => map byte_of_Z ds
  end.

(** Modelled from the spec: [telestai.base58.decode] is not under src/.
    A symbol outside the alphabet is an error (section 4.2,
    InvalidCharacter); leading ["1"] symbols, counted on all but the last
    symbol, give back the leading zero bytes. *)
Definition decode (s : string) : result (list byte) :=
  let cs := list_ascii_of_string s in
  match cs with
  | [] => Ok []
  | _ =>
      n ← decode_int cs 0;
      let res := int_to_bytes (length cs) n in
      let pad := leading "1"%char (take (length cs - 1) cs) in
      Ok (repeat x00 pad ++ res)
  end.

End Base58.

(** ** Base58Check data ([telestai.base58.CBase58Data]) *)

(** A [CBase58Data] instance: the payload bytes and the [nVersion]
    attribute. *)
Record CBase58Data : Type := {
  b58_data : list byte;
  nVersion : Z
}.

Section Base58Check.
Context `{Crypto}.

(** Modelled from the spec: [CBase58Data.from_bytes] is not under src/;
    the version is one byte. *)
Definition CBase58Data_from_bytes (data : list byte) (v : Z) : result CBase58Data :=
  if decide (0 <= v <= 255) then Ok {| b58_data := data; nVersion := v |}
  else Raise ValueError.

(** Modelled from the spec: [CBase58Data.__new__] is not under src/
    (section 4.2, decode).  Fewer than 4 decoded bytes is TooShort; the
    last 4 bytes must be the first 4 of the double SHA-256 of what
    precedes them; the checksum is stripped and the first remaining byte
    is the version. *)
Definition CBase58Data_new (s : string) : result CBase58Data :=
  k ← Base58.decode s;
  if decide (length k < 4)%nat then Raise TooShort else
  let body := take (length k - 4) k in
  let check0 := drop (length k - 4) k in
  let check1 := take 4 (Hash body) in
  if decide (check0 = check1) then
    match body with
    | [] => Raise IndexError
    | verbyte :: data => CBase58Data_from_bytes data (Z_of_byte verbyte)
    end
  else Raise Base58ChecksumError.

(** Modelled from the spec: [CBase58Data.__str__] is not under src/
    (section 4.2, encode): version byte, payload and 4-byte checksum in
    base 58. *)
Definition CBase58Data_str (d : CBase58Data) : string :=
  let vs := byte_of_Z (nVersion d) :: b58_data d in
  Base58.encode (vs ++ take 4 (Hash vs)).

End Base58Check.

(** ** Private keys ([telestai/wallet.py], [CKey] and [CTelestaiSecret]) *)

(** A [CKey]: the secret handed to the curve library, the compression
    flag set on it, and the [pub] attribute. *)
Record CKey : Type := {
  key_secret : list byte;
  key_compressed : bool;
  pub : list byte
}.

(** A [CTelestaiSecret] is both a [CBase58Data] and a [CKey]. *)
Record CTelestaiSecret : Type := {
  sec_base : CBase58Data;
  sec_key : CKey
}.

Section Keys.
Context `{Crypto}.

(** [CKey.__init__] *)
Definition CKey_init (secret : list byte) (compressed : bool) : result CKey :=
  _ ← ec_set_secretbytes secret;
  Ok {| key_secret := secret;
        key_compressed := compressed;
        pub := ec_get_pubkey secret compressed |}.

(** [CPubKey.is_compressed] *)
Definition CPubKey_is_compressed (pk : list byte) : bool :=
  bool_decide (length pk = 33%nat).

(** [CKey.is_compressed] *)
Definition is_compressed (k : CKey) : bool := CPubKey_is_compressed (pub k).

(** [CKey.sign] and [CKey.sign_compact] *)
Definition CKey_sign (k : CKey) (hash : list byte) : list byte :=
  ec_sign (key_secret k) hash.
Definition CKey_sign_compact (k : CKey) (hash : list byte) : list byte * Z :=
  ec_sign_compact (key_secret k) hash.

(** [CTelestaiSecret.__init__], run on an instance that already has its
    bytes and [nVersion]. *)
Definition CTelestaiSecret_init (p : ChainParams) (self : CBase58Data) :
    result CTelestaiSecret :=
  if decide (nVersion self ≠ SECRET_KEY p) then Raise CTelestaiSecretError else
  let d := b58_data self in
  k ← CKey_init (slice 0 32 d)
        (bool_decide (32 < length d)%nat && bool_decide (d !! 32%nat = Some x01));
  Ok {| sec_base := self; sec_key := k |}.

(** [CTelestaiSecret.from_secret_bytes] *)
Definition from_secret_bytes (p : ChainParams) (secret : list byte) (compressed : bool) :
    result CTelestaiSecret :=
  self ← CBase58Data_from_bytes
           (secret ++ (if compressed then [x01] else [])) (SECRET_KEY p);
  CTelestaiSecret_init p self.

(** [CTelestaiSecret(s)]: the inherited [CBase58Data.__new__], then
    [__init__]. *)
Definition CTelestaiSecret_new (p : ChainParams) (s : string) : result CTelestaiSecret :=
  self ← CBase58Data_new s;
  CTelestaiSecret_init p self.

(** [CTelestaiSecret.to_wif]; its [double_sha256] is the double SHA-256
    that [Hash] stands for. *)
Definition to_wif (p : ChainParams) (self : CTelestaiSecret) : result string :=
  let payload := b58_data (sec_base self) in
  let payload := if is_compressed (sec_key self) then payload ++ [x01] else payload in
  let version_byte := SECRET_KEY p in
  vb ← bytes_of_int version_byte;
  let payload := vb ++ payload in
  let checksum := take 4 (Hash payload) in
  let final_payload := payload ++ checksum in
  Ok (Base58.encode final_payload).

End Keys.

(** ** What is assumed of the primitives

    The curve library is taken to be correct (spec, section 1): keys have
    the SEC1 lengths, a compact signature has 64 bytes and a recovery id
    in [0, 3], and recovery from a compact signature gives back the
    signer's public key in the requested form.  A double SHA-256 has 32
    bytes. *)
Class CryptoLaws `{Crypto} : Prop := {
  Hash_length : forall x, length (Hash x) = 32%nat;
  pubkey_length : forall s c,
    ec_set_secretbytes s = Ok () ->
    length (ec_get_pubkey s c) = if c then 33%nat else 65%nat;
  sign_compact_shape : forall s h,
    ec_set_secretbytes s = Ok () ->
    length (ec_sign_compact s h).1 = 64%nat ∧ 0 <= (ec_sign_compact s h).2 <= 3;
  recover_sign_compact : forall s h c,
    ec_set_secretbytes s = Ok () ->
    ec_recover h (ec_sign_compact s h).1 (ec_sign_compact s h).2 c
    = Some (ec_get_pubkey s c)
}.

(** A stand-in for the primitives on which the definitions can be run: it
    has none of the security of the real ones, and only serves to show
    that the laws above can be met and to evaluate the code on concrete
    inputs. *)
Definition demo_pad (n : nat) (x : list byte) : list byte :=
  take n (x ++ repeat x00 n).

Definition demo_crypto : Crypto := {|
  Hash := demo_pad 32;
  Hash160 := demo_pad 20;
  ec_set_secretbytes s :=
    if decide (length s = 32%nat) then Ok () else Raise ValueError;
  ec_get_pubkey s c :=
    if c then x02 :: demo_pad 32 s else x04 :: demo_pad 32 s ++ demo_pad 32 s;
  ec_sign s h := demo_pad 32 s ++ demo_pad 32 h;
  ec_sign_compact s h := (demo_pad 32 s ++ demo_pad 32 h, 0);
  ec_recover h sig i c :=
    Some (if c then x02 :: demo_pad 32 sig
          else x04 :: demo_pad 32 sig ++ demo_pad 32 sig);
  ec_is_fullyvalid pk := true;
  bech32_str hrp witver witprog := hrp
|}.

(** ** Scripts ([telestai.core.script], [evrmore.core.script]) *)

Module Script.

(** Modelled from the spec: the constants of the script module are not
    under src/; they are the opcode and signature-hash values of the
    Bitcoin script language that section 4.3 names. *)
Definition OP_0 : byte := x00.
Definition OP_PUSHDATA1 : byte := x4c.
Definition OP_PUSHDATA2 : byte := x4d.
Definition OP_PUSHDATA4 : byte := x4e.
Definition OP_DUP : byte := x76.
Definition OP_EQUAL : byte := x87.
Definition OP_EQUALVERIFY : byte := x88.
Definition OP_HASH160 : byte := xa9.
Definition OP_CHECKSIG : byte := xac.
Definition SIGHASH_ALL : Z := 1.
Definition SIGVERSION_BASE : Z := 0.

(** What a script is built from and iterates to: an opcode or a byte
    string to push.  The small integers that iterating yields for [OP_0]
    and [OP_1] .. [OP_16] are coerced back to the same opcodes by the
    constructor, so they stay opcodes here. *)
Inductive elem : Type :=
  | EOp (op : byte)
  | EData (d : list byte).

(** Little-endian integers of a fixed width, as [struct.pack] writes
    them and [struct.unpack] reads them. *)
Fixpoint le_bytes (width : nat) (n : Z) : list byte :=
  match width with
  | O => []
  | S w => byte_of_Z (n mod 256) :: le_bytes w (n / 256)
  end.

Definition le_int (b : list byte) : Z :=
  fold_right (fun c acc => Z_of_byte c + 256 * acc) 0 b.

(** Modelled from the spec: [CScriptOp.encode_op_pushdata] is not under
    src/.  The push of section 4.6, in its shortest form: a length byte
    below [OP_PUSHDATA1], else [OP_PUSHDATA1/2/4] and a 1, 2 or 4 byte
    little-endian length. *)
Definition encode_op_pushdata (d : list byte) : result (list byte) :=
  let n := Z.of_nat (length d) in
  if decide (n < 0x4c) then Ok (byte_of_Z n :: d)
  else if decide (n <= 0xff) then Ok (OP_PUSHDATA1 :: le_bytes 1 n ++ d)
  else if decide (n <= 0xffff) then Ok (OP_PUSHDATA2 :: le_bytes 2 n ++ d)
  else if decide (n <= 0xffffffff) then Ok (OP_PUSHDATA4 :: le_bytes 4 n ++ d)
  else Raise ValueError.

(** Modelled from the spec: the coercion of one constructor argument,
    not under src/: an opcode is its byte, bytes are pushed. *)
Definition coerce_instance (e : elem) : result (list byte) :=
  match e with
  | EOp op => Ok [op]
  | EData d => encode_op_pushdata d
  end.

(** Modelled from the spec: the constructor [CScript(iterable)] is not
    under src/; it joins the serialized elements. *)
Fixpoint CScript (es : list elem) : result (list byte) :=
  match es with
  | [] => Ok []
  | e :: es' =>
      b ← coerce_instance e;
      bs ← CScript es';
      Ok (b ++ bs)
  end.

(** Modelled from the spec: one step of iterating a [CScript], which is
    not under src/: the element at the front and what follows it. *)
Definition read_elem (op : byte) (rest : list byte) : result (elem * list byte) :=
  let o := Z_of_byte op in
  if decide (Z_of_byte OP_PUSHDATA4 < o) then Ok (EOp op, rest) else
  '(datasize, rest1) ←
    (if decide (o < Z_of_byte OP_PUSHDATA1) then Ok (Z.to_nat o, rest)
     else
       let w := if decide (op = OP_PUSHDATA1) then 1%nat
                else if decide (op = OP_PUSHDATA2) then 2%nat else 4%nat in
       if decide (length rest < w)%nat then Raise CScriptInvalidError
       else Ok (Z.to_nat (le_int (take w rest)), drop w rest));
  let data := take datasize rest1 in
  if decide (length data < datasize)%nat then Raise CScriptInvalidError
  else Ok (if decide (o = 0) then EOp op else EData data, drop datasize rest1).

(** Modelled from the spec: iterating a [CScript] is not under src/.
    Opcodes above [OP_PUSHDATA4] stand for themselves, the others push
    the bytes their length field announces; a push that runs past the end
    is a [CScriptInvalidError].  [fuel] bounds the number of elements. *)
Fixpoint iter (fuel : nat) (s : list byte) : result (list elem) :=
  match fuel, s with
  | _, [] => Ok []
  | O, _ :: _ => Ok []
  | S f, op :: rest =>
      '(e, rest') ← read_elem op rest;
      es ← iter f rest';
      Ok (e :: es)
  end.

(** [CScript(tuple(scriptPubKey))]: the canonicalizing constructor of
    section 6, which rewrites every push in its shortest form. *)
Definition canonicalize (s : list byte) : result (list byte) :=
  es ← iter (length s) s;
  CScript es.

(** Modelled from the spec: the template predicates of section 6 are not
    under src/.  P2SH is [OP_HASH160 <20 bytes> OP_EQUAL] (section 4.3);
    the witness-v0 templates are [OP_0 <20 bytes>] and [OP_0 <32 bytes>]. *)
Definition is_p2sh (s : list byte) : bool :=
  bool_decide (length s = 23%nat)
  && bool_decide (s !! 0%nat = Some OP_HASH160)
  && bool_decide (s !! 1%nat = Some x14)
  && bool_decide (s !! 22%nat = Some OP_EQUAL).

Definition is_witness_v0_keyhash (s : list byte) : bool :=
  bool_decide (length s = 22%nat) && bool_decide (slice 0 2 s = [x00; x14]).

Definition is_witness_v0_scripthash (s : list byte) : bool :=
  bool_decide (length s = 34%nat) && bool_decide (slice 0 2 s = [x00; x20]).

(** Modelled from the spec: [is_witness_v0_nested_keyhash] is not under
    src/, and section 6 does not list it among the predicates.  Its one
    caller, [P2PKHTelestaiAddress.from_scriptPubKey], takes the slice
    [[3:23]] of a script it accepts as the key hash: the script is the
    push of a witness-v0 key-hash program, the byte [0x16] for the 22
    bytes [OP_0 <20 bytes>] that follow it. *)
Definition is_witness_v0_nested_keyhash (s : list byte) : bool :=
  bool_decide (length s = 23%nat) && bool_decide (slice 0 3 s = [x16; x00; x14]).

End Script.

(** ** Addresses ([telestai/wallet.py]) *)

(** The four leaf classes.  An address object is one of the two base-58
    classes over a [CBase58Data], or one of the two bech32 classes over a
    witness version and program. *)
Inductive base58_class : Type := P2SHTelestaiAddress | P2PKHTelestaiAddress.
Inductive bech32_class : Type := P2WSHTelestaiAddress | P2WPKHTelestaiAddress.

Inductive address : Type :=
  | Base58Address (c : base58_class) (d : CBase58Data)
  | Bech32Address (c : bech32_class) (witver : Z) (witprog : list byte).

Global Instance base58_class_eq_dec : EqDecision base58_class.
Proof. solve_decision. Defined.

Section Addresses.
Context `{Crypto}.
Variable p : ChainParams.

(** [CBase58TelestaiAddress.from_bytes] *)
Definition CBase58TelestaiAddress_from_bytes (data : list byte) (v : Z) : result address :=
  self ← CBase58Data_from_bytes data v;
  if decide (v = SCRIPT_ADDR p) then Ok (Base58Address P2SHTelestaiAddress self)
  else if decide (v = PUBKEY_ADDR p) then Ok (Base58Address P2PKHTelestaiAddress self)
  else Raise CTelestaiAddressError.

(** [P2SHTelestaiAddress.from_bytes] *)
Definition P2SH_from_bytes (data : list byte) (v : option Z) : result address :=
  match v with
  | None => CBase58TelestaiAddress_from_bytes data (SCRIPT_ADDR p)
  | Some v =>
      if decide (v ≠ SCRIPT_ADDR p) then Raise ValueError
      else CBase58TelestaiAddress_from_bytes data v
  end.

(** [P2PKHTelestaiAddress.from_bytes] *)
Definition P2PKH_from_bytes (data : list byte) (v : option Z) : result address :=
  match v with
  | None => CBase58TelestaiAddress_from_bytes data (PUBKEY_ADDR p)
  | Some v =>
      if decide (v ≠ PUBKEY_ADDR p) then Raise ValueError
      else CBase58TelestaiAddress_from_bytes data v
  end.

(** [P2PKHTelestaiAddress.from_pubkey], on a [bytes] argument. *)
Definition P2PKH_from_pubkey (pubkey : list byte) (accept_invalid : bool) : result address :=
  if negb accept_invalid && negb (ec_is_fullyvalid pubkey)
  then Raise CTelestaiAddressError
  else
    let pubkey_hash := Hash160 pubkey in
    P2PKH_from_bytes pubkey_hash None.

(** [P2SHTelestaiAddress.from_scriptPubKey] *)
Definition P2SH_from_scriptPubKey (scriptPubKey : list byte) : result address :=
  if Script.is_p2sh scriptPubKey
  then P2SH_from_bytes (slice 2 22 scriptPubKey) (Some (SCRIPT_ADDR p))
  else Raise CTelestaiAddressError.

(** [P2PKHTelestaiAddress.from_scriptPubKey] *)
Definition P2PKH_from_scriptPubKey (scriptPubKey : list byte)
    (accept_non_canonical_pushdata accept_bare_checksig : bool) : result address :=
  scriptPubKey ←
    (if accept_non_canonical_pushdata then
       try_except (Script.canonicalize scriptPubKey) CScriptInvalidError
         (Raise CTelestaiAddressError)
     else Ok scriptPubKey);
  if Script.is_witness_v0_keyhash scriptPubKey then
    P2PKH_from_bytes (slice 2 22 scriptPubKey) (Some (PUBKEY_ADDR p))
  else if Script.is_witness_v0_nested_keyhash scriptPubKey then
    P2PKH_from_bytes (slice 3 23 scriptPubKey) (Some (PUBKEY_ADDR p))
  else if bool_decide (length scriptPubKey = 25%nat)
          && bool_decide (scriptPubKey !! 0%nat = Some Script.OP_DUP)
          && bool_decide (scriptPubKey !! 1%nat = Some Script.OP_HASH160)
          && bool_decide (scriptPubKey !! 2%nat = Some x14)
          && bool_decide (scriptPubKey !! 23%nat = Some Script.OP_EQUALVERIFY)
          && bool_decide (scriptPubKey !! 24%nat = Some Script.OP_CHECKSIG) then
    P2PKH_from_bytes (slice 3 23 scriptPubKey) (Some (PUBKEY_ADDR p))
  else
    let pubkey :=
      if accept_bare_checksig then
        if bool_decide (length scriptPubKey = 35%nat)
           && bool_decide (scriptPubKey !! 0%nat = Some x21)
           && bool_decide (scriptPubKey !! 34%nat = Some Script.OP_CHECKSIG)
        then Some (slice 1 34 scriptPubKey)
        else if bool_decide (length scriptPubKey = 67%nat)
                && bool_decide (scriptPubKey !! 0%nat = Some x41)
                && bool_decide (scriptPubKey !! 66%nat = Some Script.OP_CHECKSIG)
        then Some (slice 1 65 scriptPubKey)
        else None
      else None in
    match pubkey with
    | Some pubkey => P2PKH_from_pubkey pubkey true
    | None => Raise CTelestaiAddressError
    end.

(** [CBase58TelestaiAddress.from_scriptPubKey] *)
Definition CBase58TelestaiAddress_from_scriptPubKey (scriptPubKey : list byte) :
    result address :=
  try_except (P2SH_from_scriptPubKey scriptPubKey) CTelestaiAddressError
    (try_except (P2PKH_from_scriptPubKey scriptPubKey true true) CTelestaiAddressError
       (Raise CTelestaiAddressError)).

(** [CTelestaiAddress.from_scriptPubKey]; the bech32 attempt that
    precedes the base-58 one in the source is commented out there. *)
Definition CTelestaiAddress_from_scriptPubKey (scriptPubKey : list byte) : result address :=
  try_except (CBase58TelestaiAddress_from_scriptPubKey scriptPubKey)
    CTelestaiAddressError (Raise CTelestaiAddressError).

(** Modelled from the spec: [CBech32Data.from_bytes] is not under src/;
    it keeps the witness version and program. *)
Definition CBech32TelestaiAddress_from_bytes (witver : Z) (witprog : list byte) :
    result address :=
  if decide (witver ≠ 0) then Raise AssertionError
  else if decide (length witprog = 32%nat)
  then Ok (Bech32Address P2WSHTelestaiAddress witver witprog)
  else if decide (length witprog = 20%nat)
  then Ok (Bech32Address P2WPKHTelestaiAddress witver witprog)
  else Raise CTelestaiAddressError.

(** [P2WSHTelestaiAddress.from_scriptPubKey] and
    [P2WPKHTelestaiAddress.from_scriptPubKey] *)
Definition P2WSH_from_scriptPubKey (scriptPubKey : list byte) : result address :=
  if Script.is_witness_v0_scripthash scriptPubKey
  then CBech32TelestaiAddress_from_bytes 0 (slice 2 34 scriptPubKey)
  else Raise CTelestaiAddressError.

Definition P2WPKH_from_scriptPubKey (scriptPubKey : list byte) : result address :=
  if Script.is_witness_v0_keyhash scriptPubKey
  then CBech32TelestaiAddress_from_bytes 0 (slice 2 22 scriptPubKey)
  else Raise CTelestaiAddressError.

(** [CBech32TelestaiAddress.from_scriptPubKey], which nothing modelled
    here calls. *)
Definition CBech32TelestaiAddress_from_scriptPubKey (scriptPubKey : list byte) :
    result address :=
  try_except (P2WSH_from_scriptPubKey scriptPubKey) CTelestaiAddressError
    (try_except (P2WPKH_from_scriptPubKey scriptPubKey) CTelestaiAddressError
       (Raise CTelestaiAddressError)).

(** [to_scriptPubKey] of the four classes. *)
Definition to_scriptPubKey (a : address) : result (list byte) :=
  match a with
  | Base58Address P2SHTelestaiAddress d =>
      if decide (nVersion d = SCRIPT_ADDR p)
      then Script.CScript [Script.EOp Script.OP_HASH160; Script.EData (b58_data d);
                           Script.EOp Script.OP_EQUAL]
      else Raise AssertionError
  | Base58Address P2PKHTelestaiAddress d =>
      if decide (nVersion d = PUBKEY_ADDR p)
      then Script.CScript [Script.EOp Script.OP_DUP; Script.EOp Script.OP_HASH160;
                           Script.EData (b58_data d);
                           Script.EOp Script.OP_EQUALVERIFY; Script.EOp Script.OP_CHECKSIG]
      else Raise AssertionError
  | Bech32Address _ witver witprog =>
      if decide (witver = 0)
      then Script.CScript [Script.EOp Script.OP_0; Script.EData witprog]
      else Raise AssertionError
  end.

(** [str(address)] *)
Definition address_str (a : address) : string :=
  match a with
  | Base58Address _ d => CBase58Data_str d
  | Bech32Address _ witver witprog => bech32_str (BECH32_HRP p) witver witprog
  end.

End Addresses.

(** ** Base64 (Python's [base64] module) *)

Module Base64.

Definition ALPHABET : string :=
  "ABCDEFGHIJKLMNOPQRSTUVWXYZabcdefghijklmnopqrstuvwxyz0123456789+/".

Definition PAD : ascii := "="%char.

Definition table (d : Z) : ascii :=
  default PAD (String.get (Z.to_nat d) ALPHABET).

Definition index (c : ascii) : option Z := index_from c ALPHABET 0.

(** [base64.b64encode]: three bytes give four symbols, and a last group
    of one or two bytes is padded with ["="]. *)
Fixpoint b64encode_chars (b : list byte) : list ascii :=
  match b with
  | [] => []
  | [x] =>
      let x := Z_of_byte x in
      [table (x / 4); table (x mod 4 * 16); PAD; PAD]
  | [x; y] =>
      let x := Z_of_byte x in
      let y := Z_of_byte y in
      [table (x / 4); table (x mod 4 * 16 + y / 16); table (y mod 16 * 4); PAD]
  | x :: y :: z :: rest =>
      let x := Z_of_byte x in
      let y := Z_of_byte y in
      let z := Z_of_byte z in
      [table (x / 4); table (x mod 4 * 16 + y / 16);
       table (y mod 16 * 4 + z / 64); table (z mod 64)] ++ b64encode_chars rest
  end.

Definition b64encode (b : list byte) : string :=
  string_of_list_ascii (b64encode_chars b).

(** The loop of [binascii.a2b_base64] without strict mode.  [quad_pos]
    counts the symbols of the current group, [leftchar] holds the bits
    not yet written, [pads] counts padding symbols.  Symbols outside the
    alphabet are skipped; padding that completes a group ends the input;
    an incomplete group at the end is [binascii.Error]. *)
Fixpoint a2b_loop (s : list ascii) (quad_pos : nat) (leftchar : Z) (pads : nat)
    (out : list byte) : result (list byte) :=
  match s with
  | [] => if decide (quad_pos = 0%nat) then Ok out else Raise binascii_Error
  | c :: s' =>
      if decide (c = PAD) then
        if decide (2 <= quad_pos)%nat then
          if decide (4 <= quad_pos + S pads)%nat then Ok out
          else a2b_loop s' quad_pos leftchar (S pads) out
        else a2b_loop s' quad_pos leftchar pads out
      else
        match index c with
        | None => a2b_loop s' quad_pos leftchar pads out
        | Some d =>
            match quad_pos with
            | 0%nat => a2b_loop s' 1 d 0 out
            | 1%nat =>
                a2b_loop s' 2 (d mod 16) 0 (out ++ [byte_of_Z (leftchar * 4 + d / 16)])
            | 2%nat =>
                a2b_loop s' 3 (d mod 4) 0 (out ++ [byte_of_Z (leftchar * 16 + d / 4)])
            | _ =>
                a2b_loop s' 0 0 0 (out ++ [byte_of_Z (leftchar * 64 + d)])
            end
        end
  end.

(** [base64.b64decode] of a [str] argument: the text is first encoded as
    ASCII, and a character above 127 is a [ValueError]; then the loop
    above runs.  The [bytes] that [SignMessage] returns hold ASCII only
    and are read alike. *)
Definition b64decode (s : string) : result (list byte) :=
  let cs := list_ascii_of_string s in
  if forallb (fun c => bool_decide (Z.of_N (N_of_ascii c) < 128)) cs
  then a2b_loop cs 0 0 0 []
  else Raise ValueError.

End Base64.

(** ** Serialization ([telestai.core.serialize]) *)

(** Modelled from the spec: [VarIntSerializer] and [BytesSerializer] are
    not under src/.  The length prefix of section 4.5 is the compact
    size: one byte below [0xfd], else a marker byte and the length in 2, 4
    or 8 little-endian bytes.  A Python length is below [2^63], so the
    8-byte form always fits. *)
Definition VarInt_serialize (i : Z) : list byte :=
  if decide (i < 0xfd) then [byte_of_Z i]
  else if decide (i <= 0xffff) then xfd :: Script.le_bytes 2 i
  else if decide (i <= 0xffffffff) then xfe :: Script.le_bytes 4 i
  else xff :: Script.le_bytes 8 i.

(** Modelled from the spec: [ser_read(f, n)] is not under src/: [n]
    bytes off the stream, or a truncation error. *)
Definition ser_read (f : list byte) (n : nat) : result (list byte * list byte) :=
  if decide (length f < n)%nat then Raise SerializationTruncationError
  else Ok (take n f, drop n f).

(** Modelled from the spec: [VarIntSerializer.stream_deserialize], not
    under src/, reads the length prefix back. *)
Definition VarInt_deserialize (f : list byte) : result (Z * list byte) :=
  '(r, f) ← ser_read f 1;
  let r := Script.le_int r in
  if decide (r < 0xfd) then Ok (r, f)
  else
    let w := if decide (r = 0xfd) then 2%nat
             else if decide (r = 0xfe) then 4%nat else 8%nat in
    '(b, f) ← ser_read f w;
    Ok (Script.le_int b, f).

(** Modelled from the spec: [BytesSerializer], not under src/: the
    length prefix, then the bytes. *)
Definition BytesSerializer_serialize (b : list byte) : list byte :=
  VarInt_serialize (Z.of_nat (length b)) ++ b.

Definition BytesSerializer_deserialize (f : list byte) : result (list byte * list byte) :=
  '(l, f) ← VarInt_deserialize f;
  ser_read f (Z.to_nat l).

(** ** Signed messages ([telestai/signmessage.py]) *)

(** A Python value that is a [str] or a [bytes]; a [str] is modelled on
    the code points below 256. *)
Inductive pyval : Type :=
  | PyStr (s : string)
  | PyBytes (b : list byte).

(** UTF-8 of a code point below 256: itself below 128, two bytes above. *)
Definition utf8_char (c : ascii) : list byte :=
  let n := Z.of_N (N_of_ascii c) in
  if decide (n < 128) then [byte_of_Z n]
  else [byte_of_Z (192 + n / 64); byte_of_Z (128 + n mod 64)].

Definition utf8 (s : string) : list byte :=
  concat (map utf8_char (list_ascii_of_string s)).

(** [x.encode("utf-8")]: [bytes] has no such method. *)
Definition py_encode_utf8 (x : pyval) : result (list byte) :=
  match x with
  | PyStr s => Ok (utf8 s)
  | PyBytes _ => Raise AttributeError
  end.

Record TelestaiMessage : Type := {
  magic : list byte;
  message : list byte
}.

Definition default_magic : string :=
  "Telestai Signed Message:" ++ String "010"%char EmptyString.

(** [TelestaiMessage.__init__] *)
Definition TelestaiMessage_init (message magic : pyval) : result TelestaiMessage :=
  m ← py_encode_utf8 message;
  g ← py_encode_utf8 magic;
  Ok {| magic := g; message := m |}.

(** [TelestaiMessage.stream_serialize], as the bytes written. *)
Definition TelestaiMessage_stream_serialize (self : TelestaiMessage) : list byte :=
  BytesSerializer_serialize (magic self) ++ BytesSerializer_serialize (message self).

(** [TelestaiMessage.stream_deserialize], with the stream that is left. *)
Definition TelestaiMessage_stream_deserialize (f : list byte) :
    result (TelestaiMessage * list byte) :=
  '(magic, f) ← BytesSerializer_deserialize f;
  '(message, f) ← BytesSerializer_deserialize f;
  m ← TelestaiMessage_init (PyBytes message) (PyBytes magic);
  Ok (m, f).

(** The [address] argument of [VerifyMessage], of which only [str] is
    taken: a string or an address object. *)
Inductive address_arg : Type :=
  | AddrStr (s : string)
  | AddrObj (a : address).

Section SignMessage.
Context `{Crypto}.

(** Modelled from the spec: [ImmutableSerializable.GetHash] is not under
    src/; the digest of section 4.5 is the double SHA-256 of the
    serialization. *)
Definition GetHash (m : TelestaiMessage) : list byte :=
  Hash (TelestaiMessage_stream_serialize m).

(** Modelled from the spec: [CPubKey.recover_compact] is not under src/
    (section 4.4).  The header byte must lie in [27, 34]; the recovery id
    is [(header - 27) & 3], the key is compressed from 31 on; the curve
    library finds the point or fails. *)
Definition CPubKey_recover_compact (hash sig : list byte) : result (list byte) :=
  match sig with
  | [] => Raise IndexError
  | header :: sig64 =>
      let h := Z_of_byte header in
      if decide (27 <= h <= 34) then
        let recid := Z.land (h - 27) 3 in
        let compressed := bool_decide (31 <= h) in
        match ec_recover hash sig64 recid compressed with
        | Some pubkey => Ok pubkey
        | None => Raise RecoveryFailed
        end
      else Raise InvalidHeaderByte
  end.

Definition py_str (p : ChainParams) (a : address_arg) : string :=
  match a with
  | AddrStr s => s
  | AddrObj a => address_str p a
  end.

(** [VerifyMessage] *)
Definition VerifyMessage (p : ChainParams) (address : address_arg)
    (message : TelestaiMessage) (sig : string) : result bool :=
  sig ← Base64.b64decode sig;
  let hash := GetHash message in
  pubkey ← CPubKey_recover_compact hash sig;
  a ← P2PKH_from_pubkey p pubkey false;
  Ok (bool_decide (address_str p a = py_str p address)).

(** [SignMessage] *)
Definition SignMessage (key : CKey) (message : TelestaiMessage) : result string :=
  let '(sig, i) := CKey_sign_compact key (GetHash message) in
  let meta := 27 + i in
  let meta := if is_compressed key then meta + 4 else meta in
  m ← bytes_of_int meta;
  Ok (Base64.b64encode (m ++ sig)).

End SignMessage.

(** ** Multisig transactions ([evrmore/core/transaction.py]) *)

Record COutPoint : Type := { outpoint_hash : list byte; outpoint_n : Z }.

(** A transaction input is an object: the transaction holds references to
    its inputs, and [self.vin[0].scriptSig = ...] writes through the first
    of them. *)
Record CTxIn : Type := {
  prevout : COutPoint;
  scriptSig : list byte;
  nSequence : Z
}.

Record CTxOut : Type := { nValue : Z; scriptPubKey : list byte }.

Abbreviation loc := nat (only parsing).
Abbreviation heap := (gmap nat CTxIn) (only parsing).

Record CTransaction : Type := {
  tx_nVersion : Z;
  vin : list loc;
  vout : list CTxOut;
  nLockTime : Z
}.

(** The value of an attribute that [len] is applied to: an integer, as
    section 3 of the spec types the threshold, or an object with a
    length. *)
Inductive pyobj : Type :=
  | PyInt (z : Z)
  | PySized (n : nat).

(** [len(x)]: an [int] has no length. *)
Definition py_len (x : pyobj) : result nat :=
  match x with
  | PyInt _ => Raise TypeError
  | PySized n => Ok n
  end.

(** A redeem script: its bytes and its [required] attribute. *)
Record RedeemScript : Type := {
  rs_script : list byte;
  required : pyobj
}.

Definition set_scriptSig (s : list byte) (i : CTxIn) : CTxIn :=
  {| prevout := prevout i; scriptSig := s; nSequence := nSequence i |}.

Section MultiSig.
Context `{Crypto}.

(** [SignatureHash(script, txTo, inIdx, hashtype, sigversion)] of
    [evrmore.core.script], which reads the transaction and its inputs. *)
Variable SignatureHash :
  list byte -> CTransaction -> heap -> Z -> Z -> Z -> result (list byte).

(** The [for] loop of [sign_with_multiple_keys]. *)
Fixpoint sign_loop (sighash : list byte) (private_keys : list CKey)
    (redeem_script : RedeemScript) (signatures : list (list byte)) :
    result (list (list byte)) :=
  match private_keys with
  | [] => Ok signatures
  | privkey :: rest =>
      n ← py_len (required redeem_script);
      if decide (n <= length signatures)%nat then Ok signatures
      else
        sig_byte ← bytes_of_int Script.SIGHASH_ALL;
        let sig := CKey_sign privkey sighash ++ sig_byte in
        sign_loop sighash rest redeem_script (signatures ++ [sig])
  end.

(** [CMultiSigTransaction.sign_with_multiple_keys] *)
Definition sign_with_multiple_keys (self : CTransaction) (h : heap)
    (private_keys : list CKey) (redeem_script : RedeemScript) (sigversion : Z) :
    result (list (list byte)) :=
  sighash ← SignatureHash (rs_script redeem_script) self h 0
              Script.SIGHASH_ALL sigversion;
  sign_loop sighash private_keys redeem_script [].

(** Modelled from the spec: [CScript.__add__] is not under src/; section
    4.6 writes the unlocking script as the concatenation of its parts. *)
Definition CScript_add (a b : list byte) : list byte := a ++ b.

(** The loop [for sig in signatures: scriptSig += CScript([sig])]. *)
Fixpoint add_signatures (scriptSig : list byte) (signatures : list (list byte)) :
    result (list byte) :=
  match signatures with
  | [] => Ok scriptSig
  | sig :: rest =>
      s ← Script.CScript [Script.EData sig];
      add_signatures (CScript_add scriptSig s) rest
  end.

(** [CMultiSigTransaction.apply_multisig_signatures]: the outcome and the
    object store after the call. *)
Definition apply_multisig_signatures (self : CTransaction) (signatures : list (list byte))
    (redeem_script : RedeemScript) (h : heap) : result () * heap :=
  let built :=
    scriptSig ← Script.CScript [Script.EOp Script.OP_0];
    scriptSig ← add_signatures scriptSig signatures;
    s ← Script.CScript [Script.EData (rs_script redeem_script)];
    Ok (CScript_add scriptSig s) in
  match built with
  | Raise e => (Raise e, h)
  | Ok scriptSig =>
      match vin self !! 0%nat with
      | None => (Raise IndexError, h)
      | Some l => (Ok (), alter (set_scriptSig scriptSig) l h)
      end
  end.

End MultiSig.

(** ** Script templates, written out

    The byte strings of the templates named in section 4.3 of the spec,
    used to state what the address functions do. *)
Definition p2sh_script (h : list byte) : list byte :=
  xa9 :: x14 :: h ++ [x87].
Definition p2pkh_script (h : list byte) : list byte :=
  x76 :: xa9 :: x14 :: h ++ [x88; xac].
Definition witness_v0_script (prog : list byte) : list byte :=
  x00 :: byte_of_Z (Z.of_nat (length prog)) :: prog.

(** What reading a script yields: pushes whose length fits the four
    bytes of the longest length field. *)
Definition elem_fits (e : Script.elem) : Prop :=
  match e with
  | Script.EOp _ => True
  | Script.EData d => Z.of_nat (length d) <= 0xffffffff
  end.

(** The conditions of the third branch of
    [P2PKHTelestaiAddress.from_scriptPubKey] and of the two bare-checksig
    branches, by name. *)
Definition is_p2pkh_template (s : list byte) : bool :=
  bool_decide (length s = 25%nat)
  && bool_decide (s !! 0%nat = Some Script.OP_DUP)
  && bool_decide (s !! 1%nat = Some Script.OP_HASH160)
  && bool_decide (s !! 2%nat = Some x14)
  && bool_decide (s !! 23%nat = Some Script.OP_EQUALVERIFY)
  && bool_decide (s !! 24%nat = Some Script.OP_CHECKSIG).

Definition is_bare_checksig_compressed (s : list byte) : bool :=
  bool_decide (length s = 35%nat)
  && bool_decide (s !! 0%nat = Some x21)
  && bool_decide (s !! 34%nat = Some Script.OP_CHECKSIG).

Definition is_bare_checksig_uncompressed (s : list byte) : bool :=
  bool_decide (length s = 67%nat)
  && bool_decide (s !! 0%nat = Some x41)
  && bool_decide (s !! 66%nat = Some Script.OP_CHECKSIG).

(** The address objects of the two base-58 classes on the active
    parameters. *)
Definition P2SH_address (p : ChainParams) (h : list byte) : address :=
  Base58Address P2SHTelestaiAddress {| b58_data := h; nVersion := SCRIPT_ADDR p |}.
Definition P2PKH_address (p : ChainParams) (h : list byte) : address :=
  Base58Address P2PKHTelestaiAddress {| b58_data := h; nVersion := PUBKEY_ADDR p |}.

(** The version bytes are bytes and tell the two classes apart, as in the
    three parameter classes of the source. *)
Definition params_ok (p : ChainParams) : Prop :=
  0 <= SCRIPT_ADDR p <= 255 ∧ 0 <= PUBKEY_ADDR p <= 255 ∧
  PUBKEY_ADDR p ≠ SCRIPT_ADDR p.

(** ** Sample values *)

(** The key of the 32-byte scalar [0x11 ... 0x11] under the stand-in
    primitives, and the message whose text is an address. *)
Definition demo_secret : list byte := repeat x11 32.

Definition demo_key (compressed : bool) : CKey := {|
  key_secret := demo_secret;
  key_compressed := compressed;
  pub := @ec_get_pubkey demo_crypto demo_secret compressed
|}.

Definition demo_message : TelestaiMessage := {|
  magic := utf8 default_magic;
  message := utf8 "RL5dKQv7ZZYrqSYXNVgy2HvncjcQf8G6at"
|}.

(** A stand-in for [SignatureHash], and a transaction with two inputs
    held at the locations 0 and 1 of the object store. *)
Definition demo_SignatureHash (script : list byte) (tx : CTransaction) (h : heap)
    (inIdx hashtype sigversion : Z) : result (list byte) :=
  Ok (demo_pad 32 script).

Definition demo_txin (n : Z) : CTxIn := {|
  prevout := {| outpoint_hash := repeat x00 32; outpoint_n := n |};
  scriptSig := [];
  nSequence := 0xffffffff
|}.

Definition demo_heap : heap := <[1%nat := demo_txin 1]> (<[0%nat := demo_txin 0]> ∅).

Definition demo_tx : CTransaction := {|
  tx_nVersion := 1;
  vin := [0%nat; 1%nat];
  vout := [{| nValue := 1000; scriptPubKey := p2pkh_script (repeat x07 20) |}];
  nLockTime := 0
|}.

(** The signature [sign_with_multiple_keys] makes with one key. *)
Definition tx_signature `{Crypto} (sighash : list byte) (k : CKey) : list byte :=
  CKey_sign k sighash ++ [x01].

(** * The rest of the modelled code *)

From stdpp Require Import pretty.
Local Open Scope Z_scope.

(** ** Addresses from strings ([telestai/wallet.py]) *)

(** Modelled from the spec: [CBase58Data.__new__] is not under src/
    (section 4.2, decode).  This is [CBase58Data_new] for a subclass
    [cls]: the decoded payload and version go to [cls.from_bytes]. *)
Definition CBase58Data_new_cls `{Crypto} {A} (from_bytes : list byte -> Z -> result A)
    (s : string) : result A :=
  k ← Base58.decode s;
  if decide (length k < 4)%nat then Raise TooShort else
  let body := take (length k - 4) k in
  let check0 := drop (length k - 4) k in
  let check1 := take 4 (Hash body) in
  if decide (check0 = check1) then
    match body with
    | [] => Raise IndexError
    | verbyte :: data => from_bytes data (Z_of_byte verbyte)
    end
  else Raise Base58ChecksumError.

(** The subclasses of [telestai.base58.Base58Error]: the decoding errors,
    and [CTelestaiSecretError], which [wallet.py] derives from it. *)
Definition is_Base58Error (e : exn) : bool :=
  match e with
  | InvalidBase58Error | Base58ChecksumError | TooShort | CTelestaiSecretError => true
  | _ => false
  end.

Section AddressStrings.
Context `{Crypto}.
Variable p : ChainParams.

(** [CBase58TelestaiAddress(s)] *)
Definition CBase58TelestaiAddress_new (s : string) : result address :=
  CBase58Data_new_cls (CBase58TelestaiAddress_from_bytes p) s.

(** [CTelestaiAddress.__new__]: [except Base58Error: pass], then the
    address error. *)
Definition CTelestaiAddress_new (s : string) : result address :=
  match CBase58TelestaiAddress_new s with
  | Ok a => Ok a
  | Raise e => if is_Base58Error e then Raise CTelestaiAddressError else Raise e
  end.

(** Modelled from the spec: [CScript.to_p2sh_scriptPubKey] is not under
    src/; it is the P2SH template of section 4.3 over the hash of the
    redeem script (section 3). *)
Definition to_p2sh_scriptPubKey (redeemScript : list byte) : result (list byte) :=
  Script.CScript [Script.EOp Script.OP_HASH160; Script.EData (Hash160 redeemScript);
                  Script.EOp Script.OP_EQUAL].

(** [P2SHTelestaiAddress.from_redeemScript] *)
Definition P2SH_from_redeemScript (redeemScript : list byte) : result address :=
  s ← to_p2sh_scriptPubKey redeemScript;
  P2SH_from_scriptPubKey p s.

(** What [to_redeemScript] returns: a script, or, for P2WSH, the
    [NotImplementedError] object itself, which the method returns instead
    of raising. *)
Inductive redeem_value : Type :=
  | RedeemScriptValue (s : list byte)
  | NotImplementedErrorValue.

(** [to_redeemScript] of the four classes. *)
Definition to_redeemScript (a : address) : result redeem_value :=
  match a with
  | Base58Address _ _ => s ← to_scriptPubKey p a; Ok (RedeemScriptValue s)
  | Bech32Address P2WSHTelestaiAddress _ _ => Ok NotImplementedErrorValue
  | Bech32Address P2WPKHTelestaiAddress _ witprog =>
      s ← Script.CScript [Script.EOp Script.OP_DUP; Script.EOp Script.OP_HASH160;
                          Script.EData witprog;
                          Script.EOp Script.OP_EQUALVERIFY; Script.EOp Script.OP_CHECKSIG];
      Ok (RedeemScriptValue s)
  end.

End AddressStrings.

(** ** Hexadecimal text ([bytes.hex], [binascii.hexlify], [bytearray.fromhex]) *)

Definition HEX_DIGITS : string := "0123456789abcdef".

Definition hex_digit (d : Z) : ascii :=
  default "0"%char (String.get (Z.to_nat d) HEX_DIGITS).

(** [bytes.hex()]: two lower-case digits per byte. *)
Definition hexlify (b : list byte) : list ascii :=
  b ≫= fun c => [hex_digit (Z_of_byte c / 16); hex_digit (Z_of_byte c mod 16)].

(** The value of a hex digit of either case. *)
Definition hex_value (c : ascii) : option Z :=
  match index_from c HEX_DIGITS 0 with
  | Some d => Some d
  | None => (fun d => d + 10) <$> index_from c "ABCDEF" 0
  end.

(** ASCII whitespace, which [fromhex] skips between two bytes. *)
Definition is_ascii_space (c : ascii) : bool :=
  bool_decide (c ∈ [" "%char; "009"%char; "010"%char; "011"%char; "012"%char; "013"%char]).

(** [bytearray.fromhex(s)]: pairs of hex digits, with whitespace allowed
    between the pairs; a [ValueError] otherwise. *)
Fixpoint fromhex (s : list ascii) : result (list byte) :=
  match s with
  | [] => Ok []
  | c1 :: rest =>
      if is_ascii_space c1 then fromhex rest else
      match rest with
      | [] => Raise ValueError
      | c2 :: rest' =>
          match hex_value c1, hex_value c2 with
          | Some h, Some l => bs ← fromhex rest'; Ok (byte_of_Z (h * 16 + l) :: bs)
          | _, _ => Raise ValueError
          end
      end
  end.

Section ScriptHash.
Context `{Crypto}.
(** [hashlib.sha256(x).digest()] *)
Variable sha256 : list byte -> list byte.

(** [P2SHTelestaiAddress.to_scripthash]; the other classes have no such
    method. *)
Definition to_scripthash (p : ChainParams) (a : address) : result string :=
  match a with
  | Base58Address P2SHTelestaiAddress _ =>
      script_pubkey ← to_scriptPubKey p a;
      let scripthash := sha256 script_pubkey in
      Ok (string_of_list_ascii (hexlify (rev scripthash)))
  | _ => Raise AttributeError
  end.

End ScriptHash.

(** ** Printing a signed message ([telestai/signmessage.py]) *)

(** [b.decode('ascii')]: a [UnicodeDecodeError], which is a [ValueError],
    when a byte is above 127. *)
Definition ascii_decode (b : list byte) : result string :=
  if forallb (fun c => bool_decide (Z_of_byte c < 128)) b
  then Ok (string_of_list_ascii (map ascii_of_byte b))
  else Raise ValueError.

(** [TelestaiMessage.__str__] *)
Definition TelestaiMessage_str (self : TelestaiMessage) : result string :=
  ascii_decode (message self).

(** ** The burn-address tool ([examples/tls_burn.py]) *)

Section Burn.
Context `{Crypto}.
(** [hashlib.sha256(x).digest()] *)
Variable sha256 : list byte -> list byte.

Definition ABET : string :=
  "123456789ABCDEFGHJKLMNPQRSTUVWXYZabcdefghijkmnopqrstuvwxyz".

(** [hh256] *)
Definition hh256 (s : list byte) : list ascii :=
  let s := sha256 s in
  hexlify (sha256 s).

(** [b58ec], whose argument is hex text *)
Definition b58ec (s : list ascii) : result string :=
  unencoded ← fromhex s;
  let encoded := Base58.encode unencoded in
  Ok encoded.

(** The slice [x[:-trim]]; [x[:-0]] is [x[:0]], the empty string. *)
Definition slice_to_minus {A} (trim : nat) (x : list A) : list A :=
  match trim with
  | O => []
  | S _ => take (length x - trim) x
  end.

(** [b58dc] *)
Definition b58dc (encoded : string) (trim : nat) : result (list byte) :=
  d ← Base58.decode encoded;
  let unencoded := slice_to_minus trim d in
  Ok unencoded.

(** [burn] *)
Definition burn (s : string) : result string :=
  decoded ← b58dc s 4;
  let decoded_hex := hexlify decoded in
  let check := take 8 (hh256 decoded) in
  let coded := decoded_hex ++ check in
  b58ec coded.

(** How a run of the tool ends: it prints an address, prints that the
    template is not valid, or stops on an exception. *)
Inductive burn_outcome : Type :=
  | PrintedAddress (s : string)
  | PrintedInvalidTemplate
  | RaisedAlphabetError
  | Raised (e : exn).

(** The body of the [for c in template] loop after the alphabet test:
    the template padded with ["X"] or cut to 34 characters. *)
Definition pad_template (template : list ascii) : list ascii :=
  let tlen := length template in
  if decide (tlen < 34)%nat then template ++ repeat "X"%char (34 - tlen)
  else take 34 template.

(** The [for c in template] loop: it walks the characters of the template
    as given; [None] stands for the [AlphabetError] of a character that
    is not in [ABET]. *)
Fixpoint check_and_pad (chars : list ascii) (template : list ascii) :
    option (list ascii) :=
  match chars with
  | [] => Some template
  | c :: chars' =>
      match index_from c ABET 0 with
      | None => None
      | Some _ => check_and_pad chars' (pad_template template)
      end
  end.

(** The [__main__] block, on the active parameters [p]. *)
Definition burn_main (p : ChainParams) (template : string) : burn_outcome :=
  let t := list_ascii_of_string template in
  match t with
  | [] => Raised IndexError
  | c0 :: _ =>
      if decide (c0 ≠ "E"%char) then RaisedAlphabetError else
      match check_and_pad t t with
      | None => RaisedAlphabetError
      | Some template =>
          match burn (string_of_list_ascii template) ≫= CTelestaiAddress_new p with
          | Ok burn_address => PrintedAddress (address_str p burn_address)
          | Raise CTelestaiAddressError => PrintedInvalidTemplate
          | Raise e => Raised e
          end
      end
  end.

End Burn.

(** ** JSON-RPC errors ([telestai/rpc.py]) *)

(** The error classes of [rpc.py]. *)
Inductive rpc_error_class : Type :=
  | JSONRPCError
  | ForbiddenBySafeModeError
  | InvalidAddressOrKeyError
  | InvalidParameterError
  | VerifyError
  | VerifyRejectedError
  | VerifyAlreadyInChainError
  | InWarmupError.

Global Instance rpc_error_class_eq_dec : EqDecision rpc_error_class.
Proof. solve_decision. Defined.

(** [RPC_ERROR_CODE] of the subclasses; the base class has none. *)
Definition RPC_ERROR_CODE (c : rpc_error_class) : option Z :=
  match c with
  | JSONRPCError => None
  | ForbiddenBySafeModeError => Some (-2)
  | InvalidAddressOrKeyError => Some (-5)
  | InvalidParameterError => Some (-8)
  | VerifyError => Some (-25)
  | VerifyRejectedError => Some (-26)
  | VerifyAlreadyInChainError => Some (-27)
  | InWarmupError => Some (-28)
  end.

(** [JSONRPCError._register_subcls]: the class attribute
    [SUBCLS_BY_CODE] is a dictionary from codes to classes; a class
    without a code raises [AttributeError]. *)
Definition _register_subcls (SUBCLS_BY_CODE : gmap Z rpc_error_class)
    (subcls : rpc_error_class) : result (gmap Z rpc_error_class) :=
  match RPC_ERROR_CODE subcls with
  | None => Raise AttributeError
  | Some code => Ok (<[code := subcls]> SUBCLS_BY_CODE)
  end.

(** The dictionary after the seven decorated class statements. *)
Definition SUBCLS_BY_CODE : result (gmap Z rpc_error_class) :=
  foldl (fun d c => d ← d; _register_subcls d c) (Ok ∅)
    [ForbiddenBySafeModeError; InvalidAddressOrKeyError; InvalidParameterError;
     VerifyError; VerifyRejectedError; VerifyAlreadyInChainError; InWarmupError].

(** [JSONRPCError.__new__], as far as the class of the new object goes:
    [cls] is the class that was called and [code] is [rpc_error['code']]. *)
Definition JSONRPCError_new (d : gmap Z rpc_error_class) (cls : rpc_error_class)
    (code : Z) : result rpc_error_class :=
  if decide (cls = JSONRPCError) then Ok (default cls (d !! code))
  else Raise AssertionError.

(** ** Elements a script is built from, as iteration gives them back *)

(** An opcode that is not a push opcode, or a push that fits. *)
Definition elem_buildable (e : Script.elem) : Prop :=
  match e with
  | Script.EOp op => op = x00 ∨ Z_of_byte Script.OP_PUSHDATA4 < Z_of_byte op
  | Script.EData d => Z.of_nat (length d) <= 0xffffffff
  end.

(** Iterating yields the empty push as [OP_0]. *)
Definition elem_read (e : Script.elem) : Script.elem :=
  match e with
  | Script.EData [] => Script.EOp x00
  | _ => e
  end.

(** ** The configuration file ([telestai/rpc.py], [BaseProxy.__init__]) *)

(** The characters [str.strip()] removes, among the code points below
    256: the ASCII whitespace, the four separators 28 to 31, and the
    code points 133 and 160. *)
Definition is_py_space (c : ascii) : bool :=
  bool_decide (Z.of_N (N_of_ascii c) ∈ [9; 10; 11; 12; 13; 28; 29; 30; 31; 32; 133; 160]).

Fixpoint lstrip (s : list ascii) : list ascii :=
  match s with
  | [] => []
  | c :: s' => if is_py_space c then lstrip s' else s
  end.

(** [s.strip()] *)
Definition strip (s : list ascii) : list ascii :=
  rev (lstrip (rev (lstrip s))).

(** The text before the first [c] and the text after it: [s[:s.index(c)]]
    and the rest, the two parts of [s.split(c, 1)]; [None] when [c] is
    not in [s]. *)
Fixpoint split_first (c : ascii) (s : list ascii) : option (list ascii * list ascii) :=
  match s with
  | [] => None
  | x :: s' =>
      if decide (x = c) then Some ([], s')
      else prod_map (cons x) id <$> split_first c s'
  end.

(** The body of the loop over the lines: the comment is cut off, a line
    without ["="] is skipped, the others give a key and a value. *)
Definition conf_line (line : list ascii) : option (list ascii * list ascii) :=
  let line :=
    match split_first "#" line with
    | Some (before, _) => before
    | None => line
    end in
  match split_first "=" line with
  | None => None
  | Some (k, v) => Some (strip k, strip v)
  end.

(** The dictionary [conf] after the loop over [fd.readlines()]. *)
Definition read_conf (lines : list (list ascii)) : gmap (list ascii) (list ascii) :=
  foldl (fun conf line =>
           match conf_line line with
           | None => conf
           | Some (k, v) => <[k := v]> conf
           end)
        {[list_ascii_of_string "rpcuser" := []]} lines.

(** The entry for a key among the entries of the lines, the last line
    first. *)
Fixpoint last_entry (key : list ascii) (lines_rev : list (list ascii)) :
    option (list ascii) :=
  match lines_rev with
  | [] => None
  | line :: rest =>
      match conf_line line with
      | Some (k, v) => if decide (k = key) then Some v else last_entry key rest
      | None => last_entry key rest
      end
  end.

(** ** Answers of the server ([telestai/rpc.py], [BaseProxy._call]) *)

(** What [_call] reads of the value under ["error"]: a dictionary, with
    an integer under ["code"] or without that key, or a value that is not
    a dictionary. *)
Inductive error_member : Type :=
  | ErrorDict (code : option Z)
  | ErrorOther.

(** The two members of a response [_call] looks at: [response.get('error')],
    which is [None] for a missing key and for [null], and the value under
    ["result"] when the key is there. *)
Record response (V : Type) : Type := {
  resp_error : option error_member;
  resp_result : option V
}.
Arguments resp_error {V} _.
Arguments resp_result {V} _.

(** How a call ends: with a value, with an exception of one of the
    JSON-RPC classes carrying its [error['code']], or with another
    exception. *)
Inductive rpc_outcome (V : Type) : Type :=
  | Returns (v : V)
  | RaisesJSONRPC (cls : rpc_error_class) (code : Z)
  | Raises (e : exn).
Arguments Returns {V} _.
Arguments RaisesJSONRPC {V} _ _.
Arguments Raises {V} _.

Section Calls.
(** The class attribute [JSONRPCError.SUBCLS_BY_CODE]. *)
Variable d : gmap Z rpc_error_class.

(** [raise JSONRPCError({'code': code, 'message': ...})] *)
Definition raise_JSONRPCError {V} (code : Z) : rpc_outcome V :=
  match JSONRPCError_new d JSONRPCError code with
  | Ok cls => RaisesJSONRPC cls code
  | Raise e => Raises e
  end.

(** [BaseProxy._call], from the response on. *)
Definition _call {V} (r : response V) : rpc_outcome V :=
  match resp_error r with
  | Some (ErrorDict code) => raise_JSONRPCError (default (-345) code)
  | Some ErrorOther => raise_JSONRPCError (-344)
  | None =>
      match resp_result r with
      | None => raise_JSONRPCError (-343)
      | Some result => Returns result
      end
  end.

(** [Proxy.gettransaction]: [except InvalidAddressOrKeyError] becomes an
    [IndexError], and the result is returned as it is. *)
Definition gettransaction {V} (r : response V) : rpc_outcome V :=
  match _call r with
  | RaisesJSONRPC InvalidAddressOrKeyError _ => Raises IndexError
  | o => o
  end.

(** [Proxy.getblockhash]: the conversion [lx] of the result, which is not
    under src/ and may raise, is inside the [try], whose handler turns
    [InvalidParameterError] into an [IndexError]. *)
Definition getblockhash {V W} (lx : V -> result W) (r : response V) : rpc_outcome W :=
  match _call r with
  | Returns v =>
      match lx v with
      | Ok w => Returns w
      | Raise e => Raises e
      end
  | RaisesJSONRPC InvalidParameterError _ => Raises IndexError
  | RaisesJSONRPC cls code => RaisesJSONRPC cls code
  | Raises e => Raises e
  end.

End Calls.

(** ** Quantities ([telestai/rpc.py], [check_numeric]) *)

(** The character class [[0-9.]]. *)
Definition is_numeric_char (c : ascii) : bool :=
  bool_decide (c ∈ list_ascii_of_string "0123456789.").

(** What is left of a text after the longest run of [[0-9.]] at its
    start. *)
Fixpoint after_numeric_run (s : list ascii) : list ascii :=
  match s with
  | [] => []
  | c :: s' => if is_numeric_char c then after_numeric_run s' else s
  end.

(** [re.match('^[0-9.]+$', s)]: a run of at least one character of the
    class from the start of the text, up to its end or up to a newline
    that ends it, which is where ["$"] matches. *)
Definition re_match_numeric (s : list ascii) : bool :=
  match s with
  | [] => false
  | c :: _ =>
      is_numeric_char c
      && bool_decide (after_numeric_run s = [] ∨ after_numeric_run s = ["010"%char])
  end.

(** [check_numeric], on the text [str(num)]. *)
Definition check_numeric (str_num : string) : result () :=
  if re_match_numeric (list_ascii_of_string str_num) then Ok () else Raise ValueError.

(** * Properties *)

(** ** The result monad *)

Lemma bind_Ok {A B} (a : A) (f : A -> result B) : (Ok a ≫= f) = f a.
Proof. reflexivity. Qed.

(** ** Bytes *)

Lemma Z_of_byte_range b : 0 <= Z_of_byte b < 256.
Proof.
  unfold Z_of_byte. pose proof (Byte.to_N_bounded b). lia.
Qed.

Lemma byte_of_Z_of_byte b : byte_of_Z (Z_of_byte b) = b.
Proof.
  unfold byte_of_Z. rewrite Z.mod_small by apply Z_of_byte_range.
  unfold Z_of_byte. rewrite N2Z.id, Byte.of_to_N. reflexivity.
Qed.

Lemma Z_of_byte_of_Z z : 0 <= z < 256 -> Z_of_byte (byte_of_Z z) = z.
Proof.
  intros Hz. unfold byte_of_Z. rewrite Z.mod_small by lia.
  destruct (Byte.of_N (Z.to_N z)) as [b|] eqn:E.
  - apply Byte.to_of_N in E. unfold Z_of_byte. rewrite E. lia.
  - apply Byte.of_N_None_iff in E. lia.
Qed.


(** ** Base58: positional digits *)

Section Digits.
Variable base : Z.
Hypothesis base_gt_1 : 1 < base.

Lemma divmod_loop_zero fuel : Base58.divmod_loop base fuel 0 = [].
Proof using Type. destruct fuel; reflexivity. Qed.

Lemma divmod_loop_value fuel : forall n,
  0 <= n < base ^ Z.of_nat fuel ->
  Base58.digits_value base (Base58.divmod_loop base fuel n) = n.
Proof using base_gt_1.
  induction fuel as [|f IH]; intros n Hn; simpl.
  - change (base ^ Z.of_nat 0) with 1 in Hn. lia.
  - destruct (decide (0 < n)) as [Hpos|Hnpos]; simpl; [|lia].
    rewrite IH.
    + pose proof (Z.div_mod n base). lia.
    + rewrite Nat2Z.inj_succ, Z.pow_succ_r in Hn by lia.
      split; [apply Z.div_pos; lia|].
      apply Z.div_lt_upper_bound; lia.
Qed.

Lemma divmod_loop_range fuel : forall n,
  Forall (fun d => 0 <= d < base) (Base58.divmod_loop base fuel n).
Proof using base_gt_1.
  induction fuel as [|f IH]; intros n; simpl; [constructor|].
  destruct (decide (0 < n)); constructor; [|apply IH].
  apply Z.mod_pos_bound. lia.
Qed.

Lemma divmod_loop_last fuel : forall n,
  0 <= n < base ^ Z.of_nat fuel ->
  last (Base58.divmod_loop base fuel n) ≠ Some 0.
Proof using base_gt_1.
  induction fuel as [|f IH]; intros n Hn; simpl; [discriminate|].
  destruct (decide (0 < n)) as [Hpos|]; [|discriminate].
  rewrite Nat2Z.inj_succ, Z.pow_succ_r in Hn by lia.
  assert (Hq : 0 <= n / base < base ^ Z.of_nat f).
  { split; [apply Z.div_pos; lia|apply Z.div_lt_upper_bound; lia]. }
  specialize (IH _ Hq).
  destruct (Base58.divmod_loop base f (n / base)) as [|d ds] eqn:E.
  - simpl. intros [= Hm].
    assert (n / base = 0).
    { destruct f; simpl in E.
      - change (base ^ Z.of_nat 0) with 1 in Hq. lia.
      - destruct (decide (0 < n / base)); [discriminate|lia]. }
    pose proof (Z.div_mod n base). lia.
  - exact IH.
Qed.

Lemma digits_value_nonneg ds :
  Forall (fun d => 0 <= d < base) ds -> 0 <= Base58.digits_value base ds.
Proof using base_gt_1.
  induction 1; simpl; [lia|]. nia.
Qed.

Lemma digits_value_bound ds :
  Forall (fun d => 0 <= d < base) ds ->
  Base58.digits_value base ds < base ^ Z.of_nat (length ds).
Proof using base_gt_1.
  induction 1 as [|d ds Hd Hds IH]; simpl length; simpl Base58.digits_value.
  - change (base ^ Z.of_nat 0) with 1. lia.
  - rewrite Nat2Z.inj_succ, Z.pow_succ_r by lia. nia.
Qed.

Lemma digits_value_pos ds :
  Forall (fun d => 0 <= d < base) ds -> ds ≠ [] -> last ds ≠ Some 0 ->
  0 < Base58.digits_value base ds.
Proof using base_gt_1.
  induction 1 as [|d ds Hd Hds IH]; intros Hne Hlast; [done|].
  simpl. destruct ds as [|d' ds'].
  - simpl in *. assert (d ≠ 0) by congruence. lia.
  - assert (0 < Base58.digits_value base (d' :: ds')) by (apply IH; done).
    nia.
Qed.

Lemma divmod_loop_unique ds : forall fuel,
  Forall (fun d => 0 <= d < base) ds -> last ds ≠ Some 0 ->
  Base58.digits_value base ds < base ^ Z.of_nat fuel ->
  Base58.divmod_loop base fuel (Base58.digits_value base ds) = ds.
Proof using base_gt_1.
  induction ds as [|d ds IH]; intros fuel Hr Hlast Hlt.
  - apply divmod_loop_zero.
  - assert (Hpos : 0 < Base58.digits_value base (d :: ds))
      by (apply digits_value_pos; done).
    inversion Hr as [|? ? Hd Hds]; subst.
    pose proof (digits_value_nonneg ds Hds) as Hnn.
    destruct fuel as [|f].
    { change (base ^ Z.of_nat 0) with 1 in Hlt. lia. }
    rewrite Nat2Z.inj_succ, Z.pow_succ_r in Hlt by lia.
    simpl in *. destruct (decide _) as [_|]; [|lia].
    assert (Hm : (d + base * Base58.digits_value base ds) mod base = d).
    { rewrite Z.mul_comm, Z_mod_plus_full. apply Z.mod_small. lia. }
    assert (Hq : (d + base * Base58.digits_value base ds) / base
                 = Base58.digits_value base ds).
    { rewrite Z.mul_comm, Z_div_plus_full by lia.
      rewrite Z.div_small by lia. lia. }
    rewrite Hm, Hq. f_equal. apply IH; [done| |nia].
    destruct ds; [discriminate|exact Hlast].
Qed.

Lemma fold_left_digits ds :
  fold_left (fun n d => n * base + d) (rev ds) 0 = Base58.digits_value base ds.
Proof using Type.
  induction ds as [|d ds IH]; simpl; [reflexivity|].
  rewrite fold_left_app. simpl. rewrite IH. lia.
Qed.

End Digits.

(** ** Base58: the codec round trip *)

Lemma leading_repeat_app {A} `{EqDecision A} (x : A) k l :
  Base58.leading x (repeat x k ++ l) = (k + Base58.leading x l)%nat.
Proof.
  induction k as [|k IH]; simpl; [reflexivity|].
  destruct (decide (x = x)); [|done]. by rewrite IH.
Qed.

Lemma leading_split {A} `{EqDecision A} (x : A) l :
  l = repeat x (Base58.leading x l) ++ drop (Base58.leading x l) l
  ∧ head (drop (Base58.leading x l) l) ≠ Some x.
Proof.
  induction l as [|y l [IH1 IH2]]; simpl; [done|].
  destruct (decide (y = x)) as [->|Hne]; simpl.
  - split; [by f_equal|done].
  - split; [done|congruence].
Qed.

Lemma int_from_bytes_digits b :
  Base58.int_from_bytes b = Base58.digits_value 256 (rev (map Z_of_byte b)).
Proof.
  rewrite <- fold_left_digits, rev_involutive.
  unfold Base58.int_from_bytes. generalize 0.
  induction b as [|c b IH]; intros n; simpl; [reflexivity|apply IH].
Qed.

Lemma int_from_bytes_zeros k r :
  Base58.int_from_bytes (repeat x00 k ++ r) = Base58.int_from_bytes r.
Proof.
  unfold Base58.int_from_bytes. rewrite fold_left_app.
  f_equal. induction k as [|k IH]; simpl; [reflexivity|exact IH].
Qed.

Lemma bytes_digits_range (b : list byte) :
  Forall (fun d => 0 <= d < 256) (map Z_of_byte b).
Proof.
  induction b; constructor; [apply Z_of_byte_range|done].
Qed.

Lemma int_from_bytes_bound b :
  0 <= Base58.int_from_bytes b < 256 ^ Z.of_nat (length b).
Proof.
  rewrite int_from_bytes_digits.
  assert (Hr : Forall (fun d => 0 <= d < 256) (rev (map Z_of_byte b)))
    by (apply Forall_rev, bytes_digits_range).
  split; [apply digits_value_nonneg; [lia|done]|].
  pose proof (digits_value_bound 256 ltac:(lia) _ Hr) as Hb.
  by rewrite length_rev, length_map in Hb.
Qed.

Lemma digit_index_char d :
  0 <= d < 58 -> Base58.digit_index (Base58.digit_char d) = Some d.
Proof.
  intros Hd.
  assert (Hn : d = Z.of_nat (Z.to_nat d)) by lia.
  assert (Hlt : (Z.to_nat d < 58)%nat) by lia.
  revert Hn Hlt. generalize (Z.to_nat d). intros n -> Hlt.
  do 58 (destruct n as [|n]; [reflexivity|]). lia.
Qed.

Lemma digit_char_not_one d :
  0 <= d < 58 -> d ≠ 0 -> Base58.digit_char d ≠ "1"%char.
Proof.
  intros Hd Hne Heq. pose proof (digit_index_char d Hd) as Hi.
  rewrite Heq in Hi. vm_compute in Hi. congruence.
Qed.

Lemma decode_int_digits ds : forall n,
  Forall (fun d => 0 <= d < 58) ds ->
  Base58.decode_int (map Base58.digit_char ds) n
  = Ok (fold_left (fun n d => n * 58 + d) ds n).
Proof.
  induction ds as [|d ds IH]; intros n Hr; simpl; [reflexivity|].
  inversion Hr; subst. rewrite digit_index_char by done. by apply IH.
Qed.

Lemma decode_int_ones k cs :
  Base58.decode_int (repeat "1"%char k ++ cs) 0 = Base58.decode_int cs 0.
Proof. induction k as [|k IH]; simpl; [reflexivity|exact IH]. Qed.

Lemma map_byte_of_Z_of_byte (r : list byte) : map byte_of_Z (map Z_of_byte r) = r.
Proof.
  induction r as [|c r IH]; simpl; [reflexivity|].
  by rewrite byte_of_Z_of_byte, IH.
Qed.

Lemma pow_58_256 (m : nat) : 256 ^ Z.of_nat m <= 58 ^ Z.of_nat (2 * m).
Proof.
  rewrite Nat2Z.inj_mul, Z.pow_mul_r by lia.
  apply Z.pow_le_mono_l. lia.
Qed.

Lemma take_all_but_last_ones k (c : ascii) cs :
  c ≠ "1"%char ->
  Base58.leading "1"%char
    (take (length (repeat "1"%char k ++ c :: cs) - 1) (repeat "1"%char k ++ c :: cs)) = k.
Proof.
  intros Hc.
  replace (length (repeat "1"%char k ++ c :: cs) - 1)%nat
    with (length (repeat "1"%char k) + length cs)%nat
    by (rewrite length_app; simpl; lia).
  rewrite firstn_app_2, leading_repeat_app.
  destruct cs as [|c' cs']; simpl; [lia|].
  destruct (decide (c = "1"%char)); [done|lia].
Qed.

Lemma take_repeat_pred {A} (x : A) k :
  take (length (repeat x (S k)) - 1) (repeat x (S k)) = repeat x k.
Proof.
  rewrite repeat_length. replace (S k - 1)%nat with k by lia.
  induction k as [|j IH]; simpl in *; [reflexivity|by rewrite IH].
Qed.

Lemma repeat_snoc {A} (x : A) k : repeat x k ++ [x] = repeat x (S k).
Proof. induction k; simpl; [reflexivity|by f_equal]. Qed.

Lemma base58_decode_ones k :
  (let cs := list_ascii_of_string (string_of_list_ascii (repeat "1"%char k)) in
   match cs with
   | [] => Ok []
   | _ =>
       n ← Base58.decode_int cs 0;
       let res := Base58.int_to_bytes (length cs) n in
       let pad := Base58.leading "1"%char (take (length cs - 1) cs) in
       Ok (repeat x00 pad ++ res)
   end) = Ok (repeat x00 k).
Proof.
  rewrite list_ascii_of_string_of_list_ascii.
  destruct k as [|k']; [reflexivity|].
  cbv zeta. rewrite take_repeat_pred.
  pose proof (decode_int_ones (S k') []) as Hd. rewrite app_nil_r in Hd.
  change (match repeat "1"%char (S k') with [] => ?a | _ :: _ => ?b end) with b.
  rewrite Hd. simpl mbind.
  pose proof (leading_repeat_app "1"%char k' []) as Hl.
  rewrite app_nil_r in Hl. rewrite Hl. simpl Base58.leading.
  rewrite Nat.add_0_r.
  unfold Base58.int_to_bytes. rewrite divmod_loop_zero. simpl rev.
  cbv iota. by rewrite repeat_snoc.
Qed.

Lemma base58_decode_encode b : Base58.decode (Base58.encode b) = Ok b.
Proof.
  unfold Base58.encode, Base58.decode.
  rewrite list_ascii_of_string_of_list_ascii.
  destruct (leading_split x00 b) as [Hb Hhead].
  set (k := Base58.leading x00 b) in *. set (r := drop k b) in *.
  set (n := Base58.int_from_bytes b).
  assert (Hn : n = Base58.int_from_bytes r).
  { unfold n. rewrite Hb at 1. apply int_from_bytes_zeros. }
  assert (Hnb : 0 <= n < 58 ^ Z.of_nat (2 * length b)).
  { pose proof (int_from_bytes_bound b). pose proof (pow_58_256 (length b)).
    unfold n. lia. }
  set (ds := Base58.divmod_loop 58 (2 * length b) n).
  assert (Hval : Base58.digits_value 58 ds = n)
    by (apply divmod_loop_value; [lia|done]).
  assert (Hrange : Forall (fun d => 0 <= d < 58) ds)
    by (apply divmod_loop_range; lia).
  assert (Hlast : last ds ≠ Some 0)
    by (apply divmod_loop_last; [lia|done]).
  assert (Hdec : Base58.decode_int
            (repeat "1"%char k ++ map Base58.digit_char (rev ds)) 0 = Ok n).
  { rewrite decode_int_ones, decode_int_digits by (by apply Forall_rev).
    by rewrite fold_left_digits, Hval. }
  destruct r as [|h r'] eqn:Er.
  - (* only zero bytes *)
    assert (n = 0) by (rewrite Hn; reflexivity).
    assert (Hds : ds = []).
    { unfold ds. replace n with 0. apply divmod_loop_zero. }
    rewrite Hds in *. simpl rev in *. simpl map in *.
    rewrite app_nil_r in *.
    transitivity (@Ok (list byte) (repeat x00 k)); [|by rewrite <- Hb].
    pose proof (base58_decode_ones k) as Hk.
    rewrite list_ascii_of_string_of_list_ascii in Hk. exact Hk.
  - (* a nonzero byte [h] leads the rest *)
    assert (Hh : h ≠ x00) by (simpl in Hhead; congruence).
    set (bs := rev (map Z_of_byte (h :: r'))).
    assert (Hbr : Forall (fun d => 0 <= d < 256) bs)
      by apply Forall_rev, bytes_digits_range.
    assert (Hbl : last bs ≠ Some 0).
    { unfold bs. simpl. rewrite last_snoc. intros [= Hz].
      apply Hh. rewrite <- (byte_of_Z_of_byte h), Hz. reflexivity. }
    assert (Hnv : n = Base58.digits_value 256 bs)
      by (rewrite Hn; apply int_from_bytes_digits).
    assert (Hnpos : 0 < n).
    { rewrite Hnv. apply digits_value_pos; [lia|done| |done].
      unfold bs. simpl. by destruct (rev (map Z_of_byte r')). }
    destruct (rev ds) as [|d0 rest] eqn:Erev.
    { apply (f_equal (@rev Z)) in Erev. rewrite rev_involutive in Erev.
      simpl in Erev. rewrite Erev in Hval. simpl in Hval. lia. }
    assert (Hd0 : 0 <= d0 < 58 ∧ d0 ≠ 0).
    { assert (Hds : ds = rev rest ++ [d0]).
      { rewrite <- (rev_involutive ds), Erev. reflexivity. }
      split.
      - rewrite Forall_forall in Hrange. apply Hrange. rewrite Hds.
        apply elem_of_app. right. by apply list_elem_of_singleton.
      - rewrite Hds, last_snoc in Hlast. congruence. }
    simpl map in *.
    set (cs := repeat "1"%char k ++ Base58.digit_char d0 :: map Base58.digit_char rest) in *.
    assert (Hcs : cs ≠ []) by (unfold cs; by destruct (repeat "1"%char k)).
    destruct cs as [|c0 cs0] eqn:Ecs; [done|]. rewrite <- Ecs in *.
    rewrite Hdec. simpl mbind. f_equal.
    assert (Hlen : (length ds <= length cs)%nat).
    { rewrite <- (length_rev ds), Erev. unfold cs.
      rewrite length_app. simpl. rewrite length_map. lia. }
    unfold Base58.int_to_bytes.
    assert (Hloop : Base58.divmod_loop 256 (length cs) n = bs).
    { rewrite Hnv. apply divmod_loop_unique; [lia|done|done|].
      rewrite <- Hnv, <- Hval.
      pose proof (digits_value_bound 58 ltac:(lia) ds Hrange).
      assert (58 ^ Z.of_nat (length ds) <= 256 ^ Z.of_nat (length ds))
        by (apply Z.pow_le_mono_l; lia).
      assert (256 ^ Z.of_nat (length ds) <= 256 ^ Z.of_nat (length cs))
        by (apply Z.pow_le_mono_r; lia).
      lia. }
    rewrite Hloop. unfold bs. rewrite rev_involutive. simpl map at 1.
    change (byte_of_Z (Z_of_byte h) :: map byte_of_Z (map Z_of_byte r'))
      with (map byte_of_Z (map Z_of_byte (h :: r'))).
    rewrite map_byte_of_Z_of_byte.
    unfold cs. rewrite take_all_but_last_ones
      by (apply digit_char_not_one; tauto).
    exact (eq_sym Hb).
Qed.

(** ** The stand-in primitives meet the laws *)

Lemma demo_pad_length n x : length (demo_pad n x) = n.
Proof.
  unfold demo_pad. rewrite length_take, length_app, repeat_length. lia.
Qed.

Lemma demo_pad_app n x y : length x = n -> demo_pad n (x ++ y) = x.
Proof.
  intros <-. unfold demo_pad. rewrite <- app_assoc.
  by rewrite take_app_length.
Qed.

Lemma demo_pad_idem n x y : demo_pad n (demo_pad n x ++ y) = demo_pad n x.
Proof. apply demo_pad_app, demo_pad_length. Qed.

Lemma demo_crypto_laws : @CryptoLaws demo_crypto.
Proof.
  split; simpl.
  - intros x. apply demo_pad_length.
  - intros s [] _; simpl; rewrite ?length_app, !demo_pad_length; reflexivity.
  - intros s h _. rewrite length_app, !demo_pad_length. lia.
  - intros s h c _. by rewrite !demo_pad_idem.
Qed.

(** ** Base58Check and WIF *)

Lemma slice_0_app {A} (n : nat) (s t : list A) :
  length s = n -> slice 0 n (s ++ t) = s.
Proof.
  intros <-. unfold slice. rewrite Nat.sub_0_r.
  change (drop 0 (s ++ t)) with (s ++ t). apply take_app_length.
Qed.

(** Decoding what the checksummed encoder wrote gives back version and
    payload. *)
Lemma CBase58Data_new_encode `{Crypto, !CryptoLaws} (v : Z) (payload : list byte) :
  0 <= v <= 255 ->
  CBase58Data_new
    (Base58.encode ((byte_of_Z v :: payload) ++ take 4 (Hash (byte_of_Z v :: payload))))
  = Ok {| b58_data := payload; nVersion := v |}.
Proof.
  intros Hv. unfold CBase58Data_new. rewrite base58_decode_encode, bind_Ok.
  set (body := byte_of_Z v :: payload).
  assert (Hc : length (take 4 (Hash body)) = 4%nat)
    by (rewrite length_take, Hash_length; lia).
  rewrite length_app, Hc.
  destruct (decide _) as [Hlt|_]; [lia|].
  replace (length body + 4 - 4)%nat with (length body) by lia.
  rewrite take_app_length, drop_app_length.
  destruct (decide _) as [_|Hne]; [|done].
  unfold body, CBase58Data_from_bytes.
  rewrite Z_of_byte_of_Z by lia.
  destruct (decide _); [reflexivity|lia].
Qed.

(** The three steps of the round trip, with the payload bytes of the
    two objects. *)
Lemma wif_roundtrip_aux `{Crypto, !CryptoLaws} (p : ChainParams) (s : list byte) (b : bool) :
  length s = 32%nat -> ec_set_secretbytes s = Ok () -> 0 <= SECRET_KEY p <= 255 ->
  exists k w k',
    from_secret_bytes p s b = Ok k ∧
    to_wif p k = Ok w ∧
    CTelestaiSecret_new p w = Ok k' ∧
    sec_key k' = sec_key k ∧
    key_secret (sec_key k') = s ∧
    is_compressed (sec_key k') = b ∧
    b58_data (sec_base k) = s ++ (if b then [x01] else []) ∧
    b58_data (sec_base k') = s ++ (if b then [x01; x01] else []).
Proof.
  intros Hlen Hok Hv.
  set (key := {| key_secret := s; key_compressed := b; pub := ec_get_pubkey s b |}).
  assert (Hcomp : is_compressed key = b).
  { unfold is_compressed, CPubKey_is_compressed. simpl.
    rewrite pubkey_length by done. by destruct b. }
  set (d := s ++ (if b then [x01] else [])).
  set (d' := if b then d ++ [x01] else d).
  exists {| sec_base := {| b58_data := d; nVersion := SECRET_KEY p |}; sec_key := key |},
    (Base58.encode ((byte_of_Z (SECRET_KEY p) :: d')
                    ++ take 4 (Hash (byte_of_Z (SECRET_KEY p) :: d')))),
    {| sec_base := {| b58_data := d'; nVersion := SECRET_KEY p |}; sec_key := key |}.
  assert (Hinit : forall t,
    (t = [] ∧ b = false) ∨ (exists u, t = x01 :: u ∧ b = true) ->
    CTelestaiSecret_init p {| b58_data := s ++ t; nVersion := SECRET_KEY p |}
    = Ok {| sec_base := {| b58_data := s ++ t; nVersion := SECRET_KEY p |};
            sec_key := key |}).
  { intros t Ht. unfold CTelestaiSecret_init. simpl.
    destruct (decide _) as [|_]; [done|].
    rewrite slice_0_app by done.
    assert (Hflag : bool_decide (32 < length (s ++ t))%nat
                    && bool_decide ((s ++ t) !! 32%nat = Some x01) = b).
    { rewrite length_app, Hlen.
      destruct Ht as [[-> ->]|(u & -> & ->)].
      - rewrite bool_decide_eq_false_2 by (simpl; lia). reflexivity.
      - rewrite bool_decide_eq_true_2 by (simpl; lia).
        rewrite bool_decide_eq_true_2; [reflexivity|].
        rewrite lookup_app_r by lia. by rewrite Hlen. }
    rewrite Hflag. unfold CKey_init. rewrite Hok. reflexivity. }
  split; [|split; [|split; [|repeat split; try done; simpl; unfold d', d;
    destruct b; by rewrite <- ?app_assoc, ?app_nil_r]]].
  - unfold from_secret_bytes, CBase58Data_from_bytes.
    destruct (decide _) as [_|]; [|lia]. simpl mbind.
    apply Hinit. destruct b; [right; by eexists|by left].
  - unfold to_wif, bytes_of_int. simpl sec_key. simpl sec_base. simpl b58_data.
    rewrite Hcomp. destruct (decide _) as [_|]; [|lia]. simpl mbind.
    reflexivity.
  - unfold CTelestaiSecret_new. rewrite CBase58Data_new_encode by done.
    simpl mbind. unfold d', d. destruct b.
    + rewrite <- app_assoc. apply Hinit. right. by eexists.
    + apply Hinit. by left.
Qed.

(** C1. For every 32-byte scalar [s] the curve library accepts and every
    compression flag [b], the key made by [from_secret_bytes] has a WIF
    string, and [CTelestaiSecret] of that string is a key with the same
    scalar and the same compression flag (the same [CKey]). *)
Theorem wif_roundtrip `{Crypto, !CryptoLaws} (p : ChainParams) (s : list byte) (b : bool) :
  length s = 32%nat -> ec_set_secretbytes s = Ok () -> 0 <= SECRET_KEY p <= 255 ->
  exists k w k',
    from_secret_bytes p s b = Ok k ∧
    to_wif p k = Ok w ∧
    CTelestaiSecret_new p w = Ok k' ∧
    sec_key k' = sec_key k ∧
    key_secret (sec_key k') = s ∧
    is_compressed (sec_key k') = b.
Proof.
  intros Hlen Hok Hv.
  destruct (wif_roundtrip_aux p s b Hlen Hok Hv)
    as (k & w & k' & H1 & H2 & H3 & H4 & H5 & H6 & _).
  exists k, w, k'. tauto.
Qed.

(** The stand-in primitives, the main network, the scalar of 32 bytes
    [0x11] and a compressed key. *)
Lemma wif_roundtrip_witness :
  exists k w k',
    @from_secret_bytes demo_crypto MainParams (repeat x11 32) true = Ok k ∧
    @to_wif demo_crypto MainParams k = Ok w ∧
    @CTelestaiSecret_new demo_crypto MainParams w = Ok k' ∧
    sec_key k' = sec_key k ∧
    key_secret (sec_key k') = repeat x11 32 ∧
    @is_compressed (sec_key k') = true.
Proof.
  apply (@wif_roundtrip demo_crypto demo_crypto_laws MainParams (repeat x11 32) true).
  - reflexivity.
  - reflexivity.
  - simpl. lia.
Defined.

(** What the round trip does not keep: the re-read object of a compressed
    key carries the compression byte twice, since [to_wif] appends it to a
    payload that already ends with it. *)
Lemma wif_roundtrip_payload `{Crypto, !CryptoLaws} (p : ChainParams) (s : list byte) :
  length s = 32%nat -> ec_set_secretbytes s = Ok () -> 0 <= SECRET_KEY p <= 255 ->
  exists k w k',
    from_secret_bytes p s true = Ok k ∧ to_wif p k = Ok w ∧
    CTelestaiSecret_new p w = Ok k' ∧
    b58_data (sec_base k) = s ++ [x01] ∧
    b58_data (sec_base k') = s ++ [x01; x01].
Proof.
  intros Hlen Hok Hv.
  destruct (wif_roundtrip_aux p s true Hlen Hok Hv)
    as (k & w & k' & H1 & H2 & H3 & _ & _ & _ & H7 & H8).
  exists k, w, k'. tauto.
Qed.

(** ** Selecting the chain parameters *)

Lemma SelectParams_known g :
  SelectParams "mainnet" g = (Ok (), set_both MainParams) ∧
  SelectParams "testnet" g = (Ok (), set_both TestNetParams) ∧
  SelectParams "regtest" g = (Ok (), set_both RegTestParams).
Proof. repeat split. Qed.

Lemma SelectParams_unknown name g :
  name ∉ known_networks -> SelectParams name g = (Raise ValueError, g).
Proof.
  intros Hn. unfold SelectParams, SelectParams_over, _SelectCoreParams.
  repeat (destruct (decide _) as [->|?];
          [exfalso; apply Hn; unfold known_networks; set_solver|]).
  reflexivity.
Qed.

(** Whatever the core-level selector does, as long as it leaves
    [params] alone: an unknown name makes the call fail with [params] as
    it was, and a known name the selector accepts installs the network's
    parameters. *)
Lemma SelectParams_over_any (core : string -> globals -> result () * globals)
    (name : string) (g : globals) :
  (forall n g0, params (core n g0).2 = params g0) ->
  (name ∉ known_networks ->
     is_Ok (SelectParams_over core name g).1 = false ∧
     params (SelectParams_over core name g).2 = params g) ∧
  (forall n p, (n, p) ∈ [("mainnet"%string, MainParams);
                         ("testnet"%string, TestNetParams);
                         ("regtest"%string, RegTestParams)] ->
     name = n -> is_Ok (core n g).1 = true ->
     SelectParams_over core name g = (Ok (), set_both p)).
Proof.
  intros Hcore. split.
  - intros Hn. unfold SelectParams_over.
    specialize (Hcore name g).
    destruct (core name g) as [[[]|e] g1]; simpl in *; [|done].
    repeat (destruct (decide _) as [->|?];
            [exfalso; apply Hn; unfold known_networks; set_solver|]).
    done.
  - intros n p Hin -> Hok. unfold SelectParams_over.
    destruct (core n g) as [[[]|e] g1]; simpl in Hok; [|done].
    repeat (apply elem_of_cons in Hin as [[= -> ->]|Hin]; [reflexivity|]).
    by apply elem_of_nil in Hin.
Qed.

(** C9. [SelectParams] raises [ValueError] for every name other than
    "mainnet", "testnet" and "regtest", and then leaves the globals as they
    were; for each of the three names it succeeds and the active
    parameters are those of that network. *)
Theorem SelectParams_spec (name : string) (g : globals) :
  (name ∉ known_networks ->
     (SelectParams name g).1 = Raise ValueError ∧ (SelectParams name g).2 = g) ∧
  (name = "mainnet"%string ->
     (SelectParams name g).1 = Ok () ∧ params (SelectParams name g).2 = MainParams) ∧
  (name = "testnet"%string ->
     (SelectParams name g).1 = Ok () ∧ params (SelectParams name g).2 = TestNetParams) ∧
  (name = "regtest"%string ->
     (SelectParams name g).1 = Ok () ∧ params (SelectParams name g).2 = RegTestParams).
Proof.
  split; [intros Hn; by rewrite SelectParams_unknown|].
  split; [by intros ->|]. split; [by intros ->|]. by intros ->.
Qed.

(** An unknown name after the test network was selected, and the main
    network selected from there. *)
Lemma SelectParams_spec_witness :
  ((SelectParams "main" (set_both TestNetParams)).1 = Raise ValueError ∧
   (SelectParams "main" (set_both TestNetParams)).2 = set_both TestNetParams) ∧
  ((SelectParams "mainnet" (set_both TestNetParams)).1 = Ok () ∧
   params (SelectParams "mainnet" (set_both TestNetParams)).2 = MainParams).
Proof.
  split.
  - apply (SelectParams_spec "main" (set_both TestNetParams)).
    unfold known_networks. intros Hin.
    repeat (apply elem_of_cons in Hin as [Hin|Hin]; [discriminate|]).
    by apply elem_of_nil in Hin.
  - apply (SelectParams_spec "mainnet" (set_both TestNetParams)). reflexivity.
Defined.

(** ** Base64 *)

Lemma list_ind3 {A} (P : list A -> Prop) :
  P [] -> (forall x, P [x]) -> (forall x y, P [x; y]) ->
  (forall x y z l, P l -> P (x :: y :: z :: l)) ->
  forall l, P l.
Proof.
  intros H0 H1 H2 H3 l.
  cut (P l ∧ (forall x, P (x :: l)) ∧ (forall x y, P (x :: y :: l))); [tauto|].
  induction l as [|a l (IH0 & IH1 & IH2)]; [done|].
  repeat split; [apply IH1|intros; apply IH2|intros; by apply H3].
Qed.

Lemma base64_table_index d :
  0 <= d < 64 -> Base64.table d ≠ Base64.PAD ∧ Base64.index (Base64.table d) = Some d.
Proof.
  intros Hd.
  assert (Hn : d = Z.of_nat (Z.to_nat d)) by lia.
  assert (Hlt : (Z.to_nat d < 64)%nat) by lia.
  revert Hn Hlt. generalize (Z.to_nat d). intros n -> Hlt.
  do 64 (destruct n as [|n]; [by split|]). lia.
Qed.

(** One symbol of the alphabet read by the decoder loop. *)
Lemma a2b_loop_symbol d s q l pads out :
  0 <= d < 64 ->
  Base64.a2b_loop (Base64.table d :: s) q l pads out =
  match q with
  | 0%nat => Base64.a2b_loop s 1 d 0 out
  | 1%nat => Base64.a2b_loop s 2 (d mod 16) 0 (out ++ [byte_of_Z (l * 4 + d / 16)])
  | 2%nat => Base64.a2b_loop s 3 (d mod 4) 0 (out ++ [byte_of_Z (l * 16 + d / 4)])
  | _ => Base64.a2b_loop s 0 0 0 (out ++ [byte_of_Z (l * 64 + d)])
  end.
Proof.
  intros Hd. destruct (base64_table_index d Hd) as [Hp Hi].
  simpl. destruct (decide _) as [|_]; [done|]. by rewrite Hi.
Qed.

Lemma b64_quad_1 x y : 0 <= x < 256 -> 0 <= y < 256 ->
  x / 4 * 4 + (x mod 4 * 16 + y / 16) / 16 = x.
Proof. intros. Z.div_mod_to_equations. lia. Qed.

Lemma b64_quad_2 x y z : 0 <= y < 256 -> 0 <= z < 256 ->
  (x mod 4 * 16 + y / 16) mod 16 * 16 + (y mod 16 * 4 + z / 64) / 4 = y.
Proof. intros. Z.div_mod_to_equations. lia. Qed.

Lemma b64_quad_3 y z : 0 <= z < 256 ->
  (y mod 16 * 4 + z / 64) mod 4 * 64 + z mod 64 = z.
Proof. intros. Z.div_mod_to_equations. lia. Qed.

Lemma b64_digit_bounds x y :
  0 <= x < 256 -> 0 <= y < 256 ->
  0 <= x / 4 < 64 ∧ 0 <= x mod 4 * 16 + y / 16 < 64 ∧
  0 <= x mod 16 * 4 + y / 64 < 64 ∧ 0 <= x mod 64 < 64.
Proof. intros. Z.div_mod_to_equations. lia. Qed.

Lemma a2b_loop_encode b : forall out,
  Base64.a2b_loop (Base64.b64encode_chars b) 0 0 0 out = Ok (out ++ b).
Proof.
  induction b as [|x|x y|x y z l IH] using list_ind3; intros out.
  - simpl. by rewrite app_nil_r.
  - pose proof (Z_of_byte_range x) as Hx.
    destruct (b64_digit_bounds _ _ Hx Hx) as (H1 & H2 & _).
    destruct (b64_digit_bounds (Z_of_byte x) 0 Hx ltac:(lia)) as (_ & H2' & _).
    change (0 / 16) with 0 in H2'. rewrite Z.add_0_r in H2'.
    cbn [Base64.b64encode_chars].
    rewrite !a2b_loop_symbol by done.
    pose proof (b64_quad_1 (Z_of_byte x) 0 Hx ltac:(lia)) as Hq.
    change (0 / 16) with 0 in Hq. rewrite Z.add_0_r in Hq.
    rewrite Hq, byte_of_Z_of_byte. reflexivity.
  - pose proof (Z_of_byte_range x) as Hx. pose proof (Z_of_byte_range y) as Hy.
    destruct (b64_digit_bounds _ _ Hx Hy) as (H1 & H2 & _).
    destruct (b64_digit_bounds (Z_of_byte y) 0 Hy ltac:(lia)) as (_ & _ & H3 & _).
    change (0 / 64) with 0 in H3. rewrite Z.add_0_r in H3.
    cbn [Base64.b64encode_chars].
    rewrite !a2b_loop_symbol by done.
    rewrite b64_quad_1 by done.
    pose proof (b64_quad_2 (Z_of_byte x) (Z_of_byte y) 0 Hy ltac:(lia)) as Hq.
    change (0 / 64) with 0 in Hq. rewrite Z.add_0_r in Hq.
    rewrite Hq, !byte_of_Z_of_byte, <- app_assoc. reflexivity.
  - pose proof (Z_of_byte_range x) as Hx. pose proof (Z_of_byte_range y) as Hy.
    pose proof (Z_of_byte_range z) as Hz.
    destruct (b64_digit_bounds _ _ Hx Hy) as (H1 & H2 & _).
    destruct (b64_digit_bounds _ _ Hy Hz) as (_ & _ & H3 & _).
    destruct (b64_digit_bounds _ _ Hz Hz) as (_ & _ & _ & H4).
    cbn [Base64.b64encode_chars app].
    rewrite !a2b_loop_symbol by done.
    rewrite b64_quad_1, b64_quad_2, b64_quad_3 by done.
    rewrite !byte_of_Z_of_byte, IH, <- !app_assoc. reflexivity.
Qed.

Lemma base64_table_ascii d :
  bool_decide (Z.of_N (N_of_ascii (Base64.table d)) < 128) = true.
Proof.
  unfold Base64.table. generalize (Z.to_nat d). intros n.
  do 64 (destruct n as [|n]; [reflexivity|]). reflexivity.
Qed.

(** What the encoder writes is ASCII. *)
Lemma b64encode_chars_ascii b :
  forallb (fun c => bool_decide (Z.of_N (N_of_ascii c) < 128)) (Base64.b64encode_chars b)
  = true.
Proof.
  induction b as [|x|x y|x y z l IH] using list_ind3;
    cbn [Base64.b64encode_chars app forallb];
    rewrite ?base64_table_ascii, ?IH; reflexivity.
Qed.

Lemma b64decode_b64encode b : Base64.b64decode (Base64.b64encode b) = Ok b.
Proof.
  unfold Base64.b64decode, Base64.b64encode.
  rewrite list_ascii_of_string_of_list_ascii, b64encode_chars_ascii.
  apply a2b_loop_encode.
Qed.

(** ** Signing and verifying messages *)

(** The value of [SignMessage] in terms of what [sign_compact] gave. *)
Lemma SignMessage_value `{Crypto} (key : CKey) (msg : TelestaiMessage)
    (sig : list byte) (i : Z) :
  CKey_sign_compact key (GetHash msg) = (sig, i) ->
  SignMessage key msg =
    (m ← bytes_of_int (if is_compressed key then 27 + i + 4 else 27 + i);
     Ok (Base64.b64encode (m ++ sig))).
Proof. intros Hs. unfold SignMessage. rewrite Hs. reflexivity. Qed.

Lemma SignMessage_header `{Crypto} (key : CKey) (msg : TelestaiMessage)
    (sig : list byte) (i : Z) :
  CKey_sign_compact key (GetHash msg) = (sig, i) -> 0 <= i <= 3 ->
  SignMessage key msg =
    Ok (Base64.b64encode
          (byte_of_Z (27 + i + (if is_compressed key then 4 else 0)) :: sig)).
Proof.
  intros Hs Hi. rewrite (SignMessage_value key msg sig i Hs). unfold bytes_of_int.
  destruct (is_compressed key).
  - destruct (decide _) as [_|]; [|lia]. reflexivity.
  - destruct (decide _) as [_|]; [|lia]. rewrite Z.add_0_r. reflexivity.
Qed.

(** C7. With [(sig, i)] the result of [sign_compact] on the message
    digest and [i] a recovery id, [SignMessage] returns the base-64
    encoding of the byte [27 + i], plus 4 exactly when the key is
    compressed, followed by the bytes of [sig]. *)
Theorem SignMessage_spec `{Crypto} (key : CKey) (msg : TelestaiMessage)
    (sig : list byte) (i : Z) :
  CKey_sign_compact key (GetHash msg) = (sig, i) -> 0 <= i <= 3 ->
  SignMessage key msg =
    Ok (Base64.b64encode
          (byte_of_Z (27 + i + (if is_compressed key then 4 else 0)) :: sig)).
Proof. apply SignMessage_header. Qed.

Lemma SignMessage_spec_witness :
  @SignMessage demo_crypto (demo_key true) demo_message =
    Ok (Base64.b64encode
          (byte_of_Z (27 + 0 + 4)
             :: demo_pad 32 demo_secret ++ demo_pad 32 (@GetHash demo_crypto demo_message))).
Proof.
  apply (@SignMessage_spec demo_crypto (demo_key true) demo_message
           (demo_pad 32 demo_secret ++ demo_pad 32 (@GetHash demo_crypto demo_message)) 0).
  - reflexivity.
  - lia.
Defined.

(** A recovery id that makes the header leave the byte range is an error
    of [bytes([meta])]. *)
Lemma SignMessage_header_range `{Crypto} (key : CKey) (msg : TelestaiMessage) :
  let i := (CKey_sign_compact key (GetHash msg)).2 in
  ¬ (0 <= 27 + i + (if is_compressed key then 4 else 0) < 256) ->
  SignMessage key msg = Raise ValueError.
Proof.
  intros i Hi. unfold SignMessage, bytes_of_int.
  destruct (CKey_sign_compact key (GetHash msg)) as [sig j] eqn:E.
  subst i. simpl in Hi.
  destruct (is_compressed key); destruct (decide _) as [Hd|_]; try reflexivity;
    exfalso; apply Hi; lia.
Qed.

Lemma CKey_init_Ok `{Crypto} s c key :
  CKey_init s c = Ok key ->
  ec_set_secretbytes s = Ok () ∧
  key = {| key_secret := s; key_compressed := c; pub := ec_get_pubkey s c |}.
Proof.
  unfold CKey_init. destruct (ec_set_secretbytes s) as [[]|e]; simpl; [|done].
  intros [= <-]. done.
Qed.

Lemma is_compressed_CKey_init `{Crypto, !CryptoLaws} s c key :
  CKey_init s c = Ok key -> is_compressed key = c.
Proof.
  intros Hk. apply CKey_init_Ok in Hk as [Hok ->].
  unfold is_compressed, CPubKey_is_compressed. simpl.
  rewrite pubkey_length by done. by destruct c.
Qed.

(** What [recover_compact] reads off the header byte [SignMessage] wrote. *)
Lemma recover_compact_header `{Crypto} (hash sig : list byte) (i : Z) (c : bool) :
  0 <= i <= 3 ->
  CPubKey_recover_compact hash
    (byte_of_Z (27 + i + (if c then 4 else 0)) :: sig)
  = match ec_recover hash sig i c with
    | Some pubkey => Ok pubkey
    | None => Raise RecoveryFailed
    end.
Proof.
  intros Hi. unfold CPubKey_recover_compact.
  rewrite Z_of_byte_of_Z by (destruct c; lia).
  destruct (decide _) as [_|Hn]; [|destruct c; lia].
  assert (Hr : Z.land (27 + i + (if c then 4 else 0) - 27) 3 = i).
  { assert (Hc : i = 0 ∨ i = 1 ∨ i = 2 ∨ i = 3) by lia.
    destruct c; destruct Hc as [->|[->|[->| ->]]]; reflexivity. }
  assert (Hb : bool_decide (31 <= 27 + i + (if c then 4 else 0)) = c).
  { destruct c; [apply bool_decide_eq_true_2|apply bool_decide_eq_false_2]; lia. }
  by rewrite Hr, Hb.
Qed.

(** C2. For a key the curve library accepts and any message, the
    signature [SignMessage] returns verifies against the P2PKH address of
    the key's public key: [VerifyMessage] returns [True]. *)
Theorem sign_then_verify `{Crypto, !CryptoLaws} (p : ChainParams) (s : list byte)
    (c : bool) (key : CKey) (msg : TelestaiMessage) (addr : address) :
  CKey_init s c = Ok key ->
  P2PKH_from_pubkey p (pub key) false = Ok addr ->
  exists sig,
    SignMessage key msg = Ok sig ∧
    VerifyMessage p (AddrObj addr) msg sig = Ok true.
Proof.
  intros Hk Ha.
  pose proof (is_compressed_CKey_init _ _ _ Hk) as Hc.
  apply CKey_init_Ok in Hk as [Hok ->].
  destruct (ec_sign_compact s (GetHash msg)) as [sig i] eqn:Es.
  pose proof (sign_compact_shape s (GetHash msg) Hok) as [_ Hi].
  pose proof (recover_sign_compact s (GetHash msg) c Hok) as Hr.
  rewrite Es in Hi, Hr. simpl in Hi, Hr.
  eexists. split.
  - apply SignMessage_header; [exact Es|exact Hi].
  - unfold VerifyMessage. rewrite b64decode_b64encode, bind_Ok, Hc.
    rewrite recover_compact_header by done.
    rewrite Hr, bind_Ok. simpl in Ha. rewrite Ha, bind_Ok.
    simpl. by rewrite bool_decide_eq_true_2.
Qed.

Lemma sign_then_verify_witness :
  exists sig,
    @SignMessage demo_crypto (demo_key true) demo_message = Ok sig ∧
    @VerifyMessage demo_crypto MainParams
      (AddrObj (Base58Address P2PKHTelestaiAddress
         {| b58_data := demo_pad 20 (x02 :: demo_secret); nVersion := 66 |}))
      demo_message sig = Ok true.
Proof.
  apply (@sign_then_verify demo_crypto demo_crypto_laws MainParams demo_secret true).
  - reflexivity.
  - reflexivity.
Defined.

(** ** Failures inside [VerifyMessage] *)

(** [VerifyMessage] has no handler: the first of its three fallible steps
    that raises decides the outcome. *)
Lemma VerifyMessage_steps `{Crypto} (p : ChainParams) (address : address_arg)
    (msg : TelestaiMessage) (sig : string) :
  VerifyMessage p address msg sig =
  match Base64.b64decode sig with
  | Raise e => Raise e
  | Ok raw =>
      match CPubKey_recover_compact (GetHash msg) raw with
      | Raise e => Raise e
      | Ok pubkey =>
          match P2PKH_from_pubkey p pubkey false with
          | Raise e => Raise e
          | Ok a => Ok (bool_decide (address_str p a = py_str p address))
          end
      end
  end.
Proof.
  unfold VerifyMessage.
  destruct (Base64.b64decode sig) as [raw|e]; [|reflexivity].
  rewrite bind_Ok.
  destruct (CPubKey_recover_compact (GetHash msg) raw) as [pk|e]; [|reflexivity].
  rewrite bind_Ok.
  destruct (P2PKH_from_pubkey p pk false) as [a|e]; reflexivity.
Qed.

(** C4, as the code has it.  When base-64 decoding, public-key recovery or
    address derivation raises, [VerifyMessage] raises the same exception;
    it returns a boolean only when all three succeed, and then the
    boolean tells whether the two address strings are equal. *)
Theorem VerifyMessage_propagates `{Crypto} (p : ChainParams) (address : address_arg)
    (msg : TelestaiMessage) (sig : string) :
  (forall e, Base64.b64decode sig = Raise e ->
     VerifyMessage p address msg sig = Raise e) ∧
  (forall raw e, Base64.b64decode sig = Ok raw ->
     CPubKey_recover_compact (GetHash msg) raw = Raise e ->
     VerifyMessage p address msg sig = Raise e) ∧
  (forall raw pubkey e, Base64.b64decode sig = Ok raw ->
     CPubKey_recover_compact (GetHash msg) raw = Ok pubkey ->
     P2PKH_from_pubkey p pubkey false = Raise e ->
     VerifyMessage p address msg sig = Raise e) ∧
  (forall b, VerifyMessage p address msg sig = Ok b ->
     exists raw pubkey a,
       Base64.b64decode sig = Ok raw ∧
       CPubKey_recover_compact (GetHash msg) raw = Ok pubkey ∧
       P2PKH_from_pubkey p pubkey false = Ok a ∧
       b = bool_decide (address_str p a = py_str p address)).
Proof.
  rewrite VerifyMessage_steps. repeat split.
  - by intros e ->.
  - by intros raw e -> ->.
  - by intros raw pk e -> -> ->.
  - intros b.
    destruct (Base64.b64decode sig) as [raw|]; [|done].
    destruct (CPubKey_recover_compact (GetHash msg) raw) as [pk|] eqn:Er; [|done].
    destruct (P2PKH_from_pubkey p pk false) as [a|] eqn:Ea; [|done].
    intros [= <-]. by exists raw, pk, a.
Qed.

(** The signature ["A"], one symbol of base 64, cannot be decoded: the
    call raises, and the signature [""] decodes to no bytes, on which
    recovery raises. *)
Lemma VerifyMessage_propagates_witness :
  @VerifyMessage demo_crypto MainParams
    (AddrStr "RL5dKQv7ZZYrqSYXNVgy2HvncjcQf8G6at") demo_message "A"
    = Raise binascii_Error ∧
  @VerifyMessage demo_crypto MainParams
    (AddrStr "RL5dKQv7ZZYrqSYXNVgy2HvncjcQf8G6at") demo_message ""
    = Raise IndexError.
Proof.
  split.
  - apply (@VerifyMessage_propagates demo_crypto MainParams
             (AddrStr "RL5dKQv7ZZYrqSYXNVgy2HvncjcQf8G6at") demo_message "A").
    reflexivity.
  - apply (proj1 (proj2 (@VerifyMessage_propagates demo_crypto MainParams
             (AddrStr "RL5dKQv7ZZYrqSYXNVgy2HvncjcQf8G6at") demo_message "")) []).
    + reflexivity.
    + reflexivity.
Defined.

(** C4 as stated fails: on a signature that is not base 64 the call does
    not return [False], it raises [binascii.Error]. *)
Lemma VerifyMessage_raises :
  @VerifyMessage demo_crypto MainParams
    (AddrStr "RL5dKQv7ZZYrqSYXNVgy2HvncjcQf8G6at") demo_message "A"
    = Raise binascii_Error ∧
  @VerifyMessage demo_crypto MainParams
    (AddrStr "RL5dKQv7ZZYrqSYXNVgy2HvncjcQf8G6at") demo_message "A"
    ≠ Ok false.
Proof. split; [reflexivity|discriminate]. Qed.

(** ** Scripts *)

Lemma read_elem_op op rest :
  Z_of_byte Script.OP_PUSHDATA4 < Z_of_byte op ->
  Script.read_elem op rest = Ok (Script.EOp op, rest).
Proof.
  intros Ho. unfold Script.read_elem.
  destruct (decide _) as [_|]; [reflexivity|lia].
Qed.

Lemma read_elem_zero rest :
  Script.read_elem x00 rest = Ok (Script.EOp x00, rest).
Proof. unfold Script.read_elem. simpl. by rewrite drop_0. Qed.

(** A direct push of [n] bytes, [0 < n < 0x4c]. *)
Lemma read_elem_push (n : Z) d rest :
  Z.of_nat (length d) = n -> 0 < n < 0x4c ->
  Script.read_elem (byte_of_Z n) (d ++ rest) = Ok (Script.EData d, rest).
Proof.
  intros Hd Hn. unfold Script.read_elem.
  rewrite Z_of_byte_of_Z by lia.
  change (Z_of_byte Script.OP_PUSHDATA4) with 78.
  change (Z_of_byte Script.OP_PUSHDATA1) with 76.
  destruct (decide (78 < n)); [lia|].
  destruct (decide (n < 76)); [|lia]. rewrite bind_Ok.
  assert (Hl : Z.to_nat n = length d) by lia. rewrite Hl.
  rewrite take_app_length, drop_app_length.
  destruct (decide (length d < length d)%nat); [lia|].
  destruct (decide (n = 0)); [lia|]. reflexivity.
Qed.

Lemma encode_op_pushdata_short d :
  Z.of_nat (length d) < 0x4c ->
  Script.encode_op_pushdata d = Ok (byte_of_Z (Z.of_nat (length d)) :: d).
Proof.
  intros Hd. unfold Script.encode_op_pushdata.
  destruct (decide _); [reflexivity|lia].
Qed.

Lemma iter_cons f op rest e rest' :
  Script.read_elem op rest = Ok (e, rest') ->
  Script.iter (S f) (op :: rest) = (es ← Script.iter f rest'; Ok (e :: es)).
Proof. intros Hr. simpl. by rewrite Hr. Qed.

Lemma canonicalize_p2pkh_script h :
  length h = 20%nat -> Script.canonicalize (p2pkh_script h) = Ok (p2pkh_script h).
Proof.
  intros Hh. unfold Script.canonicalize, p2pkh_script.
  simpl length. rewrite length_app, Hh. simpl Nat.add.
  rewrite (iter_cons _ _ _ _ _ (read_elem_op x76 _ ltac:(by compute))), 
          (iter_cons _ _ _ _ _ (read_elem_op xa9 _ ltac:(by compute))).
  change x14 with (byte_of_Z 20).
  rewrite (iter_cons _ _ _ _ _ (read_elem_push 20 h _ ltac:(lia) ltac:(lia))).
  simpl Script.iter. rewrite !bind_Ok.
  simpl. rewrite encode_op_pushdata_short by (rewrite Hh; lia).
  rewrite Hh. reflexivity.
Qed.


(** ** Addresses *)

Lemma params_ok_source :
  params_ok MainParams ∧ params_ok TestNetParams ∧ params_ok RegTestParams.
Proof. unfold params_ok. simpl. repeat split; lia. Qed.

Section AddressFacts.
Context `{Crypto}.
Variable p : ChainParams.
Hypothesis Hp : params_ok p.

Lemma P2SH_from_bytes_Some h :
  P2SH_from_bytes p h (Some (SCRIPT_ADDR p)) = Ok (P2SH_address p h).
Proof using Hp.
  destruct Hp as (Hs & _ & _).
  unfold P2SH_from_bytes, CBase58TelestaiAddress_from_bytes, CBase58Data_from_bytes.
  destruct (decide (SCRIPT_ADDR p ≠ SCRIPT_ADDR p)); [done|].
  destruct (decide (0 <= SCRIPT_ADDR p <= 255)); [|lia]. rewrite bind_Ok.
  destruct (decide (SCRIPT_ADDR p = SCRIPT_ADDR p)); done.
Qed.

Lemma CBase58_from_bytes_pubkey h :
  CBase58TelestaiAddress_from_bytes p h (PUBKEY_ADDR p) = Ok (P2PKH_address p h).
Proof using Hp.
  destruct Hp as (_ & Hk & Hne).
  unfold CBase58TelestaiAddress_from_bytes, CBase58Data_from_bytes.
  destruct (decide (0 <= PUBKEY_ADDR p <= 255)); [|lia]. rewrite bind_Ok.
  destruct (decide (PUBKEY_ADDR p = SCRIPT_ADDR p)); [done|].
  destruct (decide (PUBKEY_ADDR p = PUBKEY_ADDR p)); done.
Qed.

Lemma CBase58_from_bytes_script h :
  CBase58TelestaiAddress_from_bytes p h (SCRIPT_ADDR p) = Ok (P2SH_address p h).
Proof using Hp.
  destruct Hp as (Hs & _ & _).
  unfold CBase58TelestaiAddress_from_bytes, CBase58Data_from_bytes.
  destruct (decide (0 <= SCRIPT_ADDR p <= 255)); [|lia]. rewrite bind_Ok.
  destruct (decide (SCRIPT_ADDR p = SCRIPT_ADDR p)); done.
Qed.

Lemma P2PKH_from_bytes_Some h :
  P2PKH_from_bytes p h (Some (PUBKEY_ADDR p)) = Ok (P2PKH_address p h).
Proof using Hp.
  unfold P2PKH_from_bytes.
  destruct (decide (PUBKEY_ADDR p ≠ PUBKEY_ADDR p)); [done|].
  apply CBase58_from_bytes_pubkey.
Qed.

Lemma P2PKH_from_pubkey_invalid_ok pk :
  P2PKH_from_pubkey p pk true = Ok (P2PKH_address p (Hash160 pk)).
Proof using Hp.
  unfold P2PKH_from_pubkey. simpl. apply CBase58_from_bytes_pubkey.
Qed.

Lemma P2SH_from_scriptPubKey_eq s :
  P2SH_from_scriptPubKey p s =
  if Script.is_p2sh s then Ok (P2SH_address p (slice 2 22 s))
  else Raise CTelestaiAddressError.
Proof using Hp.
  unfold P2SH_from_scriptPubKey. destruct (Script.is_p2sh s); [|reflexivity].
  apply P2SH_from_bytes_Some.
Qed.

Lemma to_scriptPubKey_P2SH h :
  length h = 20%nat -> to_scriptPubKey p (P2SH_address p h) = Ok (p2sh_script h).
Proof using Type.
  intros Hh. unfold to_scriptPubKey, P2SH_address. simpl nVersion.
  destruct (decide _); [|done]. simpl.
  rewrite encode_op_pushdata_short by (rewrite Hh; lia).
  rewrite Hh. reflexivity.
Qed.

Lemma to_scriptPubKey_P2PKH h :
  length h = 20%nat -> to_scriptPubKey p (P2PKH_address p h) = Ok (p2pkh_script h).
Proof using Type.
  intros Hh. unfold to_scriptPubKey, P2PKH_address. simpl nVersion.
  destruct (decide _); [|done]. simpl.
  rewrite encode_op_pushdata_short by (rewrite Hh; lia).
  rewrite Hh. reflexivity.
Qed.

Lemma is_p2sh_p2sh_script h :
  length h = 20%nat ->
  Script.is_p2sh (p2sh_script h) = true ∧ slice 2 22 (p2sh_script h) = h.
Proof using Type.
  intros Hh. unfold Script.is_p2sh, p2sh_script, slice. split.
  - rewrite !andb_true_iff, !bool_decide_eq_true. repeat split.
    + simpl. rewrite length_app, Hh. reflexivity.
    + change 22%nat with (2 + 20)%nat. simpl.
      rewrite lookup_app_r by lia. by rewrite Hh.
  - simpl. rewrite <- Hh. apply take_app_length.
Qed.

Lemma p2pkh_script_shape h :
  length h = 20%nat ->
  length (p2pkh_script h) = 25%nat ∧
  p2pkh_script h !! 23%nat = Some x88 ∧
  p2pkh_script h !! 24%nat = Some xac ∧
  slice 3 23 (p2pkh_script h) = h.
Proof using Type.
  intros Hh. unfold p2pkh_script, slice. repeat split.
  - simpl. rewrite length_app, Hh. reflexivity.
  - change 23%nat with (3 + 20)%nat. simpl.
    rewrite lookup_app_r by lia. by rewrite Hh.
  - change 24%nat with (3 + 21)%nat. simpl.
    rewrite lookup_app_r by lia. by rewrite Hh.
  - simpl. rewrite <- Hh. apply take_app_length.
Qed.

Lemma from_scriptPubKey_p2sh_script h :
  length h = 20%nat ->
  CTelestaiAddress_from_scriptPubKey p (p2sh_script h) = Ok (P2SH_address p h).
Proof using Hp.
  intros Hh. destruct (is_p2sh_p2sh_script h Hh) as [Hi Hs].
  unfold CTelestaiAddress_from_scriptPubKey, CBase58TelestaiAddress_from_scriptPubKey.
  rewrite P2SH_from_scriptPubKey_eq, Hi, Hs. reflexivity.
Qed.

Lemma from_scriptPubKey_p2pkh_script h :
  length h = 20%nat ->
  CTelestaiAddress_from_scriptPubKey p (p2pkh_script h) = Ok (P2PKH_address p h).
Proof using Hp.
  intros Hh. destruct (p2pkh_script_shape h Hh) as (Hl & H23 & H24 & Hs).
  unfold CTelestaiAddress_from_scriptPubKey, CBase58TelestaiAddress_from_scriptPubKey.
  rewrite P2SH_from_scriptPubKey_eq.
  assert (Hn : Script.is_p2sh (p2pkh_script h) = false).
  { unfold Script.is_p2sh. rewrite Hl. reflexivity. }
  rewrite Hn. simpl try_except at 2.
  unfold P2PKH_from_scriptPubKey.
  rewrite canonicalize_p2pkh_script by done. simpl try_except at 3. rewrite bind_Ok.
  unfold Script.is_witness_v0_keyhash, Script.is_witness_v0_nested_keyhash.
  rewrite Hl, H23, H24, Hs. simpl.
  pose proof (P2PKH_from_bytes_Some h) as Hb. unfold P2PKH_from_bytes in Hb.
  rewrite Hb. reflexivity.
Qed.

End AddressFacts.

(** C6. For a 20-byte hash [h] and each of the two base-58 classes, the
    address made by [from_bytes] with the class's version byte has a
    scriptPubKey, and [from_scriptPubKey] of that script is the same
    address: same class, same hash. *)
Theorem base58_script_roundtrip `{Crypto} (p : ChainParams) (h : list byte) :
  length h = 20%nat -> params_ok p ->
  (exists a s,
     CBase58TelestaiAddress_from_bytes p h (SCRIPT_ADDR p) = Ok a ∧
     to_scriptPubKey p a = Ok s ∧
     CTelestaiAddress_from_scriptPubKey p s = Ok a ∧
     a = P2SH_address p h) ∧
  (exists a s,
     CBase58TelestaiAddress_from_bytes p h (PUBKEY_ADDR p) = Ok a ∧
     to_scriptPubKey p a = Ok s ∧
     CTelestaiAddress_from_scriptPubKey p s = Ok a ∧
     a = P2PKH_address p h).
Proof.
  intros Hh Hp. split.
  - exists (P2SH_address p h), (p2sh_script h).
    split; [by apply CBase58_from_bytes_script|].
    split; [by apply to_scriptPubKey_P2SH|].
    split; [by apply from_scriptPubKey_p2sh_script|done].
  - exists (P2PKH_address p h), (p2pkh_script h).
    split; [by apply CBase58_from_bytes_pubkey|].
    split; [by apply to_scriptPubKey_P2PKH|].
    split; [by apply from_scriptPubKey_p2pkh_script|done].
Qed.

Lemma base58_script_roundtrip_witness :
  (exists a s,
     @CBase58TelestaiAddress_from_bytes MainParams (repeat x07 20) 127 = Ok a ∧
     to_scriptPubKey MainParams a = Ok s ∧
     @CTelestaiAddress_from_scriptPubKey demo_crypto MainParams s = Ok a ∧
     a = P2SH_address MainParams (repeat x07 20)) ∧
  (exists a s,
     @CBase58TelestaiAddress_from_bytes MainParams (repeat x07 20) 66 = Ok a ∧
     to_scriptPubKey MainParams a = Ok s ∧
     @CTelestaiAddress_from_scriptPubKey demo_crypto MainParams s = Ok a ∧
     a = P2PKH_address MainParams (repeat x07 20)).
Proof.
  apply (@base58_script_roundtrip demo_crypto MainParams (repeat x07 20)).
  - reflexivity.
  - unfold params_ok. simpl. lia.
Defined.

(** ** Canonicalizing never fails for another reason than a bad push *)

Lemma le_int_bound b : 0 <= Script.le_int b < 256 ^ Z.of_nat (length b).
Proof.
  induction b as [|c b IH]; simpl Script.le_int; simpl length.
  - change (256 ^ Z.of_nat 0) with 1. lia.
  - rewrite Nat2Z.inj_succ, Z.pow_succ_r by lia.
    pose proof (Z_of_byte_range c). lia.
Qed.

Lemma le_int_take_bound (w : nat) rest :
  (w <= 4)%nat -> 0 <= Script.le_int (take w rest) < 2 ^ 32.
Proof.
  intros Hw. pose proof (le_int_bound (take w rest)) as Hb.
  assert (Hl : (length (take w rest) <= 4)%nat) by (rewrite length_take; lia).
  assert (256 ^ Z.of_nat (length (take w rest)) <= 256 ^ 4)
    by (apply Z.pow_le_mono_r; lia).
  change (2 ^ 32) with (256 ^ 4). lia.
Qed.

Lemma read_elem_inv op rest :
  match Script.read_elem op rest with
  | Ok (e, _) => elem_fits e
  | Raise e => e = CScriptInvalidError
  end.
Proof.
  unfold Script.read_elem.
  destruct (decide (Z_of_byte Script.OP_PUSHDATA4 < Z_of_byte op)); [done|].
  pose proof (Z_of_byte_range op) as Ho.
  destruct (decide (Z_of_byte op < Z_of_byte Script.OP_PUSHDATA1)) as [Hlt|Hge].
  - rewrite bind_Ok.
    destruct (decide (_ < _)%nat) as [|Hn]; [done|].
    destruct (decide (Z_of_byte op = 0)); [done|].
    simpl. rewrite length_take. change (Z_of_byte Script.OP_PUSHDATA1) with 76 in Hlt.
    lia.
  - set (w := if decide (op = Script.OP_PUSHDATA1) then 1%nat
              else if decide (op = Script.OP_PUSHDATA2) then 2%nat else 4%nat).
    assert (Hw : (w <= 4)%nat) by (unfold w; repeat destruct (decide _); lia).
    destruct (decide (length rest < w)%nat); [done|]. rewrite bind_Ok.
    destruct (decide (_ < _)%nat) as [|Hn]; [done|].
    pose proof (le_int_take_bound w rest Hw) as Hb.
    destruct (decide (Z_of_byte op = 0)); [done|].
    simpl. rewrite length_take. lia.
Qed.

Lemma iter_inv fuel : forall s,
  match Script.iter fuel s with
  | Ok es => Forall elem_fits es
  | Raise e => e = CScriptInvalidError
  end.
Proof.
  induction fuel as [|f IH]; intros [|op rest]; simpl; try by constructor.
  pose proof (read_elem_inv op rest) as Hr.
  destruct (Script.read_elem op rest) as [[e rest']|]; [|done].
  rewrite bind_Ok. specialize (IH rest').
  destruct (Script.iter f rest') as [es|]; [|done].
  rewrite bind_Ok. by constructor.
Qed.

Lemma CScript_fits es : Forall elem_fits es -> is_Ok (Script.CScript es) = true.
Proof.
  induction 1 as [|e es He Hes IH]; [reflexivity|]. simpl.
  assert (Hc : is_Ok (Script.coerce_instance e) = true).
  { destruct e as [op|d]; [reflexivity|]. simpl in *.
    unfold Script.encode_op_pushdata. repeat destruct (decide _); try reflexivity. lia. }
  destruct (Script.coerce_instance e); [|done]. rewrite bind_Ok.
  destruct (Script.CScript es); [|done]. reflexivity.
Qed.

Lemma canonicalize_exn s e :
  Script.canonicalize s = Raise e -> e = CScriptInvalidError.
Proof.
  unfold Script.canonicalize. pose proof (iter_inv (length s) s) as Hi.
  destruct (Script.iter (length s) s) as [es|e']; [|by intros [= <-]].
  rewrite bind_Ok. pose proof (CScript_fits es Hi) as Hc.
  by destruct (Script.CScript es).
Qed.

(** ** The order of the templates in [from_scriptPubKey] *)

Section AddressOrder.
Context `{Crypto}.
Variable p : ChainParams.
Hypothesis Hp : params_ok p.

Lemma P2PKH_from_scriptPubKey_eq s :
  P2PKH_from_scriptPubKey p s true true =
  match Script.canonicalize s with
  | Raise _ => Raise CTelestaiAddressError
  | Ok c =>
      if Script.is_witness_v0_keyhash c then Ok (P2PKH_address p (slice 2 22 c))
      else if Script.is_witness_v0_nested_keyhash c
      then Ok (P2PKH_address p (slice 3 23 c))
      else if is_p2pkh_template c then Ok (P2PKH_address p (slice 3 23 c))
      else if is_bare_checksig_compressed c
      then Ok (P2PKH_address p (Hash160 (slice 1 34 c)))
      else if is_bare_checksig_uncompressed c
      then Ok (P2PKH_address p (Hash160 (slice 1 65 c)))
      else Raise CTelestaiAddressError
  end.
Proof using Hp.
  unfold P2PKH_from_scriptPubKey.
  destruct (Script.canonicalize s) as [c|e] eqn:Ec.
  - simpl try_except. rewrite bind_Ok.
    rewrite !P2PKH_from_bytes_Some by done.
    fold (is_p2pkh_template c). fold (is_bare_checksig_compressed c).
    fold (is_bare_checksig_uncompressed c).
    destruct (Script.is_witness_v0_keyhash c); [reflexivity|].
    destruct (Script.is_witness_v0_nested_keyhash c); [reflexivity|].
    destruct (is_p2pkh_template c); [reflexivity|].
    destruct (is_bare_checksig_compressed c);
      [by rewrite P2PKH_from_pubkey_invalid_ok|].
    destruct (is_bare_checksig_uncompressed c);
      [by rewrite P2PKH_from_pubkey_invalid_ok|reflexivity].
  - apply canonicalize_exn in Ec as ->. reflexivity.
Qed.

Lemma CTelestaiAddress_from_scriptPubKey_eq s :
  CTelestaiAddress_from_scriptPubKey p s =
  if Script.is_p2sh s then Ok (P2SH_address p (slice 2 22 s))
  else P2PKH_from_scriptPubKey p s true true.
Proof using Hp.
  unfold CTelestaiAddress_from_scriptPubKey, CBase58TelestaiAddress_from_scriptPubKey.
  rewrite P2SH_from_scriptPubKey_eq by done.
  destruct (Script.is_p2sh s); [reflexivity|]. simpl try_except at 2.
  rewrite P2PKH_from_scriptPubKey_eq.
  destruct (Script.canonicalize s) as [c|]; [|reflexivity].
  repeat (destruct (_ : bool); [reflexivity|]). reflexivity.
Qed.

Lemma witness_v0_script_inv s n :
  length s = S (S n) -> (0 < n < 0x4c)%nat ->
  slice 0 2 s = [x00; byte_of_Z (Z.of_nat n)] ->
  s = witness_v0_script (drop 2 s) ∧ length (drop 2 s) = n.
Proof using Type.
  intros Hl Hn Hs. destruct s as [|a [|b prog]]; simpl in Hl; try lia.
  injection Hs as -> ->. change (drop 2 (x00 :: byte_of_Z (Z.of_nat n) :: prog)) with prog.
  unfold witness_v0_script.
  assert (length prog = n) as -> by lia. done.
Qed.



End AddressOrder.

(** With [accept_bare_checksig] off, the bare-checksig scripts are
    rejected. *)
Lemma P2PKH_from_scriptPubKey_no_bare `{Crypto} (p : ChainParams) (s c : list byte) :
  Script.canonicalize s = Ok c ->
  Script.is_witness_v0_keyhash c = false ->
  Script.is_witness_v0_nested_keyhash c = false ->
  is_p2pkh_template c = false ->
  P2PKH_from_scriptPubKey p s true false = Raise CTelestaiAddressError.
Proof.
  intros Hc Hk Hn Ht. unfold P2PKH_from_scriptPubKey.
  rewrite Hc. simpl try_except. rewrite bind_Ok, Hk, Hn.
  fold (is_p2pkh_template c). by rewrite Ht.
Qed.

(** The 65-byte bare checksig hashes the 64 bytes [s[1:65]], one short of
    the key. *)
Lemma bare_checksig_uncompressed_hash `{Crypto} (p : ChainParams) (pk : list byte) :
  params_ok p -> length pk = 65%nat ->
  CTelestaiAddress_from_scriptPubKey p (x41 :: pk ++ [xac])
  = Ok (P2PKH_address p (Hash160 (take 64 pk))).
Proof.
  intros Hp Hl.
  rewrite CTelestaiAddress_from_scriptPubKey_eq, P2PKH_from_scriptPubKey_eq by done.
  assert (Hc : Script.canonicalize (x41 :: pk ++ [xac]) = Ok (x41 :: pk ++ [xac])).
  { unfold Script.canonicalize. simpl length. rewrite length_app, Hl. simpl Nat.add.
    change x41 with (byte_of_Z 65).
    rewrite (iter_cons _ _ _ _ _ (read_elem_push 65 pk _ ltac:(lia) ltac:(lia))).
    simpl Script.iter. rewrite !bind_Ok. simpl.
    rewrite encode_op_pushdata_short by (rewrite Hl; lia).
    rewrite Hl. reflexivity. }
  rewrite Hc.
  assert (Hlen : length (x41 :: pk ++ [xac]) = 67%nat)
    by (simpl; rewrite length_app, Hl; reflexivity).
  assert (H66 : (x41 :: pk ++ [xac]) !! 66%nat = Some xac).
  { change 66%nat with (1 + 65)%nat. simpl.
    rewrite lookup_app_r by lia. by rewrite Hl. }
  unfold Script.is_p2sh, Script.is_witness_v0_keyhash,
    Script.is_witness_v0_nested_keyhash, is_p2pkh_template,
    is_bare_checksig_compressed, is_bare_checksig_uncompressed.
  rewrite Hlen, H66. simpl. unfold slice. simpl.
  by rewrite drop_0, take_app_le by lia.
Qed.






(** ** Signing with several keys *)

Section MultiSigFacts.
Context `{Crypto}.
Variable SignatureHash :
  list byte -> CTransaction -> heap -> Z -> Z -> Z -> result (list byte).

(** With a [required] that has a length [n], the loop signs with the
    keys in order and stops at [n] signatures. *)
Lemma sign_loop_sized sighash script n keys : forall sigs,
  sign_loop sighash keys {| rs_script := script; required := PySized n |} sigs
  = Ok (sigs ++ map (tx_signature sighash) (take (n - length sigs) keys)).
Proof using Type.
  induction keys as [|k ks IH]; intros sigs; simpl.
  - by rewrite take_nil, app_nil_r.
  - destruct (decide (n <= length sigs)%nat) as [Hle|Hgt].
    + replace (n - length sigs)%nat with 0%nat by lia. by rewrite app_nil_r.
    + rewrite IH, length_app. simpl length.
      replace (n - length sigs)%nat with (S (n - (length sigs + 1))) by lia.
      simpl. by rewrite <- app_assoc.
Qed.

Lemma sign_with_multiple_keys_sized tx h keys script n sv sighash :
  SignatureHash script tx h 0 Script.SIGHASH_ALL sv = Ok sighash ->
  sign_with_multiple_keys SignatureHash tx h keys
    {| rs_script := script; required := PySized n |} sv
  = Ok (map (tx_signature sighash) (take n keys)).
Proof using Type.
  intros Hs. unfold sign_with_multiple_keys. simpl rs_script.
  rewrite Hs, bind_Ok, sign_loop_sized. simpl. by rewrite Nat.sub_0_r.
Qed.

End MultiSigFacts.

(** C3, what the code does.  When [required] is the integer threshold
    and at least one key is supplied, the first pass of the loop applies
    [len] to it: the call raises [TypeError] as soon as the signature
    hash is computed, and returns no signature. *)
Theorem sign_with_multiple_keys_int_threshold `{Crypto}
    (SignatureHash : list byte -> CTransaction -> heap -> Z -> Z -> Z -> result (list byte))
    (tx : CTransaction) (h : heap) (k : CKey) (ks : list CKey)
    (script : list byte) (threshold sv : Z) :
  sign_with_multiple_keys SignatureHash tx h (k :: ks)
    {| rs_script := script; required := PyInt threshold |} sv
  = (SignatureHash script tx h 0 Script.SIGHASH_ALL sv ≫= fun _ => Raise TypeError).
Proof. reflexivity. Qed.

(** A 2-of-3 redeem script and three keys: no list of two signatures. *)
Lemma sign_with_multiple_keys_two_of_three :
  @sign_with_multiple_keys demo_crypto demo_SignatureHash demo_tx demo_heap
    [demo_key true; demo_key false; demo_key true]
    {| rs_script := [x52; xae]; required := PyInt 2 |} Script.SIGVERSION_BASE
  = Raise TypeError.
Proof. reflexivity. Qed.

(** ** Applying the signatures *)

Lemma CScript_app es1 es2 b1 b2 :
  Script.CScript es1 = Ok b1 -> Script.CScript es2 = Ok b2 ->
  Script.CScript (es1 ++ es2) = Ok (b1 ++ b2).
Proof.
  revert b1. induction es1 as [|e es IH]; intros b1; simpl.
  - by intros [= <-].
  - destruct (Script.coerce_instance e) as [b|]; [|done]. rewrite !bind_Ok.
    destruct (Script.CScript es) as [bs|]; [|done]. rewrite !bind_Ok.
    intros [= <-] H2. rewrite (IH bs eq_refl H2), bind_Ok.
    by rewrite app_assoc.
Qed.

Lemma CScript_app_inv es1 es2 b :
  Script.CScript (es1 ++ es2) = Ok b ->
  exists b1 b2, Script.CScript es1 = Ok b1 ∧ Script.CScript es2 = Ok b2 ∧ b = b1 ++ b2.
Proof.
  revert b. induction es1 as [|e es IH]; intros b; simpl.
  - intros Hb. by exists [], b.
  - destruct (Script.coerce_instance e) as [be|]; [|done]. rewrite !bind_Ok.
    destruct (Script.CScript (es ++ es2)) as [bs|] eqn:E; [|done].
    rewrite bind_Ok. intros [= <-].
    destruct (IH bs eq_refl) as (b1 & b2 & -> & -> & ->).
    exists (be ++ b1), b2. by rewrite bind_Ok, app_assoc.
Qed.

(** The loop appends the pushes of the signatures, in order. *)
Lemma add_signatures_pushes sigs : forall acc body,
  Script.CScript (map Script.EData sigs) = Ok body ->
  add_signatures acc sigs = Ok (acc ++ body).
Proof.
  induction sigs as [|sig sigs IH]; intros acc body; simpl.
  - intros [= <-]. by rewrite app_nil_r.
  - destruct (Script.encode_op_pushdata sig) as [b|]; [|done]. rewrite !bind_Ok.
    destruct (Script.CScript (map Script.EData sigs)) as [bs|]; [|done].
    rewrite !bind_Ok. intros [= <-].
    rewrite app_nil_r. unfold CScript_add.
    rewrite (IH (acc ++ b) bs eq_refl). by rewrite app_assoc.
Qed.

(** C8. On a transaction with a first input, held at [l], and
    signatures and a redeem script that can be pushed, the call succeeds
    and writes into the [scriptSig] of the object at [l] the script
    [OP_0], the push of each signature in the given order, the push of
    the redeem script.  The other attributes of that object and every
    other object stay as they were; the transaction's own fields are not
    written. *)
Theorem apply_multisig_signatures_frame (nv lt : Z) (l : loc) (rest : list loc)
    (outs : list CTxOut) (sigs : list (list byte)) (rs : RedeemScript) (h : heap)
    (script : list byte) :
  Script.CScript
    ([Script.EOp Script.OP_0] ++ map Script.EData sigs ++ [Script.EData (rs_script rs)])
  = Ok script ->
  exists h',
    apply_multisig_signatures
      {| tx_nVersion := nv; vin := l :: rest; vout := outs; nLockTime := lt |}
      sigs rs h = (Ok (), h') ∧
    h' !! l = set_scriptSig script <$> h !! l ∧
    (forall i, h !! l = Some i ->
       exists i', h' !! l = Some i' ∧ scriptSig i' = script ∧
                  prevout i' = prevout i ∧ nSequence i' = nSequence i) ∧
    (forall l', l' ≠ l -> h' !! l' = h !! l').
Proof.
  intros Hs.
  apply CScript_app_inv in Hs as (b0 & b1 & H0 & Hs & ->).
  apply CScript_app_inv in Hs as (b2 & b3 & H2 & H3 & ->).
  exists (alter (set_scriptSig (b0 ++ b2 ++ b3)) l h). split; [|split; [|split]].
  - unfold apply_multisig_signatures. rewrite H0, bind_Ok.
    rewrite (add_signatures_pushes sigs b0 b2 H2), bind_Ok, H3, bind_Ok.
    unfold CScript_add. simpl. by rewrite app_assoc.
  - by rewrite lookup_alter_eq.
  - intros i Hi. rewrite lookup_alter_eq, Hi. simpl. eauto.
  - intros l' Hl. by rewrite lookup_alter_ne.
Qed.

(** Two short byte strings standing for signatures, and a two-byte
    redeem script, on the sample transaction. *)
Lemma apply_multisig_signatures_frame_witness :
  exists h',
    apply_multisig_signatures demo_tx [[x30; x01]; [x30; x02]]
      {| rs_script := [x52; xae]; required := PyInt 2 |} demo_heap = (Ok (), h') ∧
    h' !! 0%nat
      = set_scriptSig [x00; x02; x30; x01; x02; x30; x02; x02; x52; xae]
          <$> demo_heap !! 0%nat ∧
    (forall i, demo_heap !! 0%nat = Some i ->
       exists i', h' !! 0%nat = Some i' ∧
                  scriptSig i' = [x00; x02; x30; x01; x02; x30; x02; x02; x52; xae] ∧
                  prevout i' = prevout i ∧ nSequence i' = nSequence i) ∧
    (forall l', l' ≠ 0%nat -> h' !! l' = demo_heap !! l').
Proof.
  apply (apply_multisig_signatures_frame 1 0 0%nat [1%nat]
           [{| nValue := 1000; scriptPubKey := p2pkh_script (repeat x07 20) |}]
           [[x30; x01]; [x30; x02]]
           {| rs_script := [x52; xae]; required := PyInt 2 |} demo_heap).
  reflexivity.
Defined.

(** Without a first input the subscript [vin[0]] raises and nothing is
    written. *)
Lemma apply_multisig_signatures_no_input nv lt outs sigs rs (h : heap) script :
  Script.CScript
    ([Script.EOp Script.OP_0] ++ map Script.EData sigs ++ [Script.EData (rs_script rs)])
  = Ok script ->
  apply_multisig_signatures
    {| tx_nVersion := nv; vin := []; vout := outs; nLockTime := lt |} sigs rs h
  = (Raise IndexError, h).
Proof.
  intros Hs.
  apply CScript_app_inv in Hs as (b0 & b1 & H0 & Hs & ->).
  apply CScript_app_inv in Hs as (b2 & b3 & H2 & H3 & ->).
  unfold apply_multisig_signatures. rewrite H0, bind_Ok.
  by rewrite (add_signatures_pushes sigs b0 b2 H2), bind_Ok, H3, bind_Ok.
Qed.

(** The write goes through the object: a transaction that lists the same
    input object twice sees it at both places. *)
Lemma apply_multisig_signatures_alias :
  let tx := {| tx_nVersion := 1; vin := [0%nat; 0%nat]; vout := []; nLockTime := 0 |} in
  let h' := (apply_multisig_signatures tx [] {| rs_script := [x51]; required := PyInt 1 |}
               demo_heap).2 in
  (vin tx !! 1%nat ≫= fun l => scriptSig <$> h' !! l) = Some [x00; x01; x51].
Proof. reflexivity. Qed.

(** ** Serialization of a signed message *)

Lemma le_bytes_length w : forall n, length (Script.le_bytes w n) = w.
Proof. induction w as [|w IH]; intros n; simpl; [reflexivity|by rewrite IH]. Qed.

Lemma le_int_le_bytes w : forall n,
  0 <= n < 256 ^ Z.of_nat w -> Script.le_int (Script.le_bytes w n) = n.
Proof.
  induction w as [|w IH]; intros n Hn.
  - change (256 ^ Z.of_nat 0) with 1 in Hn. simpl. lia.
  - rewrite Nat2Z.inj_succ, Z.pow_succ_r in Hn by lia.
    simpl. rewrite Z_of_byte_of_Z by (apply Z.mod_pos_bound; lia).
    rewrite IH.
    + pose proof (Z.div_mod n 256). lia.
    + split; [apply Z.div_pos; lia|apply Z.div_lt_upper_bound; lia].
Qed.

Lemma ser_read_app b rest :
  ser_read (b ++ rest) (length b) = Ok (b, rest).
Proof.
  unfold ser_read. rewrite length_app.
  destruct (decide _); [lia|]. by rewrite take_app_length, drop_app_length.
Qed.

Lemma VarInt_deserialize_cons m f :
  VarInt_deserialize (m :: f) =
  if decide (Z_of_byte m < 253) then Ok (Z_of_byte m, f)
  else
    ser_read f (if decide (Z_of_byte m = 253) then 2%nat
                else if decide (Z_of_byte m = 254) then 4%nat else 8%nat)
    ≫= fun '(b, f) => Ok (Script.le_int b, f).
Proof.
  unfold VarInt_deserialize.
  pose proof (ser_read_app [m] f) as Hr. simpl in Hr. rewrite Hr, bind_Ok.
  simpl Script.le_int. rewrite Z.mul_0_r, Z.add_0_r. reflexivity.
Qed.

Lemma ser_read_le_bytes w n rest :
  ser_read (Script.le_bytes w n ++ rest) w = Ok (Script.le_bytes w n, rest).
Proof.
  pose proof (ser_read_app (Script.le_bytes w n) rest) as Hr.
  by rewrite le_bytes_length in Hr.
Qed.

Lemma VarInt_roundtrip n rest :
  0 <= n < 2 ^ 64 ->
  VarInt_deserialize (VarInt_serialize n ++ rest) = Ok (n, rest).
Proof.
  intros Hn. unfold VarInt_serialize.
  destruct (decide (n < 253)).
  - simpl app. rewrite VarInt_deserialize_cons, Z_of_byte_of_Z by lia.
    destruct (decide _); [reflexivity|lia].
  - destruct (decide (n <= 65535)); [|destruct (decide (n <= 4294967295))];
      rewrite <- app_comm_cons, VarInt_deserialize_cons;
      match goal with |- context [Z_of_byte ?m] =>
        let v := eval compute in (Z_of_byte m) in change (Z_of_byte m) with v end;
      repeat (destruct (decide _) as [?|?]; try lia);
      rewrite ser_read_le_bytes, bind_Ok, le_int_le_bytes by (simpl; lia);
      reflexivity.
Qed.

Lemma BytesSerializer_roundtrip b rest :
  Z.of_nat (length b) < 2 ^ 64 ->
  BytesSerializer_deserialize (BytesSerializer_serialize b ++ rest) = Ok (b, rest).
Proof.
  intros Hb. unfold BytesSerializer_deserialize, BytesSerializer_serialize.
  rewrite <- app_assoc, VarInt_roundtrip by lia. rewrite bind_Ok.
  rewrite Nat2Z.id. apply ser_read_app.
Qed.

(** C10, what the code does.  Reading back what [stream_serialize]
    wrote finds the two byte strings and hands them to the constructor,
    which calls [encode] on them: [stream_deserialize] raises
    [AttributeError] instead of returning the message. *)
Theorem TelestaiMessage_deserialize_raises (m : TelestaiMessage) (rest : list byte) :
  Z.of_nat (length (magic m)) < 2 ^ 64 ->
  Z.of_nat (length (message m)) < 2 ^ 64 ->
  TelestaiMessage_stream_deserialize (TelestaiMessage_stream_serialize m ++ rest)
  = Raise AttributeError.
Proof.
  intros Hg Hm. unfold TelestaiMessage_stream_deserialize, TelestaiMessage_stream_serialize.
  rewrite <- app_assoc, BytesSerializer_roundtrip, bind_Ok by done.
  rewrite BytesSerializer_roundtrip, bind_Ok by done.
  reflexivity.
Qed.

(** The default message, [TelestaiMessage("")]. *)
Lemma TelestaiMessage_deserialize_raises_witness :
  TelestaiMessage_init (PyStr "") (PyStr default_magic)
    = Ok {| magic := utf8 default_magic; message := [] |} ∧
  TelestaiMessage_stream_deserialize
    (TelestaiMessage_stream_serialize {| magic := utf8 default_magic; message := [] |} ++ [])
  = Raise AttributeError.
Proof.
  split; [reflexivity|].
  apply (TelestaiMessage_deserialize_raises
           {| magic := utf8 default_magic; message := [] |} []).
  - reflexivity.
  - reflexivity.
Defined.

(** The two byte strings themselves do come back: it is the constructor
    call that fails. *)
Lemma TelestaiMessage_fields_roundtrip (m : TelestaiMessage) (rest : list byte) :
  Z.of_nat (length (magic m)) < 2 ^ 64 ->
  Z.of_nat (length (message m)) < 2 ^ 64 ->
  (BytesSerializer_deserialize (TelestaiMessage_stream_serialize m ++ rest)
     ≫= fun '(g, f) => BytesSerializer_deserialize f
     ≫= fun '(t, f) => Ok (g, t, f))
  = Ok (magic m, message m, rest).
Proof.
  intros Hg Hm. unfold TelestaiMessage_stream_serialize.
  rewrite <- app_assoc, BytesSerializer_roundtrip, bind_Ok by done.
  by rewrite BytesSerializer_roundtrip, bind_Ok by done.
Qed.

(** ** The iteration bounds of the model are never reached

    The loops of the source run until their data is used up; the bounds
    the model gives them are large enough, so that a larger bound changes
    no result. *)

Lemma divmod_loop_fuel base f1 f2 n :
  1 < base -> 0 <= n < base ^ Z.of_nat f1 -> 0 <= n < base ^ Z.of_nat f2 ->
  Base58.divmod_loop base f1 n = Base58.divmod_loop base f2 n.
Proof.
  intros Hb H1 H2.
  rewrite <- (divmod_loop_value base Hb f2 n H2) at 1.
  apply divmod_loop_unique; [done|by apply divmod_loop_range|
                             by apply divmod_loop_last|].
  rewrite divmod_loop_value by done. lia.
Qed.

Lemma base58_encode_fuel b f :
  (2 * length b <= f)%nat ->
  Base58.divmod_loop 58 f (Base58.int_from_bytes b)
  = Base58.divmod_loop 58 (2 * length b) (Base58.int_from_bytes b).
Proof.
  intros Hf. pose proof (int_from_bytes_bound b) as Hn.
  pose proof (pow_58_256 (length b)) as Hp.
  assert (58 ^ Z.of_nat (2 * length b) <= 58 ^ Z.of_nat f)
    by (apply Z.pow_le_mono_r; lia).
  apply divmod_loop_fuel; lia.
Qed.

Lemma index_from_range c s : forall i d,
  index_from c s i = Some d -> i <= d < i + Z.of_nat (String.length s).
Proof.
  induction s as [|c' s IH]; intros i d; simpl; [done|].
  destruct (decide (c' = c)); [intros [= <-]; lia|].
  intros Hi. apply IH in Hi. lia.
Qed.

Lemma digit_index_range c d : Base58.digit_index c = Some d -> 0 <= d < 58.
Proof. intros Hd. apply index_from_range in Hd. simpl in Hd. lia. Qed.

Lemma decode_int_bound cs : forall n0 n,
  0 <= n0 -> Base58.decode_int cs n0 = Ok n ->
  0 <= n < (n0 + 1) * 58 ^ Z.of_nat (length cs).
Proof.
  induction cs as [|c cs IH]; intros n0 n Hn0; simpl.
  - intros [= <-]. change (58 ^ Z.of_nat 0) with 1. lia.
  - destruct (Base58.digit_index c) as [d|] eqn:Ed; [|done].
    apply digit_index_range in Ed.
    intros Hn. apply IH in Hn; [|lia].
    rewrite Nat2Z.inj_succ, Z.pow_succ_r by lia. nia.
Qed.

Lemma base58_decode_fuel cs n f :
  Base58.decode_int cs 0 = Ok n -> (length cs <= f)%nat ->
  Base58.int_to_bytes f n = Base58.int_to_bytes (length cs) n.
Proof.
  intros Hd Hf. apply decode_int_bound in Hd; [|lia]. rewrite Z.mul_1_l in Hd.
  assert (58 ^ Z.of_nat (length cs) <= 256 ^ Z.of_nat (length cs))
    by (apply Z.pow_le_mono_l; lia).
  assert (256 ^ Z.of_nat (length cs) <= 256 ^ Z.of_nat f)
    by (apply Z.pow_le_mono_r; lia).
  unfold Base58.int_to_bytes. by rewrite (divmod_loop_fuel 256 f (length cs)) by lia.
Qed.

Lemma read_elem_length op rest e rest' :
  Script.read_elem op rest = Ok (e, rest') -> (length rest' <= length rest)%nat.
Proof.
  unfold Script.read_elem.
  destruct (decide (Z_of_byte Script.OP_PUSHDATA4 < Z_of_byte op));
    [by intros [= _ <-]|].
  destruct (decide (Z_of_byte op < Z_of_byte Script.OP_PUSHDATA1)).
  - rewrite bind_Ok. destruct (decide (_ < _)%nat); [done|].
    intros [= _ <-]. rewrite length_drop. lia.
  - destruct (decide (_ < _)%nat); [done|]. rewrite bind_Ok.
    destruct (decide (_ < _)%nat); [done|].
    intros [= _ <-]. rewrite !length_drop. lia.
Qed.

Lemma iter_fuel f1 : forall f2 s,
  (length s <= f1)%nat -> (length s <= f2)%nat ->
  Script.iter f1 s = Script.iter f2 s.
Proof.
  induction f1 as [|f1 IH]; intros f2 [|op rest] H1 H2.
  - by destruct f2.
  - simpl in H1. lia.
  - by destruct f2.
  - destruct f2 as [|f2]; [simpl in H2; lia|]. simpl.
    destruct (Script.read_elem op rest) as [[e rest']|] eqn:Er; [|reflexivity].
    apply read_elem_length in Er. rewrite !bind_Ok.
    rewrite (IH f2 rest') by (simpl in *; lia). reflexivity.
Qed.

(** ** The codecs on the strings of the test suite *)

(** The WIF string of [test_signmessage.py] holds 38 bytes: the version
    128, 32 bytes of scalar, the compression byte and 4 bytes of
    checksum. *)
Example base58_decode_test_wif :
  (fun k => (length k, head k, k !! 33%nat)) <$>
    Base58.decode "L1gVQSmAJDnkK1A1V3mJehL9xQbdai9CCx65d29seRFGVVheyngq"
  = Ok (38%nat, Some x80, Some x01).
Proof. reflexivity. Qed.

(** A symbol outside the alphabet is refused. *)
Example base58_decode_bad_symbol :
  Base58.decode "L1gVQSmAJDnkK1A1V3mJehL9xQbdai9CCx65d29seRFGVVheyngO"
  = Raise InvalidBase58Error.
Proof. reflexivity. Qed.

(** The signature of [test_verify_message_simple] holds 65 bytes, and its
    header byte 32 is that of a compressed key with recovery id 1. *)
Example b64decode_test_signature :
  (fun k => (length k, head k)) <$>
    Base64.b64decode
      "IKUeo59jk2ueeSBDkugZ9PBbteNayMn2FOKAQ1/WvoNzKcd0DeB1ljzTASm2VV8BeP//jF0aU7ztE55LIVVyOr8="
  = Ok (65%nat, Some x20).
Proof. reflexivity. Qed.

(** The serialized default magic starts with its length, the byte
    [0x19] of the comment in [signmessage.py]. *)
Example serialize_magic_prefix :
  take 2 (TelestaiMessage_stream_serialize demo_message) = [x19; x54].
Proof. reflexivity. Qed.

(** A push written with [OP_PUSHDATA1] is rewritten in its short form,
    and a push that runs past the end is refused. *)
Example canonicalize_pushdata1 :
  Script.canonicalize [x4c; x02; x01; x02; x76] = Ok [x02; x01; x02; x76] ∧
  Script.canonicalize [x4c; x02; x01] = Raise CScriptInvalidError.
Proof. split; reflexivity. Qed.

(** * Properties of the rest of the code *)

(** ** Secrets and their strings *)

Lemma base58_encode_inj x y : Base58.encode x = Base58.encode y -> x = y.
Proof.
  intros Heq. pose proof (base58_decode_encode x) as Hx.
  rewrite Heq, base58_decode_encode in Hx. by injection Hx.
Qed.

Lemma to_wif_value `{Crypto} (p : ChainParams) (k : CTelestaiSecret) :
  0 <= SECRET_KEY p <= 255 ->
  to_wif p k =
  Ok (Base58.encode
        ((byte_of_Z (SECRET_KEY p)
            :: b58_data (sec_base k) ++ (if is_compressed (sec_key k) then [x01] else []))
         ++ take 4 (Hash (byte_of_Z (SECRET_KEY p)
            :: b58_data (sec_base k) ++ (if is_compressed (sec_key k) then [x01] else []))))).
Proof.
  intros Hv. unfold to_wif, bytes_of_int.
  destruct (decide _) as [_|]; [|lia]. rewrite bind_Ok.
  destruct (is_compressed (sec_key k)); [reflexivity|].
  by rewrite app_nil_r.
Qed.

Lemma CTelestaiSecret_init_Ok `{Crypto} (p : ChainParams) (d : CBase58Data)
    (k : CTelestaiSecret) :
  CTelestaiSecret_init p d = Ok k ->
  nVersion d = SECRET_KEY p ∧ sec_base k = d ∧
  CKey_init (slice 0 32 (b58_data d))
    (bool_decide (32 < length (b58_data d))%nat
     && bool_decide (b58_data d !! 32%nat = Some x01)) = Ok (sec_key k).
Proof.
  unfold CTelestaiSecret_init.
  destruct (decide (nVersion d ≠ SECRET_KEY p)) as [|Hv]; [done|].
  destruct (CKey_init _ _) as [key|]; [|done]. rewrite bind_Ok.
  intros [= <-]. simpl. split; [|done].
  destruct (decide (nVersion d = SECRET_KEY p)); done.
Qed.

(** X1.  A secret read back from its own [str] is the same object:
    same bytes, same version, same key. *)
Theorem secret_str_roundtrip `{Crypto, !CryptoLaws} (p : ChainParams)
    (d : CBase58Data) (k : CTelestaiSecret) :
  0 <= SECRET_KEY p <= 255 ->
  CTelestaiSecret_init p d = Ok k ->
  CTelestaiSecret_new p (CBase58Data_str (sec_base k)) = Ok k.
Proof.
  intros Hv Hk. pose proof (CTelestaiSecret_init_Ok p d k Hk) as (Hn & Hb & _).
  unfold CTelestaiSecret_new, CBase58Data_str. rewrite Hb, Hn.
  rewrite CBase58Data_new_encode by done. rewrite bind_Ok.
  destruct d as [data v]. simpl in *. by subst v.
Qed.

Lemma secret_str_roundtrip_witness :
  @CTelestaiSecret_new demo_crypto MainParams
    (@CBase58Data_str demo_crypto {| b58_data := demo_secret ++ [x01]; nVersion := 128 |})
  = Ok {| sec_base := {| b58_data := demo_secret ++ [x01]; nVersion := 128 |};
          sec_key := demo_key true |}.
Proof.
  apply (@secret_str_roundtrip demo_crypto demo_crypto_laws MainParams
           {| b58_data := demo_secret ++ [x01]; nVersion := 128 |}
           {| sec_base := {| b58_data := demo_secret ++ [x01]; nVersion := 128 |};
              sec_key := demo_key true |}).
  - simpl. lia.
  - reflexivity.
Defined.

(** X2.  [to_wif] gives the string [str] gives exactly for the
    keys that are not compressed; for a compressed key the two differ. *)
Theorem to_wif_vs_str `{Crypto, !CryptoLaws} (p : ChainParams)
    (d : CBase58Data) (k : CTelestaiSecret) :
  0 <= SECRET_KEY p <= 255 ->
  CTelestaiSecret_init p d = Ok k ->
  exists w, to_wif p k = Ok w ∧
    (w = CBase58Data_str (sec_base k) <-> is_compressed (sec_key k) = false).
Proof.
  intros Hv Hk. pose proof (CTelestaiSecret_init_Ok p d k Hk) as (Hn & Hb & _).
  eexists. split; [by apply to_wif_value|].
  unfold CBase58Data_str. rewrite Hb, Hn.
  destruct (is_compressed (sec_key k)).
  - split; [|done]. intros Heq. apply base58_encode_inj in Heq.
    apply (f_equal length) in Heq. simpl in Heq.
    rewrite !length_app, !length_take, !Hash_length in Heq. simpl in Heq. lia.
  - by rewrite app_nil_r.
Qed.

Lemma to_wif_vs_str_witness :
  exists w,
    @to_wif demo_crypto MainParams
      {| sec_base := {| b58_data := demo_secret ++ [x01]; nVersion := 128 |};
         sec_key := demo_key true |} = Ok w ∧
    (w = @CBase58Data_str demo_crypto {| b58_data := demo_secret ++ [x01]; nVersion := 128 |}
     <-> @is_compressed (demo_key true) = false).
Proof.
  apply (@to_wif_vs_str demo_crypto demo_crypto_laws MainParams
           {| b58_data := demo_secret ++ [x01]; nVersion := 128 |}).
  - simpl. lia.
  - reflexivity.
Defined.

Lemma CKey_init_is_compressed `{Crypto, !CryptoLaws} s c key :
  CKey_init s c = Ok key -> is_compressed key = c.
Proof. apply is_compressed_CKey_init. Qed.

(** X3.  The WIF round trip of any secret object, also one read from
    a string: [CTelestaiSecret(k.to_wif())] has the same key, and its
    bytes are those of [k] with one more [0x01] when the key is
    compressed; so every round trip of a compressed key makes the payload
    one byte longer. *)
Theorem wif_roundtrip_grows `{Crypto, !CryptoLaws} (p : ChainParams)
    (d : CBase58Data) (k : CTelestaiSecret) :
  0 <= SECRET_KEY p <= 255 ->
  CTelestaiSecret_init p d = Ok k ->
  exists w k',
    to_wif p k = Ok w ∧ CTelestaiSecret_new p w = Ok k' ∧
    sec_key k' = sec_key k ∧
    b58_data (sec_base k')
    = b58_data (sec_base k) ++ (if is_compressed (sec_key k) then [x01] else []).
Proof.
  intros Hv Hk. pose proof (CTelestaiSecret_init_Ok p d k Hk) as (Hn & Hb & Hkey).
  pose proof (CKey_init_is_compressed _ _ _ Hkey) as Hc.
  set (dat := b58_data d) in *.
  set (ext := if is_compressed (sec_key k) then [x01] else []).
  exists (Base58.encode
            ((byte_of_Z (SECRET_KEY p) :: dat ++ ext)
             ++ take 4 (Hash (byte_of_Z (SECRET_KEY p) :: dat ++ ext)))),
    {| sec_base := {| b58_data := dat ++ ext; nVersion := SECRET_KEY p |};
       sec_key := sec_key k |}.
  split; [rewrite to_wif_value by done; by rewrite Hb|].
  split; [|split; [done|by rewrite Hb]].
  unfold CTelestaiSecret_new. rewrite CBase58Data_new_encode by done.
  rewrite bind_Ok. unfold CTelestaiSecret_init. simpl.
  destruct (decide (SECRET_KEY p ≠ SECRET_KEY p)); [done|].
  assert (Hsame :
    slice 0 32 (dat ++ ext) = slice 0 32 dat ∧
    bool_decide (32 < length (dat ++ ext))%nat
      && bool_decide ((dat ++ ext) !! 32%nat = Some x01)
    = bool_decide (32 < length dat)%nat && bool_decide (dat !! 32%nat = Some x01)).
  { unfold ext. destruct (is_compressed (sec_key k)); [|by rewrite app_nil_r].
    symmetry in Hc. apply andb_true_iff in Hc as [Hl H32].
    apply bool_decide_eq_true in Hl. apply bool_decide_eq_true in H32.
    split.
    - unfold slice. rewrite !drop_0. simpl. by rewrite take_app_le by lia.
    - rewrite !bool_decide_eq_true_2; [done|done|lia|
        by rewrite lookup_app_l by lia|rewrite length_app; lia]. }
  destruct Hsame as [-> ->]. by rewrite Hkey.
Qed.

Lemma wif_roundtrip_grows_witness :
  exists w k',
    @to_wif demo_crypto MainParams
      {| sec_base := {| b58_data := demo_secret ++ [x01; x01]; nVersion := 128 |};
         sec_key := demo_key true |} = Ok w ∧
    @CTelestaiSecret_new demo_crypto MainParams w = Ok k' ∧
    sec_key k' = demo_key true ∧
    b58_data (sec_base k')
    = (demo_secret ++ [x01; x01]) ++ (if @is_compressed (demo_key true) then [x01] else []).
Proof.
  apply (@wif_roundtrip_grows demo_crypto demo_crypto_laws MainParams
           {| b58_data := demo_secret ++ [x01; x01]; nVersion := 128 |}
           {| sec_base := {| b58_data := demo_secret ++ [x01; x01]; nVersion := 128 |};
              sec_key := demo_key true |}).
  - simpl. lia.
  - reflexivity.
Defined.

(** X4.  A secret is bound to the network of its version byte: the
    WIF string of a key, and its [str], made under parameters [p], are
    refused with [CTelestaiSecretError] under parameters [q] whose
    secret-key version differs. *)
Theorem secret_network_binding `{Crypto, !CryptoLaws} (p q : ChainParams)
    (d : CBase58Data) (k : CTelestaiSecret) :
  0 <= SECRET_KEY p <= 255 -> SECRET_KEY q ≠ SECRET_KEY p ->
  CTelestaiSecret_init p d = Ok k ->
  (exists w, to_wif p k = Ok w ∧
             CTelestaiSecret_new q w = Raise CTelestaiSecretError) ∧
  CTelestaiSecret_new q (CBase58Data_str (sec_base k)) = Raise CTelestaiSecretError.
Proof.
  intros Hv Hne Hk. pose proof (CTelestaiSecret_init_Ok p d k Hk) as (Hn & Hb & _).
  assert (Hq : forall payload,
    CTelestaiSecret_new q
      (Base58.encode ((byte_of_Z (SECRET_KEY p) :: payload)
                      ++ take 4 (Hash (byte_of_Z (SECRET_KEY p) :: payload))))
    = Raise CTelestaiSecretError).
  { intros payload. unfold CTelestaiSecret_new.
    rewrite CBase58Data_new_encode by done. rewrite bind_Ok.
    unfold CTelestaiSecret_init. simpl.
    destruct (decide (SECRET_KEY p ≠ SECRET_KEY q)) as [|Hn']; [done|].
    exfalso. apply Hn'. intros E. by apply Hne. }
  split.
  - eexists. split; [by apply to_wif_value|apply Hq].
  - unfold CBase58Data_str. rewrite Hb, Hn. apply Hq.
Qed.

(** A main-network key read on the test network. *)
Lemma secret_network_binding_witness :
  (exists w,
     @to_wif demo_crypto MainParams
       {| sec_base := {| b58_data := demo_secret ++ [x01]; nVersion := 128 |};
          sec_key := demo_key true |} = Ok w ∧
     @CTelestaiSecret_new demo_crypto TestNetParams w = Raise CTelestaiSecretError) ∧
  @CTelestaiSecret_new demo_crypto TestNetParams
    (@CBase58Data_str demo_crypto {| b58_data := demo_secret ++ [x01]; nVersion := 128 |})
  = Raise CTelestaiSecretError.
Proof.
  apply (@secret_network_binding demo_crypto demo_crypto_laws MainParams TestNetParams
           {| b58_data := demo_secret ++ [x01]; nVersion := 128 |}
           {| sec_base := {| b58_data := demo_secret ++ [x01]; nVersion := 128 |};
              sec_key := demo_key true |}).
  - simpl. lia.
  - simpl. lia.
  - reflexivity.
Defined.

(** X5.  The length of a secret's payload is never checked.  The
    Base58Check string of the secret-key version, a 32-byte scalar [s]
    and any further bytes [t] is read as the key of [s]; it is compressed
    exactly when [t] starts with [0x01], and the rest of [t] is ignored. *)
Theorem secret_payload_unchecked `{Crypto, !CryptoLaws} (p : ChainParams)
    (s t : list byte) :
  0 <= SECRET_KEY p <= 255 -> length s = 32%nat -> ec_set_secretbytes s = Ok () ->
  exists k,
    CTelestaiSecret_new p
      (CBase58Data_str {| b58_data := s ++ t; nVersion := SECRET_KEY p |}) = Ok k ∧
    key_secret (sec_key k) = s ∧
    key_compressed (sec_key k) = bool_decide (head t = Some x01) ∧
    b58_data (sec_base k) = s ++ t.
Proof.
  intros Hv Hl Hok. unfold CTelestaiSecret_new, CBase58Data_str. cbn [b58_data nVersion].
  rewrite CBase58Data_new_encode by done. rewrite bind_Ok.
  unfold CTelestaiSecret_init. cbn [b58_data nVersion].
  destruct (decide (SECRET_KEY p ≠ SECRET_KEY p)); [done|].
  rewrite slice_0_app by done. unfold CKey_init. rewrite Hok, !bind_Ok.
  eexists. split; [reflexivity|]. simpl. split; [done|]. split; [|done].
  rewrite lookup_app_r, Hl, length_app, Hl by lia.
  replace (32 - 32)%nat with 0%nat by lia.
  destruct t as [|c t]; simpl; [done|].
  apply bool_decide_ext. done.
Qed.

(** A scalar followed by the three bytes 2, 1, 1: an uncompressed key. *)
Lemma secret_payload_unchecked_witness :
  exists k,
    @CTelestaiSecret_new demo_crypto MainParams
      (@CBase58Data_str demo_crypto
         {| b58_data := demo_secret ++ [x02; x01; x01]; nVersion := 128 |}) = Ok k ∧
    key_secret (sec_key k) = demo_secret ∧
    key_compressed (sec_key k) = bool_decide (head [x02; x01; x01] = Some x01) ∧
    b58_data (sec_base k) = demo_secret ++ [x02; x01; x01].
Proof.
  apply (@secret_payload_unchecked demo_crypto demo_crypto_laws MainParams
           demo_secret [x02; x01; x01]).
  - simpl. lia.
  - reflexivity.
  - reflexivity.
Defined.

(** ** Addresses and their strings *)

Lemma CBase58Data_new_cls_encode `{Crypto, !CryptoLaws} {A}
    (from_bytes : list byte -> Z -> result A) (v : Z) (payload : list byte) :
  0 <= v <= 255 ->
  CBase58Data_new_cls from_bytes
    (Base58.encode ((byte_of_Z v :: payload) ++ take 4 (Hash (byte_of_Z v :: payload))))
  = from_bytes payload v.
Proof.
  intros Hv. unfold CBase58Data_new_cls. rewrite base58_decode_encode, bind_Ok.
  set (body := byte_of_Z v :: payload).
  assert (Hc : length (take 4 (Hash body)) = 4%nat)
    by (rewrite length_take, Hash_length; lia).
  rewrite length_app, Hc.
  destruct (decide _) as [Hlt|_]; [lia|].
  replace (length body + 4 - 4)%nat with (length body) by lia.
  rewrite take_app_length, drop_app_length.
  destruct (decide _) as [_|Hne]; [|done].
  unfold body. by rewrite Z_of_byte_of_Z by lia.
Qed.

Lemma CBase58TelestaiAddress_from_bytes_Ok `{Crypto} p data v a :
  CBase58TelestaiAddress_from_bytes p data v = Ok a ->
  0 <= v <= 255 ∧
  ((v = SCRIPT_ADDR p ∧
    a = Base58Address P2SHTelestaiAddress {| b58_data := data; nVersion := v |}) ∨
   (v ≠ SCRIPT_ADDR p ∧ v = PUBKEY_ADDR p ∧
    a = Base58Address P2PKHTelestaiAddress {| b58_data := data; nVersion := v |})).
Proof.
  unfold CBase58TelestaiAddress_from_bytes, CBase58Data_from_bytes.
  destruct (decide (0 <= v <= 255)); [|done]. rewrite bind_Ok.
  destruct (decide (v = SCRIPT_ADDR p)); [intros [= <-]; auto|].
  destruct (decide (v = PUBKEY_ADDR p)); [intros [= <-]; auto|done].
Qed.

(** Reading the string of an address made by [from_bytes] hands its
    payload and version to [from_bytes] again, on the parameters of the
    reader. *)
Lemma CTelestaiAddress_new_str `{Crypto, !CryptoLaws} (p q : ChainParams) data v a :
  CBase58TelestaiAddress_from_bytes p data v = Ok a ->
  CTelestaiAddress_new q (address_str p a) =
  CBase58TelestaiAddress_from_bytes q data v.
Proof.
  intros Ha. apply CBase58TelestaiAddress_from_bytes_Ok in Ha as [Hv Ha].
  assert (Hs : address_str p a
    = Base58.encode ((byte_of_Z v :: data) ++ take 4 (Hash (byte_of_Z v :: data))))
    by (destruct Ha as [(_ & ->)|(_ & _ & ->)]; reflexivity).
  unfold CTelestaiAddress_new, CBase58TelestaiAddress_new.
  rewrite Hs, CBase58Data_new_cls_encode by done.
  unfold CBase58TelestaiAddress_from_bytes, CBase58Data_from_bytes.
  destruct (decide (0 <= v <= 255)); [|done]. rewrite bind_Ok.
  repeat destruct (decide _); reflexivity.
Qed.

(** X6.  Every address [from_bytes] makes is read back from its
    string: [CTelestaiAddress(str(a))] is [a], class, bytes and version. *)
Theorem address_str_roundtrip `{Crypto, !CryptoLaws} (p : ChainParams)
    (data : list byte) (v : Z) (a : address) :
  CBase58TelestaiAddress_from_bytes p data v = Ok a ->
  CTelestaiAddress_new p (address_str p a) = Ok a.
Proof. intros Ha. by rewrite (CTelestaiAddress_new_str p p data v a Ha). Qed.

Lemma address_str_roundtrip_witness :
  @CTelestaiAddress_new demo_crypto MainParams
    (@address_str demo_crypto MainParams (P2PKH_address MainParams (repeat x07 20)))
  = Ok (P2PKH_address MainParams (repeat x07 20)).
Proof.
  apply (@address_str_roundtrip demo_crypto demo_crypto_laws MainParams
           (repeat x07 20) 66).
  reflexivity.
Defined.

(** X7.  The string of an address is bound to the version bytes
    of the reader.  Under parameters that know neither version the
    string is refused with the address error; under parameters with the
    same two version bytes it is read as the same address. *)
Theorem address_network_binding `{Crypto, !CryptoLaws} (p q : ChainParams)
    (data : list byte) (v : Z) (a : address) :
  CBase58TelestaiAddress_from_bytes p data v = Ok a ->
  (v ≠ SCRIPT_ADDR q -> v ≠ PUBKEY_ADDR q ->
     CTelestaiAddress_new q (address_str p a) = Raise CTelestaiAddressError) ∧
  (SCRIPT_ADDR q = SCRIPT_ADDR p -> PUBKEY_ADDR q = PUBKEY_ADDR p ->
     CTelestaiAddress_new q (address_str p a) = Ok a).
Proof.
  intros Ha. rewrite (CTelestaiAddress_new_str p q data v a Ha). split.
  - intros Hs Hk. apply CBase58TelestaiAddress_from_bytes_Ok in Ha as [Hv _].
    unfold CBase58TelestaiAddress_from_bytes, CBase58Data_from_bytes.
    destruct (decide (0 <= v <= 255)); [|done]. rewrite bind_Ok.
    by repeat destruct (decide _).
  - intros Hs Hk. rewrite <- Ha.
    unfold CBase58TelestaiAddress_from_bytes. by rewrite Hs, Hk.
Qed.

(** A main-network address on the test network, and a test-network
    address on the regression-test network. *)
Lemma address_network_binding_witness :
  @CTelestaiAddress_new demo_crypto TestNetParams
    (@address_str demo_crypto MainParams (P2PKH_address MainParams (repeat x07 20)))
  = Raise CTelestaiAddressError ∧
  @CTelestaiAddress_new demo_crypto RegTestParams
    (@address_str demo_crypto TestNetParams (P2SH_address TestNetParams (repeat x07 20)))
  = Ok (P2SH_address TestNetParams (repeat x07 20)).
Proof.
  split.
  - apply (@address_network_binding demo_crypto demo_crypto_laws MainParams TestNetParams
             (repeat x07 20) 66); [reflexivity|simpl; lia|simpl; lia].
  - apply (@address_network_binding demo_crypto demo_crypto_laws TestNetParams RegTestParams
             (repeat x07 20) 196); reflexivity.
Defined.

(** The script constructor raises nothing but the [ValueError] of a push
    that is too long. *)
Lemma CScript_exn es e : Script.CScript es = Raise e -> e = ValueError.
Proof.
  induction es as [|x es IH]; simpl; [done|].
  destruct (Script.coerce_instance x) as [b|e'] eqn:Ex.
  - rewrite bind_Ok. destruct (Script.CScript es) as [bs|e'']; [done|].
    intros [= <-]. by apply IH.
  - intros [= <-]. destruct x as [op|d]; [done|]. simpl in Ex.
    unfold Script.encode_op_pushdata in Ex.
    repeat destruct (decide _); try done. by injection Ex.
Qed.

(** X8.  An address made by [from_bytes] under parameters [p] fails the
    assertion of [to_scriptPubKey] under parameters [q] exactly when the
    version byte [q] has for the class of the address differs from the
    one the address carries; the version byte of the other class plays
    no part. *)
Theorem to_scriptPubKey_network_mismatch `{Crypto} (p q : ChainParams)
    (data : list byte) (v : Z) (a : address) :
  CBase58TelestaiAddress_from_bytes p data v = Ok a ->
  (to_scriptPubKey q a = Raise AssertionError <->
   (if decide (v = SCRIPT_ADDR p) then SCRIPT_ADDR q else PUBKEY_ADDR q) ≠ v).
Proof.
  intros Ha. apply CBase58TelestaiAddress_from_bytes_Ok in Ha as [_ Ha].
  destruct Ha as [(Hv & ->)|(Hv & _ & ->)]; cbn [to_scriptPubKey nVersion b58_data].
  - destruct (decide (v = SCRIPT_ADDR p)); [|done].
    destruct (decide (v = SCRIPT_ADDR q)) as [Hq|Hq].
    + split; [|by intros Hne; destruct Hne]. intros He. by apply CScript_exn in He.
    + split; [by intros _ Hne; destruct Hq|done].
  - destruct (decide (v = SCRIPT_ADDR p)); [done|].
    destruct (decide (v = PUBKEY_ADDR q)) as [Hq|Hq].
    + split; [|by intros Hne; destruct Hne]. intros He. by apply CScript_exn in He.
    + split; [by intros _ Hne; destruct Hq|done].
Qed.

(** A main-network address after [SelectParams("testnet")]. *)
Lemma to_scriptPubKey_network_mismatch_witness :
  to_scriptPubKey (params (SelectParams "testnet" initial_globals).2)
    (P2PKH_address (params initial_globals) (repeat x07 20))
  = Raise AssertionError.
Proof.
  apply (proj2 (@to_scriptPubKey_network_mismatch demo_crypto MainParams TestNetParams
                  (repeat x07 20) 66 _ eq_refl)).
  simpl. lia.
Defined.

(** ** Reading back what the script constructor wrote *)

Lemma read_elem_pushdata (op : byte) (w : nat) d rest :
  (op = Script.OP_PUSHDATA1 ∧ w = 1%nat) ∨ (op = Script.OP_PUSHDATA2 ∧ w = 2%nat)
    ∨ (op = Script.OP_PUSHDATA4 ∧ w = 4%nat) ->
  0 < Z.of_nat (length d) < 256 ^ Z.of_nat w ->
  Script.read_elem op (Script.le_bytes w (Z.of_nat (length d)) ++ d ++ rest)
  = Ok (Script.EData d, rest).
Proof.
  intros Hop Hd. unfold Script.read_elem.
  assert (Hw : (if decide (op = Script.OP_PUSHDATA1) then 1%nat
                else if decide (op = Script.OP_PUSHDATA2) then 2%nat else 4%nat) = w).
  { destruct Hop as [[-> ->]|[[-> ->]|[-> ->]]]; reflexivity. }
  assert (Ho : ¬ Z_of_byte Script.OP_PUSHDATA4 < Z_of_byte op
               ∧ ¬ Z_of_byte op < Z_of_byte Script.OP_PUSHDATA1 ∧ Z_of_byte op ≠ 0).
  { destruct Hop as [[-> ->]|[[-> ->]|[-> ->]]]; by compute. }
  destruct Ho as (H1 & H2 & H3).
  destruct (decide (Z_of_byte Script.OP_PUSHDATA4 < Z_of_byte op)); [done|].
  destruct (decide (Z_of_byte op < Z_of_byte Script.OP_PUSHDATA1)); [done|].
  rewrite Hw.
  destruct (decide (_ < _)%nat) as [Hl|_];
    [rewrite length_app, le_bytes_length in Hl; lia|].
  rewrite bind_Ok.
  pose proof (le_bytes_length w (Z.of_nat (length d))) as Hlw.
  symmetry in Hlw.
  rewrite (take_app_length' _ _ w Hlw), (drop_app_length' _ _ w Hlw).
  rewrite le_int_le_bytes by lia. rewrite Nat2Z.id.
  rewrite take_app_length, drop_app_length.
  destruct (decide (_ < _)%nat); [lia|].
  destruct (decide (Z_of_byte op = 0)); done.
Qed.

Lemma read_elem_coerce e b rest :
  elem_buildable e -> Script.coerce_instance e = Ok b -> b ≠ [] ∧
  match b ++ rest with
  | [] => False
  | op :: tail => Script.read_elem op tail = Ok (elem_read e, rest)
  end.
Proof.
  destruct e as [op|d]; simpl.
  - intros Hop [= <-]. split; [done|]. simpl.
    destruct Hop as [->|Hop]; [apply read_elem_zero|by apply read_elem_op].
  - intros Hd. unfold Script.encode_op_pushdata.
    destruct d as [|c d'] eqn:Ed.
    { simpl. intros [= <-]. split; [done|]. apply read_elem_zero. }
    rewrite <- Ed in *. assert (Hpos : 0 < Z.of_nat (length d)) by (subst d; simpl; lia).
    replace (match d with [] => Script.EOp x00 | _ :: _ => Script.EData d end)
      with (Script.EData d) by (by subst d).
    destruct (decide (Z.of_nat (length d) < 76)).
    { intros [= <-]. split; [done|]. simpl. by apply read_elem_push. }
    destruct (decide (Z.of_nat (length d) <= 255)).
    { intros [= <-]. split; [done|].
      apply (read_elem_pushdata Script.OP_PUSHDATA1 1 d rest); [auto|simpl; lia]. }
    destruct (decide (Z.of_nat (length d) <= 65535)).
    { intros [= <-]. split; [done|].
      apply (read_elem_pushdata Script.OP_PUSHDATA2 2 d rest); [auto|simpl; lia]. }
    destruct (decide (Z.of_nat (length d) <= 4294967295)); [|done].
    intros [= <-]. split; [done|].
    apply (read_elem_pushdata Script.OP_PUSHDATA4 4 d rest); [auto|simpl; lia].
Qed.

Lemma iter_CScript es : forall b,
  Forall elem_buildable es -> Script.CScript es = Ok b ->
  Script.iter (length b) b = Ok (map elem_read es).
Proof.
  induction es as [|e es IH]; intros b Hes; simpl.
  - by intros [= <-].
  - inversion Hes as [|? ? He Hes']; subst.
    destruct (Script.coerce_instance e) as [be|] eqn:Ee; [|done]. rewrite bind_Ok.
    destruct (Script.CScript es) as [bs|] eqn:Ebs; [|done]. rewrite bind_Ok.
    intros [= <-].
    destruct (read_elem_coerce e be bs He Ee) as [Hne Hr].
    destruct (be ++ bs) as [|op tail] eqn:Eb; [done|].
    assert (Hlen : (length bs <= length tail)%nat).
    { apply (f_equal length) in Eb. rewrite length_app in Eb. simpl in Eb.
      destruct be; [done|]. simpl in Eb. lia. }
    simpl length. rewrite (iter_cons _ _ _ _ _ Hr).
    rewrite (iter_fuel (length tail) (length bs) bs) by lia.
    by rewrite (IH bs Hes' eq_refl), bind_Ok.
Qed.

Lemma CScript_elem_read es : Script.CScript (map elem_read es) = Script.CScript es.
Proof.
  induction es as [|e es IH]; simpl; [reflexivity|]. rewrite IH.
  by destruct e as [op|[|c d]].
Qed.

(** A script the constructor wrote is already canonical. *)
Lemma canonicalize_CScript es b :
  Forall elem_buildable es -> Script.CScript es = Ok b -> Script.canonicalize b = Ok b.
Proof.
  intros Hes Hb. unfold Script.canonicalize.
  by rewrite (iter_CScript es b Hes Hb), bind_Ok, CScript_elem_read.
Qed.

(** ** Payloads that are not 20 bytes long *)

Lemma encode_op_pushdata_length d pb :
  Script.encode_op_pushdata d = Ok pb -> length d ≠ 20%nat -> length pb ≠ 21%nat.
Proof.
  unfold Script.encode_op_pushdata. intros Hpb Hd.
  repeat destruct (decide _); try done; injection Hpb as <-; simpl;
    rewrite ?length_app, ?le_bytes_length; lia.
Qed.

Section AddressLengths.
Context `{Crypto}.
Variable p : ChainParams.
Hypothesis Hp : params_ok p.

(** A canonical script whose first byte and length fit none of the
    templates is refused. *)
Lemma from_scriptPubKey_head c t :
  Script.canonicalize (c :: t) = Ok (c :: t) ->
  length (c :: t) ≠ 23%nat ∨ (c ≠ xa9 ∧ c ≠ x16) ->
  length (c :: t) ≠ 25%nat ∨ c ≠ x76 ->
  c ≠ x00 -> c ≠ x21 -> c ≠ x41 ->
  CTelestaiAddress_from_scriptPubKey p (c :: t) = Raise CTelestaiAddressError.
Proof using Hp.
  intros Hc H23 H25 H0 H21 H41.
  rewrite CTelestaiAddress_from_scriptPubKey_eq, P2PKH_from_scriptPubKey_eq, Hc by done.
  assert (E1 : Script.is_p2sh (c :: t) = false).
  { unfold Script.is_p2sh. destruct H23 as [Hl|[Hl _]].
    - by rewrite (bool_decide_eq_false_2 _ Hl).
    - rewrite (bool_decide_eq_false_2 (_ !! 0%nat = _)); [by rewrite andb_false_r|].
      simpl. by intros [= ->]. }
  assert (E2 : Script.is_witness_v0_keyhash (c :: t) = false).
  { unfold Script.is_witness_v0_keyhash, slice.
    rewrite (bool_decide_eq_false_2 (_ = [_; _])); [by rewrite andb_false_r|].
    simpl. by intros [= -> _]. }
  assert (E3 : Script.is_witness_v0_nested_keyhash (c :: t) = false).
  { unfold Script.is_witness_v0_nested_keyhash, slice. destruct H23 as [Hl|[_ Hl]].
    - by rewrite (bool_decide_eq_false_2 _ Hl).
    - rewrite (bool_decide_eq_false_2 (_ = [_; _; _])); [by rewrite andb_false_r|].
      simpl. by intros [= -> _]. }
  assert (E4 : is_p2pkh_template (c :: t) = false).
  { unfold is_p2pkh_template. destruct H25 as [Hl|Hl].
    - by rewrite (bool_decide_eq_false_2 _ Hl).
    - rewrite (bool_decide_eq_false_2 (_ !! 0%nat = _)); [by rewrite andb_false_r|].
      simpl. by intros [= ->]. }
  assert (E5 : is_bare_checksig_compressed (c :: t) = false).
  { unfold is_bare_checksig_compressed.
    rewrite (bool_decide_eq_false_2 (_ !! 0%nat = _)); [by rewrite andb_false_r|].
    simpl. by intros [= ->]. }
  assert (E6 : is_bare_checksig_uncompressed (c :: t) = false).
  { unfold is_bare_checksig_uncompressed.
    rewrite (bool_decide_eq_false_2 (_ !! 0%nat = _)); [by rewrite andb_false_r|].
    simpl. by intros [= ->]. }
  by rewrite E1, E2, E3, E4, E5, E6.
Qed.

Lemma to_scriptPubKey_P2SH_any h :
  Z.of_nat (length h) <= 0xffffffff ->
  exists pb, Script.encode_op_pushdata h = Ok pb ∧
    to_scriptPubKey p (P2SH_address p h) = Ok (xa9 :: pb ++ [x87]) ∧
    Script.canonicalize (xa9 :: pb ++ [x87]) = Ok (xa9 :: pb ++ [x87]).
Proof using Type.
  intros Hh.
  pose proof (CScript_fits [Script.EData h]) as Hf. simpl in Hf.
  destruct (Script.encode_op_pushdata h) as [pb|] eqn:Epb;
    [|by discriminate Hf; repeat constructor].
  clear Hf. exists pb. split; [done|].
  assert (Hs : Script.CScript [Script.EOp Script.OP_HASH160; Script.EData h;
                               Script.EOp Script.OP_EQUAL] = Ok (xa9 :: pb ++ [x87])).
  { simpl. by rewrite Epb. }
  split.
  - unfold to_scriptPubKey, P2SH_address. simpl nVersion. simpl b58_data.
    by destruct (decide _).
  - eapply canonicalize_CScript; [|exact Hs].
    repeat constructor; solve [done | right; by compute].
Qed.

Lemma to_scriptPubKey_P2PKH_any h :
  Z.of_nat (length h) <= 0xffffffff ->
  exists pb, Script.encode_op_pushdata h = Ok pb ∧
    to_scriptPubKey p (P2PKH_address p h) = Ok (x76 :: xa9 :: pb ++ [x88; xac]) ∧
    Script.canonicalize (x76 :: xa9 :: pb ++ [x88; xac])
    = Ok (x76 :: xa9 :: pb ++ [x88; xac]).
Proof using Type.
  intros Hh.
  pose proof (CScript_fits [Script.EData h]) as Hf. simpl in Hf.
  destruct (Script.encode_op_pushdata h) as [pb|] eqn:Epb;
    [|by discriminate Hf; repeat constructor].
  clear Hf. exists pb. split; [done|].
  assert (Hs : Script.CScript [Script.EOp Script.OP_DUP; Script.EOp Script.OP_HASH160;
                               Script.EData h; Script.EOp Script.OP_EQUALVERIFY;
                               Script.EOp Script.OP_CHECKSIG]
               = Ok (x76 :: xa9 :: pb ++ [x88; xac])).
  { simpl. by rewrite Epb. }
  split.
  - unfold to_scriptPubKey, P2PKH_address. simpl nVersion. simpl b58_data.
    by destruct (decide _).
  - eapply canonicalize_CScript; [|exact Hs].
    repeat constructor; solve [done | right; by compute].
Qed.

End AddressLengths.

(** X9.  [from_bytes] takes a payload of any length, and the address
    it makes has a scriptPubKey; unless the payload is 20 bytes long, no
    template of [from_scriptPubKey] fits that script, which is refused
    with [CTelestaiAddressError], for both base-58 classes. *)
Theorem script_roundtrip_needs_20_bytes `{Crypto} (p : ChainParams) (h : list byte) :
  params_ok p -> length h ≠ 20%nat -> Z.of_nat (length h) <= 0xffffffff ->
  (exists s,
     CBase58TelestaiAddress_from_bytes p h (SCRIPT_ADDR p) = Ok (P2SH_address p h) ∧
     to_scriptPubKey p (P2SH_address p h) = Ok s ∧
     CTelestaiAddress_from_scriptPubKey p s = Raise CTelestaiAddressError) ∧
  (exists s,
     CBase58TelestaiAddress_from_bytes p h (PUBKEY_ADDR p) = Ok (P2PKH_address p h) ∧
     to_scriptPubKey p (P2PKH_address p h) = Ok s ∧
     CTelestaiAddress_from_scriptPubKey p s = Raise CTelestaiAddressError).
Proof.
  intros Hp Hh Hfit. split.
  - destruct (to_scriptPubKey_P2SH_any p h Hfit) as (pb & Epb & Hs & Hc).
    pose proof (encode_op_pushdata_length h pb Epb Hh) as Hl.
    exists (xa9 :: pb ++ [x87]).
    split; [by apply CBase58_from_bytes_script|]. split; [done|].
    apply from_scriptPubKey_head; try done.
    + left. simpl. rewrite length_app. simpl. lia.
    + by right.
  - destruct (to_scriptPubKey_P2PKH_any p h Hfit) as (pb & Epb & Hs & Hc).
    pose proof (encode_op_pushdata_length h pb Epb Hh) as Hl.
    exists (x76 :: xa9 :: pb ++ [x88; xac]).
    split; [by apply CBase58_from_bytes_pubkey|]. split; [done|].
    apply from_scriptPubKey_head; try done.
    + by right.
    + left. simpl. rewrite length_app. simpl. lia.
Qed.

Lemma script_roundtrip_needs_20_bytes_witness :
  (exists s,
     @CBase58TelestaiAddress_from_bytes MainParams (repeat x07 32) 127
       = Ok (P2SH_address MainParams (repeat x07 32)) ∧
     to_scriptPubKey MainParams (P2SH_address MainParams (repeat x07 32)) = Ok s ∧
     @CTelestaiAddress_from_scriptPubKey demo_crypto MainParams s
       = Raise CTelestaiAddressError) ∧
  (exists s,
     @CBase58TelestaiAddress_from_bytes MainParams (repeat x07 32) 66
       = Ok (P2PKH_address MainParams (repeat x07 32)) ∧
     to_scriptPubKey MainParams (P2PKH_address MainParams (repeat x07 32)) = Ok s ∧
     @CTelestaiAddress_from_scriptPubKey demo_crypto MainParams s
       = Raise CTelestaiAddressError).
Proof.
  apply (@script_roundtrip_needs_20_bytes demo_crypto MainParams (repeat x07 32)).
  - unfold params_ok. simpl. lia.
  - simpl. lia.
  - simpl. lia.
Defined.

(** ** Scripts and the addresses read from them *)

Lemma slice_length {A} (i j : nat) (l : list A) :
  (j <= length l)%nat -> length (slice i j l) = (j - i)%nat.
Proof. intros Hl. unfold slice. rewrite length_take, length_drop. lia. Qed.

Lemma bool_decide_and_l (P : Prop) `{Decision P} (b : bool) :
  bool_decide P && b = true -> P.
Proof. intros [HP _]%andb_true_iff. by apply bool_decide_eq_true in HP. Qed.

Section AddressScripts.
Context `{Crypto}.
Variable p : ChainParams.
Hypothesis Hp : params_ok p.

Lemma from_scriptPubKey_bare_compressed pk :
  length pk = 33%nat ->
  CTelestaiAddress_from_scriptPubKey p (x21 :: pk ++ [xac])
  = Ok (P2PKH_address p (Hash160 pk)).
Proof using Hp.
  intros Hl.
  rewrite CTelestaiAddress_from_scriptPubKey_eq, P2PKH_from_scriptPubKey_eq by done.
  assert (Hs : Script.CScript [Script.EData pk; Script.EOp xac] = Ok (x21 :: pk ++ [xac])).
  { simpl. rewrite encode_op_pushdata_short by (rewrite Hl; lia). by rewrite Hl. }
  assert (Hc : Script.canonicalize (x21 :: pk ++ [xac]) = Ok (x21 :: pk ++ [xac])).
  { eapply canonicalize_CScript; [|exact Hs].
    repeat constructor; solve [simpl; lia | right; by compute]. }
  rewrite Hc.
  assert (Hlen : length (x21 :: pk ++ [xac]) = 35%nat)
    by (simpl; rewrite length_app, Hl; reflexivity).
  assert (H34 : (x21 :: pk ++ [xac]) !! 34%nat = Some xac).
  { change 34%nat with (1 + 33)%nat. simpl.
    rewrite lookup_app_r by lia. by rewrite Hl. }
  unfold Script.is_p2sh, Script.is_witness_v0_keyhash,
    Script.is_witness_v0_nested_keyhash, is_p2pkh_template,
    is_bare_checksig_compressed.
  rewrite Hlen, H34. simpl. unfold slice. simpl.
  rewrite drop_0. rewrite <- Hl at 1. by rewrite take_app_length.
Qed.

(** Every address read from a script has a 20-byte payload, given that
    [Hash160] gives 20 bytes. *)
Lemma from_scriptPubKey_payload s a :
  (forall x, length (Hash160 x) = 20%nat) ->
  CTelestaiAddress_from_scriptPubKey p s = Ok a ->
  exists h, length h = 20%nat ∧ (a = P2SH_address p h ∨ a = P2PKH_address p h).
Proof using Hp.
  intros H160.
  rewrite CTelestaiAddress_from_scriptPubKey_eq, P2PKH_from_scriptPubKey_eq by done.
  destruct (Script.is_p2sh s) eqn:E1.
  { intros [= <-]. exists (slice 2 22 s). split; [|by left].
    unfold Script.is_p2sh in E1. rewrite <- !andb_assoc in E1.
    apply bool_decide_and_l in E1. apply slice_length. lia. }
  destruct (Script.canonicalize s) as [c|]; [|done].
  destruct (Script.is_witness_v0_keyhash c) eqn:E2.
  { intros [= <-]. exists (slice 2 22 c). split; [|by right].
    apply bool_decide_and_l in E2. apply slice_length. lia. }
  destruct (Script.is_witness_v0_nested_keyhash c) eqn:E3.
  { intros [= <-]. exists (slice 3 23 c). split; [|by right].
    apply bool_decide_and_l in E3. apply slice_length. lia. }
  destruct (is_p2pkh_template c) eqn:E4.
  { intros [= <-]. exists (slice 3 23 c). split; [|by right].
    unfold is_p2pkh_template in E4. rewrite <- !andb_assoc in E4.
    apply bool_decide_and_l in E4. apply slice_length. lia. }
  destruct (is_bare_checksig_compressed c).
  { intros [= <-]. eexists. split; [apply H160|by right]. }
  destruct (is_bare_checksig_uncompressed c); [|done].
  intros [= <-]. eexists. split; [apply H160|by right].
Qed.

End AddressScripts.

(** X10.  An address that [from_scriptPubKey] reads from a script has
    a scriptPubKey of its own, and reading that one gives the same
    address again, whatever template the first script matched. *)
Theorem from_scriptPubKey_stable `{Crypto} (p : ChainParams) (s : list byte) (a : address) :
  params_ok p -> (forall x, length (Hash160 x) = 20%nat) ->
  CTelestaiAddress_from_scriptPubKey p s = Ok a ->
  exists s', to_scriptPubKey p a = Ok s' ∧ CTelestaiAddress_from_scriptPubKey p s' = Ok a.
Proof.
  intros Hp H160 Ha.
  destruct (from_scriptPubKey_payload p Hp s a H160 Ha) as (h & Hh & [->| ->]).
  - exists (p2sh_script h).
    split; [by apply to_scriptPubKey_P2SH|by apply from_scriptPubKey_p2sh_script].
  - exists (p2pkh_script h).
    split; [by apply to_scriptPubKey_P2PKH|by apply from_scriptPubKey_p2pkh_script].
Qed.

(** The nested key-hash form [0x16 0x00 0x14 <20 bytes>], read as a
    P2PKH address whose own script is the P2PKH template. *)
Lemma from_scriptPubKey_stable_witness :
  exists s',
    to_scriptPubKey MainParams (P2PKH_address MainParams (repeat x07 20)) = Ok s' ∧
    @CTelestaiAddress_from_scriptPubKey demo_crypto MainParams s'
    = Ok (P2PKH_address MainParams (repeat x07 20)).
Proof.
  apply (@from_scriptPubKey_stable demo_crypto MainParams
           (x16 :: x00 :: x14 :: repeat x07 20)).
  - unfold params_ok. simpl. lia.
  - intros x. apply demo_pad_length.
  - reflexivity.
Defined.

(** X11.  A bare-checksig script with a 33-byte key gives the address
    that [from_pubkey] gives for that key with [accept_invalid], so
    without asking whether the key is valid; with a 65-byte key the script
    gives the address of the hash of the key's first 64 bytes only. *)
Theorem bare_checksig_addresses `{Crypto} (p : ChainParams) (pk pk' : list byte) :
  params_ok p -> length pk = 33%nat -> length pk' = 65%nat ->
  CTelestaiAddress_from_scriptPubKey p (x21 :: pk ++ [xac]) = P2PKH_from_pubkey p pk true ∧
  CTelestaiAddress_from_scriptPubKey p (x41 :: pk' ++ [xac])
  = P2PKH_from_pubkey p (take 64 pk') true.
Proof.
  intros Hp Hl Hl'. rewrite !P2PKH_from_pubkey_invalid_ok by done. split.
  - by apply from_scriptPubKey_bare_compressed.
  - by apply bare_checksig_uncompressed_hash.
Qed.

Lemma bare_checksig_addresses_witness :
  @CTelestaiAddress_from_scriptPubKey demo_crypto MainParams
     (x21 :: repeat x02 33 ++ [xac])
  = @P2PKH_from_pubkey demo_crypto MainParams (repeat x02 33) true ∧
  @CTelestaiAddress_from_scriptPubKey demo_crypto MainParams
     (x41 :: repeat x04 65 ++ [xac])
  = @P2PKH_from_pubkey demo_crypto MainParams (take 64 (repeat x04 65)) true.
Proof.
  apply (@bare_checksig_addresses demo_crypto MainParams (repeat x02 33) (repeat x04 65)).
  - unfold params_ok. simpl. lia.
  - reflexivity.
  - reflexivity.
Defined.

(** ** The bech32 classes *)

Lemma to_scriptPubKey_bech32 (p : ChainParams) c prog :
  (length prog < 0x4c)%nat ->
  to_scriptPubKey p (Bech32Address c 0 prog) = Ok (witness_v0_script prog).
Proof.
  intros Hl. unfold to_scriptPubKey. destruct (decide (0 = 0)); [|done]. simpl.
  rewrite encode_op_pushdata_short by lia. simpl. by rewrite app_nil_r.
Qed.

Lemma bech32_from_witness_v0_script prog :
  CBech32TelestaiAddress_from_scriptPubKey (witness_v0_script prog) =
  if decide (length prog = 32%nat) then Ok (Bech32Address P2WSHTelestaiAddress 0 prog)
  else if decide (length prog = 20%nat) then Ok (Bech32Address P2WPKHTelestaiAddress 0 prog)
  else Raise CTelestaiAddressError.
Proof.
  unfold CBech32TelestaiAddress_from_scriptPubKey, P2WSH_from_scriptPubKey,
    P2WPKH_from_scriptPubKey, Script.is_witness_v0_scripthash,
    Script.is_witness_v0_keyhash, witness_v0_script, slice.
  simpl length. simpl drop. simpl take.
  destruct (decide (length prog = 32%nat)) as [E|E].
  - rewrite E. simpl. rewrite drop_0, take_ge by lia.
    unfold CBech32TelestaiAddress_from_bytes.
    destruct (decide (0 ≠ 0)); [done|]. by destruct (decide (length prog = 32%nat)).
  - rewrite (bool_decide_eq_false_2 (S (S (length prog)) = 34%nat)) by lia. simpl.
    destruct (decide (length prog = 20%nat)) as [E'|E'].
    + rewrite E'. simpl. rewrite drop_0, take_ge by lia.
      unfold CBech32TelestaiAddress_from_bytes.
      destruct (decide (0 ≠ 0)); [done|].
      destruct (decide (length prog = 32%nat)); [done|].
      by destruct (decide (length prog = 20%nat)).
    + by rewrite (bool_decide_eq_false_2 (S (S (length prog)) = 22%nat)) by lia.
Qed.

(** X12.  For the two bech32 classes, [from_scriptPubKey] and
    [to_scriptPubKey] are inverse to each other: a script gives an
    address exactly when that address is one [from_bytes] makes for
    witness version 0 and the script is its scriptPubKey. *)
Theorem bech32_script_inverse (p : ChainParams) (s : list byte) (a : address) :
  CBech32TelestaiAddress_from_scriptPubKey s = Ok a <->
  (exists prog, CBech32TelestaiAddress_from_bytes 0 prog = Ok a) ∧
  to_scriptPubKey p a = Ok s.
Proof.
  split.
  - intros Ha.
    assert (Hs : exists prog, s = witness_v0_script prog ∧
                  (length prog = 32%nat ∨ length prog = 20%nat)).
    { revert Ha. unfold CBech32TelestaiAddress_from_scriptPubKey,
        P2WSH_from_scriptPubKey, P2WPKH_from_scriptPubKey.
      destruct (Script.is_witness_v0_scripthash s) eqn:E1.
      - intros _. apply andb_true_iff in E1 as [Hl Hh].
        apply bool_decide_eq_true in Hl. apply bool_decide_eq_true in Hh.
        destruct (witness_v0_script_inv s 32 Hl ltac:(lia) Hh) as [Hw Hn]. eauto.
      - simpl try_except at 2.
        destruct (Script.is_witness_v0_keyhash s) eqn:E2; [|done].
        intros _. apply andb_true_iff in E2 as [Hl Hh].
        apply bool_decide_eq_true in Hl. apply bool_decide_eq_true in Hh.
        destruct (witness_v0_script_inv s 20 Hl ltac:(lia) Hh) as [Hw Hn]. eauto. }
    destruct Hs as (prog & -> & Hl).
    rewrite bech32_from_witness_v0_script in Ha.
    assert (Hb : CBech32TelestaiAddress_from_bytes 0 prog = Ok a).
    { unfold CBech32TelestaiAddress_from_bytes.
      by destruct (decide (0 ≠ 0)). }
    split; [by exists prog|].
    destruct (decide (length prog = 32%nat)).
    { injection Ha as <-. apply to_scriptPubKey_bech32. lia. }
    destruct (decide (length prog = 20%nat)); [|done].
    injection Ha as <-. apply to_scriptPubKey_bech32. lia.
  - intros [[prog Hb] Hs]. revert Hb Hs. unfold CBech32TelestaiAddress_from_bytes.
    destruct (decide (0 ≠ 0)); [done|].
    destruct (decide (length prog = 32%nat)) as [E|E].
    { intros [= <-]. rewrite to_scriptPubKey_bech32 by lia. intros [= <-].
      rewrite bech32_from_witness_v0_script. by destruct (decide _). }
    destruct (decide (length prog = 20%nat)) as [E'|E']; [|done].
    intros [= <-]. rewrite to_scriptPubKey_bech32 by lia. intros [= <-].
    rewrite bech32_from_witness_v0_script.
    destruct (decide (length prog = 32%nat)); [done|]. by destruct (decide _).
Qed.

(** ** Hexadecimal text *)

Lemma hex_byte (c : byte) :
  is_ascii_space (hex_digit (Z_of_byte c / 16)) = false ∧
  hex_value (hex_digit (Z_of_byte c / 16)) = Some (Z_of_byte c / 16) ∧
  hex_value (hex_digit (Z_of_byte c mod 16)) = Some (Z_of_byte c mod 16).
Proof. destruct c; vm_compute; done. Qed.

Lemma fromhex_pair c1 c2 h l rest :
  is_ascii_space c1 = false -> hex_value c1 = Some h -> hex_value c2 = Some l ->
  fromhex (c1 :: c2 :: rest) = (bs ← fromhex rest; Ok (byte_of_Z (h * 16 + l) :: bs)).
Proof. intros H1 H2 H3. cbn [fromhex]. by rewrite H1, H2, H3. Qed.

Lemma hexlify_cons c b :
  hexlify (c :: b)
  = hex_digit (Z_of_byte c / 16) :: hex_digit (Z_of_byte c mod 16) :: hexlify b.
Proof. reflexivity. Qed.

Lemma hexlify_app a b : hexlify (a ++ b) = hexlify a ++ hexlify b.
Proof. unfold hexlify. apply bind_app. Qed.

Lemma fromhex_hexlify b : fromhex (hexlify b) = Ok b.
Proof.
  induction b as [|c b IH]; [reflexivity|].
  destruct (hex_byte c) as (Hs & Hh & Hl).
  rewrite hexlify_cons, (fromhex_pair _ _ _ _ _ Hs Hh Hl), IH, bind_Ok.
  rewrite Z.mul_comm, <- Z.div_mod by lia. by rewrite byte_of_Z_of_byte.
Qed.

Lemma hexlify_take (n : nat) b : take (2 * n) (hexlify b) = hexlify (take n b).
Proof.
  revert b. induction n as [|n IH]; intros b; [reflexivity|].
  destruct b as [|c b]; [reflexivity|].
  replace (2 * S n)%nat with (S (S (2 * n))) by lia.
  rewrite hexlify_cons. cbn [take]. rewrite hexlify_cons. by rewrite IH.
Qed.

Lemma hexlify_length b : length (hexlify b) = (2 * length b)%nat.
Proof.
  induction b as [|c b IH]; [reflexivity|].
  rewrite hexlify_cons. simpl length. lia.
Qed.

Lemma hex_byte_lower (c : byte) :
  hex_digit (Z_of_byte c / 16) ∈ list_ascii_of_string HEX_DIGITS ∧
  hex_digit (Z_of_byte c mod 16) ∈ list_ascii_of_string HEX_DIGITS.
Proof.
  destruct c; split; apply (bool_decide_unpack _); by vm_compute.
Qed.

Lemma hexlify_lower b :
  Forall (fun c => c ∈ list_ascii_of_string HEX_DIGITS) (hexlify b).
Proof.
  induction b as [|c b IH]; [constructor|].
  destruct (hex_byte_lower c) as [Hh Hl].
  rewrite hexlify_cons. constructor; [exact Hh|]. constructor; [exact Hl|exact IH].
Qed.

(** X13.  When [to_scripthash] returns, the address is a P2SH
    address with a scriptPubKey, and the text is the lower-case hex of the
    SHA-256 digest of that script, bytes reversed: every character is one
    of [0123456789abcdef], there are two of them for each byte, and
    reading the hex back gives the reversed digest. *)
Theorem to_scripthash_hex (sha256 : list byte -> list byte) (p : ChainParams)
    (a : address) (t : string) :
  to_scripthash sha256 p a = Ok t ->
  exists d s, a = Base58Address P2SHTelestaiAddress d ∧
    to_scriptPubKey p a = Ok s ∧
    Forall (fun c => c ∈ list_ascii_of_string "0123456789abcdef")
      (list_ascii_of_string t) ∧
    length (list_ascii_of_string t) = (2 * length (sha256 s))%nat ∧
    fromhex (list_ascii_of_string t) = Ok (rev (sha256 s)).
Proof.
  unfold to_scripthash. destruct a as [[|] d|]; try done.
  destruct (to_scriptPubKey p (Base58Address P2SHTelestaiAddress d)) as [s|] eqn:Es;
    [|done].
  rewrite bind_Ok. intros [= <-]. exists d, s.
  rewrite list_ascii_of_string_of_list_ascii, fromhex_hexlify, hexlify_length, length_rev.
  split; [done|]. split; [done|]. split; [|done].
  apply (hexlify_lower (rev (sha256 s))).
Qed.

Lemma to_scripthash_hex_witness :
  exists d s, P2SH_address MainParams (repeat x07 20) = Base58Address P2SHTelestaiAddress d ∧
    to_scriptPubKey MainParams (P2SH_address MainParams (repeat x07 20)) = Ok s ∧
    Forall (fun c => c ∈ list_ascii_of_string "0123456789abcdef")
      (list_ascii_of_string
         "00000000000000000087070707070707070707070707070707070707070714a9") ∧
    length (list_ascii_of_string
      "00000000000000000087070707070707070707070707070707070707070714a9")
    = (2 * length (demo_pad 32 s))%nat ∧
    fromhex (list_ascii_of_string
      "00000000000000000087070707070707070707070707070707070707070714a9")
    = Ok (rev (demo_pad 32 s)).
Proof.
  apply (to_scripthash_hex (demo_pad 32) MainParams (P2SH_address MainParams (repeat x07 20))).
  reflexivity.
Defined.

(** ** The burn-address tool *)

(** The most significant digit of a number of [k + 1] digits. *)
Lemma divmod_loop_top base (k : nat) : forall fuel n,
  1 < base -> base ^ Z.of_nat k <= n < base ^ Z.of_nat (S k) -> (k < fuel)%nat ->
  exists ds, Base58.divmod_loop base fuel n = ds ++ [n / base ^ Z.of_nat k]
             ∧ length ds = k.
Proof.
  induction k as [|k IH]; intros fuel n Hb Hn Hf.
  - destruct fuel as [|f]; [lia|]. exists [].
    change (base ^ Z.of_nat 0) with 1 in *.
    change (Z.of_nat 1) with 1 in Hn. rewrite Z.pow_1_r in Hn.
    simpl. destruct (decide (0 < n)); [|lia].
    rewrite (Z.div_small n base) by lia. rewrite divmod_loop_zero.
    by rewrite Z.mod_small, Z.div_1_r by lia.
  - destruct fuel as [|f]; [lia|].
    assert (HP : 0 < base ^ Z.of_nat k) by (apply Z.pow_pos_nonneg; lia).
    rewrite (Nat2Z.inj_succ (S k)), Z.pow_succ_r in Hn by lia.
    rewrite (Nat2Z.inj_succ k), Z.pow_succ_r in Hn |- * by lia.
    assert (Hq : base ^ Z.of_nat k <= n / base < base ^ Z.of_nat (S k)).
    { rewrite Nat2Z.inj_succ, Z.pow_succ_r by lia.
      split; [apply Z.div_le_lower_bound; lia|apply Z.div_lt_upper_bound; lia]. }
    destruct (IH f (n / base) Hb Hq ltac:(lia)) as (ds & Hds & Hl).
    exists (n mod base :: ds). simpl.
    destruct (decide (0 < n)); [|nia].
    rewrite Hds, Z.div_div by lia. split; [done|by rewrite Hl].
Qed.

Lemma decode_int_lower cs : forall n0 n,
  0 <= n0 -> Base58.decode_int cs n0 = Ok n -> n0 * 58 ^ Z.of_nat (length cs) <= n.
Proof.
  induction cs as [|c cs IH]; intros n0 n Hn0; simpl.
  - intros [= <-]. change (58 ^ Z.of_nat 0) with 1. lia.
  - destruct (Base58.digit_index c) as [d|] eqn:Ed; [|done].
    apply digit_index_range in Ed.
    intros Hn. apply IH in Hn; [|lia].
    rewrite Nat2Z.inj_succ, Z.pow_succ_r by lia.
    assert (0 < 58 ^ Z.of_nat (length cs)) by (apply Z.pow_pos_nonneg; lia). nia.
Qed.

Lemma decode_int_total cs :
  Forall (fun c => is_Some (Base58.digit_index c)) cs ->
  forall n0, exists n, Base58.decode_int cs n0 = Ok n.
Proof.
  induction 1 as [|c cs [d Hd] Hcs IH]; intros n0; simpl; [by eexists|].
  rewrite Hd. apply IH.
Qed.

(** A 34-symbol string that starts with ["E"] decodes to 25 bytes, the
    first of which is 32, 33 or 34. *)
Lemma base58_decode_E cs :
  length cs = 33%nat -> Forall (fun c => is_Some (Base58.digit_index c)) cs ->
  exists v d, Base58.decode (string_of_list_ascii ("E"%char :: cs)) = Ok (v :: d)
              ∧ 32 <= Z_of_byte v <= 34 ∧ length d = 24%nat.
Proof.
  intros Hl Hcs. unfold Base58.decode.
  rewrite list_ascii_of_string_of_list_ascii. cbv iota.
  assert (Hd : Base58.decode_int ("E"%char :: cs) 0 = Base58.decode_int cs 13)
    by reflexivity.
  destruct (decode_int_total cs Hcs 13) as [n Hn]. rewrite Hd, Hn, bind_Ok.
  pose proof (decode_int_lower cs 13 n ltac:(lia) Hn) as Hlo.
  pose proof (decode_int_bound cs 13 n ltac:(lia) Hn) as [_ Hhi].
  rewrite Hl in Hlo, Hhi. change (Z.of_nat 33) with 33 in *.
  assert (H1 : 32 * 256 ^ 24 <= 13 * 58 ^ 33) by (by vm_compute).
  assert (H2 : (13 + 1) * 58 ^ 33 <= 35 * 256 ^ 24) by (by vm_compute).
  assert (H3 : 0 < 256 ^ 24) by (by vm_compute).
  assert (Hn' : 32 * 256 ^ 24 <= n < 35 * 256 ^ 24) by lia.
  clear Hlo Hhi H1 H2.
  assert (Ht : 32 <= n / 256 ^ 24 <= 34).
  { split; [apply Z.div_le_lower_bound; lia|].
    assert (n / 256 ^ 24 < 35) by (apply Z.div_lt_upper_bound; lia). lia. }
  destruct (divmod_loop_top 256 24 (length ("E"%char :: cs)) n) as (ds & Hds & Hlds).
  { lia. }
  { change (Z.of_nat 24) with 24. change (Z.of_nat 25) with 25.
    replace (256 ^ 25) with (256 * 256 ^ 24) by (by vm_compute). lia. }
  { simpl. lia. }
  change (Z.of_nat 24) with 24 in Hds.
  assert (Hpad : Base58.leading "1"%char
            (take (length ("E"%char :: cs) - 1) ("E"%char :: cs)) = 0%nat).
  { simpl length. rewrite Hl. reflexivity. }
  rewrite Hpad. unfold Base58.int_to_bytes. rewrite Hds, rev_unit.
  exists (byte_of_Z (n / 256 ^ 24)), (map byte_of_Z (rev ds)).
  split; [reflexivity|].
  rewrite Z_of_byte_of_Z by lia. split; [done|].
  by rewrite length_map, length_rev.
Qed.

Lemma burn_value (sha256 : list byte -> list byte) s v d :
  Base58.decode s = Ok (v :: d) -> length d = 24%nat ->
  burn sha256 s
  = Ok (Base58.encode (v :: take 20 d ++ take 4 (sha256 (sha256 (v :: take 20 d))))).
Proof.
  intros Hs Hl. unfold burn, b58dc, b58ec, hh256. rewrite Hs, !bind_Ok.
  assert (Ht : slice_to_minus 4 (v :: d) = v :: take 20 d).
  { unfold slice_to_minus. simpl length. rewrite Hl. reflexivity. }
  rewrite Ht. change 8%nat with (2 * 4)%nat.
  by rewrite hexlify_take, <- hexlify_app, fromhex_hexlify, bind_Ok.
Qed.

Lemma Forall_repeat {A} (P : A -> Prop) (x : A) n : P x -> Forall P (repeat x n).
Proof. intros Hx. induction n; simpl; by constructor. Qed.

Lemma pad_template_length t : length (pad_template t) = 34%nat.
Proof.
  unfold pad_template. destruct (decide _).
  - rewrite length_app, repeat_length. lia.
  - rewrite length_take. lia.
Qed.

Lemma pad_template_idem t : pad_template (pad_template t) = pad_template t.
Proof.
  unfold pad_template at 1. rewrite pad_template_length.
  destruct (decide _); [lia|]. apply take_ge. rewrite pad_template_length. lia.
Qed.

Lemma pad_template_E t0 :
  Forall (fun c => is_Some (index_from c ABET 0)) t0 ->
  exists cs, pad_template ("E"%char :: t0) = "E"%char :: cs ∧ length cs = 33%nat ∧
    Forall (fun c => is_Some (Base58.digit_index c)) cs.
Proof.
  intros Ht0. pose proof (pad_template_length ("E"%char :: t0)) as Hl. revert Hl.
  unfold pad_template. destruct (decide _).
  - rewrite <- app_comm_cons. intros _. eexists. split; [reflexivity|].
    split; [rewrite length_app, repeat_length; simpl in *; lia|].
    apply Forall_app. split; [exact Ht0|]. apply Forall_repeat. by eexists.
  - change (take 34 ("E"%char :: t0)) with ("E"%char :: take 33 t0).
    intros Hl. eexists. split; [reflexivity|].
    split; [simpl in Hl; lia|]. by apply Forall_take.
Qed.

Lemma check_and_pad_valid chars : forall t,
  Forall (fun c => is_Some (index_from c ABET 0)) chars -> chars ≠ [] ->
  check_and_pad chars t = Some (pad_template t).
Proof.
  induction chars as [|c chars IH]; intros t Hv Hne; [done|].
  inversion Hv as [|? ? [d Hd] Hv']; subst. cbn [check_and_pad]. rewrite Hd.
  destruct chars as [|c' chars']; [reflexivity|].
  rewrite IH by done. by rewrite pad_template_idem.
Qed.

Lemma check_and_pad_invalid chars : forall t,
  ¬ Forall (fun c => is_Some (index_from c ABET 0)) chars ->
  check_and_pad chars t = None.
Proof.
  induction chars as [|c chars IH]; intros t Hv; [by destruct Hv|].
  cbn [check_and_pad].
  destruct (index_from c ABET 0) as [d|] eqn:Hd; [|reflexivity].
  apply IH. intros Hv'. apply Hv. constructor; [by eexists|done].
Qed.

Section BurnFacts.
Context `{Crypto}.
Variable p : ChainParams.

(** A Base58 string whose version byte is not one of the two of the
    active parameters is refused, whether its checksum is right or not. *)
Lemma CTelestaiAddress_new_foreign v data chk :
  (4 <= length data)%nat ->
  Z_of_byte v ≠ SCRIPT_ADDR p -> Z_of_byte v ≠ PUBKEY_ADDR p ->
  CTelestaiAddress_new p (Base58.encode (v :: data ++ chk)) = Raise CTelestaiAddressError.
Proof using Type.
  intros Hl Hs Hk.
  unfold CTelestaiAddress_new, CBase58TelestaiAddress_new, CBase58Data_new_cls.
  rewrite base58_decode_encode, bind_Ok.
  destruct (decide (_ < 4)%nat) as [Hlt|_];
    [simpl in Hlt; rewrite length_app in Hlt; lia|].
  assert (Hm : exists m, (length (v :: data ++ chk) - 4 = S m)%nat).
  { exists (length (data ++ chk) - 4)%nat. simpl. rewrite length_app. lia. }
  destruct Hm as [m ->]. cbn [take].
  destruct (decide _); [|reflexivity].
  unfold CBase58TelestaiAddress_from_bytes, CBase58Data_from_bytes.
  pose proof (Z_of_byte_range v).
  destruct (decide (0 <= Z_of_byte v <= 255)); [|lia]. rewrite bind_Ok.
  destruct (decide (Z_of_byte v = SCRIPT_ADDR p)); [done|].
  by destruct (decide (Z_of_byte v = PUBKEY_ADDR p)).
Qed.

End BurnFacts.

(** X14.  With version bytes outside 32..34, as in the three parameter
    classes, the tool never prints an address: an empty template is an
    [IndexError], a template that does not start with ["E"] or has a
    character outside the alphabet is an [AlphabetError], and every other
    template, padded or cut to 34 characters, decodes to the version byte
    32, 33 or 34, which [CTelestaiAddress] refuses. *)
Theorem burn_main_never_prints `{Crypto} (sha256 : list byte -> list byte)
    (p : ChainParams) (template : string) :
  ¬ (32 <= SCRIPT_ADDR p <= 34) -> ¬ (32 <= PUBKEY_ADDR p <= 34) ->
  burn_main sha256 p template =
  match list_ascii_of_string template with
  | [] => Raised IndexError
  | c0 :: t0 =>
      if decide (c0 = "E"%char ∧
                 Forall (fun c => is_Some (index_from c ABET 0)) (c0 :: t0))
      then PrintedInvalidTemplate else RaisedAlphabetError
  end.
Proof.
  intros Hs Hk. unfold burn_main.
  destruct (list_ascii_of_string template) as [|c0 t0]; [reflexivity|].
  destruct (decide (c0 ≠ "E"%char)) as [Hne|He].
  { destruct (decide _) as [[He _]|]; [done|reflexivity]. }
  assert (c0 = "E"%char) as -> by (by destruct (decide (c0 = "E"%char))).
  destruct (decide _) as [[_ Hv]|Hv].
  - rewrite check_and_pad_valid by done.
    inversion Hv as [|? ? _ Hv0]; subst.
    destruct (pad_template_E t0 Hv0) as (cs & -> & Hl & Hcs).
    destruct (base58_decode_E cs Hl Hcs) as (v & d & Hd & Hver & Hld).
    rewrite (burn_value sha256 _ v d Hd Hld), bind_Ok.
    rewrite CTelestaiAddress_new_foreign; [reflexivity| |lia|lia].
    rewrite length_take. lia.
  - rewrite check_and_pad_invalid; [reflexivity|].
    intros Hv'. by apply Hv.
Qed.

Lemma burn_main_never_prints_witness :
  @burn_main demo_crypto (demo_pad 32) MainParams "EBurn" = PrintedInvalidTemplate.
Proof.
  apply (@burn_main_never_prints demo_crypto (demo_pad 32) MainParams "EBurn").
  - simpl. lia.
  - simpl. lia.
Defined.

(** ** The classes of JSON-RPC errors *)

Ltac registered_code cls c :=
  rewrite lookup_insert_eq; simpl; split;
  [intros [= <-]; by left
  |let Hc := fresh in let Hn := fresh in
   intros [Hc|[-> Hn]];
     [destruct c; simpl in Hc; try discriminate Hc; reflexivity
     |exfalso; by apply (Hn cls)]].

(** The registry after the class statements, and the class a code gets. *)
Lemma SUBCLS_BY_CODE_classes :
  exists d, SUBCLS_BY_CODE = Ok d ∧
    forall code c,
      JSONRPCError_new d JSONRPCError code = Ok c <->
      RPC_ERROR_CODE c = Some code ∨
      (c = JSONRPCError ∧ forall c', RPC_ERROR_CODE c' ≠ Some code).
Proof.
  eexists. split; [reflexivity|].
  intros code c. unfold JSONRPCError_new.
  destruct (decide (JSONRPCError = JSONRPCError)); [|done].
  destruct (decide (code = -28)) as [->|H28]; [registered_code InWarmupError c|].
  rewrite lookup_insert_ne by done.
  destruct (decide (code = -27)) as [->|H27];
    [registered_code VerifyAlreadyInChainError c|].
  rewrite lookup_insert_ne by done.
  destruct (decide (code = -26)) as [->|H26]; [registered_code VerifyRejectedError c|].
  rewrite lookup_insert_ne by done.
  destruct (decide (code = -25)) as [->|H25]; [registered_code VerifyError c|].
  rewrite lookup_insert_ne by done.
  destruct (decide (code = -8)) as [->|H8]; [registered_code InvalidParameterError c|].
  rewrite lookup_insert_ne by done.
  destruct (decide (code = -5)) as [->|H5]; [registered_code InvalidAddressOrKeyError c|].
  rewrite lookup_insert_ne by done.
  destruct (decide (code = -2)) as [->|H2]; [registered_code ForbiddenBySafeModeError c|].
  rewrite lookup_insert_ne, lookup_empty by done. simpl. split.
  - intros [= <-]. right. split; [done|].
    intros c'. destruct c'; simpl; [done|intros [= <-]; done..].
  - intros [Hc|[-> _]]; [|done].
    destruct c; simpl in Hc; [done|injection Hc as <-; done..].
Qed.

(** X15.  The seven decorated classes register without error.  Called
    on the base class, [JSONRPCError] makes an object of the subclass that
    declares the error code, and of the base class itself when no subclass
    declares it; called on a subclass, it fails its assertion. *)
Theorem JSONRPCError_new_spec :
  exists d, SUBCLS_BY_CODE = Ok d ∧
    (forall code c,
       JSONRPCError_new d JSONRPCError code = Ok c <->
       RPC_ERROR_CODE c = Some code ∨
       (c = JSONRPCError ∧ forall c', RPC_ERROR_CODE c' ≠ Some code)) ∧
    (forall cls code,
       cls ≠ JSONRPCError -> JSONRPCError_new d cls code = Raise AssertionError).
Proof.
  destruct SUBCLS_BY_CODE_classes as (d & Hd & Hnew).
  exists d. split; [done|]. split; [done|].
  intros cls code Hcls. unfold JSONRPCError_new. by destruct (decide _).
Qed.

(** ** Signed messages *)

Lemma CBase58Data_str_inj `{Crypto, !CryptoLaws} (d1 d2 : CBase58Data) :
  0 <= nVersion d1 <= 255 -> 0 <= nVersion d2 <= 255 ->
  CBase58Data_str d1 = CBase58Data_str d2 -> d1 = d2.
Proof.
  intros H1 H2 Hs. unfold CBase58Data_str in Hs. apply base58_encode_inj in Hs.
  apply app_inj_2 in Hs as [Hs _].
  - injection Hs as Hv Hd. destruct d1 as [b1 v1], d2 as [b2 v2]. simpl in *.
    apply (f_equal Z_of_byte) in Hv. rewrite !Z_of_byte_of_Z in Hv by lia.
    by subst.
  - rewrite !length_take, !Hash_length. reflexivity.
Qed.

(** X16.  When [VerifyMessage] returns [True] for a base-58 address
    object, the signature decodes, a key is recovered from it that is
    fully valid, and the object carries the P2PKH version byte and the
    hash of that key: only the strings are compared, so the class of the
    object plays no part. *)
Theorem VerifyMessage_true_inv `{Crypto, !CryptoLaws} (p : ChainParams)
    (c : base58_class) (d : CBase58Data) (msg : TelestaiMessage) (sig : string) :
  params_ok p -> 0 <= nVersion d <= 255 ->
  VerifyMessage p (AddrObj (Base58Address c d)) msg sig = Ok true ->
  nVersion d = PUBKEY_ADDR p ∧
  exists raw pubkey,
    Base64.b64decode sig = Ok raw ∧
    CPubKey_recover_compact (GetHash msg) raw = Ok pubkey ∧
    ec_is_fullyvalid pubkey = true ∧
    b58_data d = Hash160 pubkey.
Proof.
  intros Hp Hv. rewrite VerifyMessage_steps.
  destruct (Base64.b64decode sig) as [raw|] eqn:Eraw; [|done].
  destruct (CPubKey_recover_compact (GetHash msg) raw) as [pk|] eqn:Epk; [|done].
  unfold P2PKH_from_pubkey. simpl negb.
  destruct (ec_is_fullyvalid pk) eqn:Ef; simpl; [|done].
  pose proof (P2PKH_from_bytes_Some p Hp (Hash160 pk)) as Hb.
  unfold P2PKH_from_bytes in Hb |- *.
  destruct (decide (PUBKEY_ADDR p ≠ PUBKEY_ADDR p)); [done|].
  rewrite Hb. intros [= Hs]. apply bool_decide_eq_true in Hs.
  simpl in Hs.
  assert (Hk : 0 <= PUBKEY_ADDR p <= 255) by (by destruct Hp as (_ & Hk & _)).
  apply (CBase58Data_str_inj {| b58_data := Hash160 pk; nVersion := PUBKEY_ADDR p |}
           d Hk Hv) in Hs.
  subst d. simpl. split; [reflexivity|]. by exists raw, pk.
Qed.

Lemma VerifyMessage_true_inv_witness :
  66 = 66 ∧
  exists raw pubkey,
    Base64.b64decode
      "HxERERERERERERERERERERERERERERERERERERERERERGVRlbGVzdGFpIFNpZ25lZCBNZXNzYWdlOgoiUkw1ZEs="
      = Ok raw ∧
    @CPubKey_recover_compact demo_crypto (@GetHash demo_crypto demo_message) raw
      = Ok pubkey ∧
    @ec_is_fullyvalid demo_crypto pubkey = true ∧
    demo_pad 20 (x02 :: demo_secret) = @Hash160 demo_crypto pubkey.
Proof.
  apply (@VerifyMessage_true_inv demo_crypto demo_crypto_laws MainParams
           P2SHTelestaiAddress
           {| b58_data := demo_pad 20 (x02 :: demo_secret); nVersion := 66 |}
           demo_message
           "HxERERERERERERERERERERERERERERERERERERERERERGVRlbGVzdGFpIFNpZ25lZCBNZXNzYWdlOgoiUkw1ZEs=").
  - unfold params_ok. simpl. lia.
  - simpl. lia.
  - reflexivity.
Defined.

Lemma BytesSerializer_inj b1 b2 r1 r2 :
  Z.of_nat (length b1) < 2 ^ 64 -> Z.of_nat (length b2) < 2 ^ 64 ->
  BytesSerializer_serialize b1 ++ r1 = BytesSerializer_serialize b2 ++ r2 ->
  b1 = b2 ∧ r1 = r2.
Proof.
  intros H1 H2 Heq.
  pose proof (BytesSerializer_roundtrip b1 r1 H1) as Hr.
  rewrite Heq, BytesSerializer_roundtrip in Hr by done. by injection Hr.
Qed.

(** X17.  The bytes [stream_serialize] writes tell where the magic
    ends and the message begins: two messages whose serializations agree,
    whatever follows them on the stream, have the same magic and the same
    message, and the same bytes follow. *)
Theorem TelestaiMessage_serialize_inj (m1 m2 : TelestaiMessage) (r1 r2 : list byte) :
  Z.of_nat (length (magic m1)) < 2 ^ 64 -> Z.of_nat (length (message m1)) < 2 ^ 64 ->
  Z.of_nat (length (magic m2)) < 2 ^ 64 -> Z.of_nat (length (message m2)) < 2 ^ 64 ->
  TelestaiMessage_stream_serialize m1 ++ r1 = TelestaiMessage_stream_serialize m2 ++ r2 ->
  m1 = m2 ∧ r1 = r2.
Proof.
  intros Hg1 Hm1 Hg2 Hm2. unfold TelestaiMessage_stream_serialize.
  rewrite <- !app_assoc. intros Heq.
  apply BytesSerializer_inj in Heq as [Hg Heq]; [|done..].
  apply BytesSerializer_inj in Heq as [Hm Hr]; [|done..].
  destruct m1, m2. simpl in *. by subst.
Qed.

Lemma TelestaiMessage_serialize_inj_witness :
  demo_message = demo_message ∧ [x00] = [x00].
Proof.
  apply (TelestaiMessage_serialize_inj demo_message demo_message [x00] [x00]).
  - reflexivity.
  - reflexivity.
  - reflexivity.
  - reflexivity.
  - reflexivity.
Defined.

Lemma utf8_char_ascii (c : ascii) :
  forallb (fun b => bool_decide (Z_of_byte b < 128)) (utf8_char c)
  = bool_decide (Z.of_N (N_of_ascii c) < 128) ∧
  (Z.of_N (N_of_ascii c) < 128 -> map ascii_of_byte (utf8_char c) = [c]).
Proof. destruct c as [[] [] [] [] [] [] [] []]; split; (reflexivity || by vm_compute). Qed.

Lemma utf8_ascii (cs : list ascii) :
  forallb (fun b => bool_decide (Z_of_byte b < 128)) (concat (map utf8_char cs))
  = forallb (fun c => bool_decide (Z.of_N (N_of_ascii c) < 128)) cs ∧
  (forallb (fun c => bool_decide (Z.of_N (N_of_ascii c) < 128)) cs = true ->
   map ascii_of_byte (concat (map utf8_char cs)) = cs).
Proof.
  induction cs as [|c cs [IH1 IH2]]; [done|].
  destruct (utf8_char_ascii c) as [Hc1 Hc2].
  cbn [map concat forallb]. rewrite forallb_app, Hc1, IH1. split; [reflexivity|].
  intros [Hc Hcs]%andb_true_iff. apply bool_decide_eq_true in Hc.
  rewrite map_app, (Hc2 Hc), (IH2 Hcs). reflexivity.
Qed.

(** X18.  [str] of a message made from the text [s] gives [s] back
    when every character of [s] is ASCII, and is the decoding error, a
    [ValueError], as soon as one is not. *)
Theorem TelestaiMessage_str_init (s g : string) (m : TelestaiMessage) :
  TelestaiMessage_init (PyStr s) (PyStr g) = Ok m ->
  TelestaiMessage_str m =
  if forallb (fun c => bool_decide (Z.of_N (N_of_ascii c) < 128)) (list_ascii_of_string s)
  then Ok s else Raise ValueError.
Proof.
  intros [= <-]. unfold TelestaiMessage_str, ascii_decode, utf8. simpl message.
  destruct (utf8_ascii (list_ascii_of_string s)) as [H1 H2]. rewrite H1.
  destruct (forallb _ (list_ascii_of_string s)); [|reflexivity].
  by rewrite H2, string_of_list_ascii_of_string.
Qed.

Lemma TelestaiMessage_str_init_witness :
  TelestaiMessage_str demo_message = Ok "RL5dKQv7ZZYrqSYXNVgy2HvncjcQf8G6at"%string.
Proof.
  apply (TelestaiMessage_str_init "RL5dKQv7ZZYrqSYXNVgy2HvncjcQf8G6at" default_magic
           demo_message).
  reflexivity.
Defined.

(** ** Multisig transactions *)

(** X19.  With a [required] that has a length [n] and a signature hash
    that can be computed, [sign_with_multiple_keys] returns one signature
    for each of the first [n] keys and none for the others, in the order
    of the keys: the key's signature of the hash followed by the byte of
    [SIGHASH_ALL].  Without keys the result is the empty list, whatever
    [required] is. *)
Theorem sign_with_multiple_keys_prefix `{Crypto}
    (SignatureHash : list byte -> CTransaction -> heap -> Z -> Z -> Z -> result (list byte))
    (tx : CTransaction) (h : heap) (keys : list CKey) (script : list byte) (n : nat)
    (r : pyobj) (sv : Z) (sighash : list byte) :
  SignatureHash script tx h 0 Script.SIGHASH_ALL sv = Ok sighash ->
  (exists sigs,
     sign_with_multiple_keys SignatureHash tx h keys
       {| rs_script := script; required := PySized n |} sv = Ok sigs ∧
     length sigs = Nat.min n (length keys) ∧
     forall i k, (i < n)%nat -> keys !! i = Some k ->
       sigs !! i = Some (CKey_sign k sighash ++ [x01])) ∧
  sign_with_multiple_keys SignatureHash tx h []
    {| rs_script := script; required := r |} sv = Ok [].
Proof.
  intros Hs. split.
  - exists (map (tx_signature sighash) (take n keys)).
    split; [by apply sign_with_multiple_keys_sized|].
    split; [by rewrite length_map, length_take|].
    intros i k Hi Hk. rewrite list_lookup_fmap, lookup_take_lt, Hk by done.
    reflexivity.
  - unfold sign_with_multiple_keys. simpl rs_script. by rewrite Hs.
Qed.

Lemma sign_with_multiple_keys_prefix_witness :
  (exists sigs,
     @sign_with_multiple_keys demo_crypto demo_SignatureHash demo_tx demo_heap
       [demo_key true; demo_key false; demo_key true]
       {| rs_script := [x52; xae]; required := PySized 2 |} Script.SIGVERSION_BASE
     = Ok sigs ∧
     length sigs = Nat.min 2 (length [demo_key true; demo_key false; demo_key true]) ∧
     forall i k, (i < 2)%nat ->
       [demo_key true; demo_key false; demo_key true] !! i = Some k ->
       sigs !! i = Some (@CKey_sign demo_crypto k (demo_pad 32 [x52; xae]) ++ [x01])) ∧
  @sign_with_multiple_keys demo_crypto demo_SignatureHash demo_tx demo_heap []
    {| rs_script := [x52; xae]; required := PyInt 2 |} Script.SIGVERSION_BASE = Ok [].
Proof.
  apply (@sign_with_multiple_keys_prefix demo_crypto demo_SignatureHash demo_tx demo_heap
           [demo_key true; demo_key false; demo_key true] [x52; xae] 2 (PyInt 2)
           Script.SIGVERSION_BASE (demo_pad 32 [x52; xae])).
  reflexivity.
Defined.

Lemma set_scriptSig_twice s1 s2 i :
  set_scriptSig s2 (set_scriptSig s1 i) = set_scriptSig s2 i.
Proof. reflexivity. Qed.

Lemma apply_multisig_signatures_cases (tx : CTransaction) (sigs : list (list byte))
    (rs : RedeemScript) :
  (exists e, forall h : heap, apply_multisig_signatures tx sigs rs h = (Raise e, h)) ∨
  (exists s l, vin tx !! 0%nat = Some l ∧
     forall h : heap,
       apply_multisig_signatures tx sigs rs h = (Ok (), alter (set_scriptSig s) l h)).
Proof.
  unfold apply_multisig_signatures.
  destruct (_ ≫= _) as [s|e]; [|by left; exists e].
  destruct (vin tx !! 0%nat) as [l|]; [|by left; exists IndexError].
  right. by exists s, l.
Qed.

(** X20.  A second [apply_multisig_signatures] that succeeds
    replaces what the first wrote: the outcome and the objects are those
    of the second call alone, so the signatures of two calls are never
    merged.  A call that raises has written nothing. *)
Theorem apply_multisig_signatures_replaces (tx : CTransaction)
    (sigs1 sigs2 : list (list byte)) (rs1 rs2 : RedeemScript) (h : heap) :
  (apply_multisig_signatures tx sigs2 rs2 h).1 = Ok () ->
  apply_multisig_signatures tx sigs2 rs2 (apply_multisig_signatures tx sigs1 rs1 h).2
  = apply_multisig_signatures tx sigs2 rs2 h ∧
  (forall e, (apply_multisig_signatures tx sigs1 rs1 h).1 = Raise e ->
     (apply_multisig_signatures tx sigs1 rs1 h).2 = h).
Proof.
  destruct (apply_multisig_signatures_cases tx sigs2 rs2)
    as [[e2 H2]|(s2 & l2 & Hl2 & H2)]; rewrite !H2; [done|]. intros _.
  destruct (apply_multisig_signatures_cases tx sigs1 rs1)
    as [[e1 H1]|(s1 & l1 & Hl1 & H1)]; rewrite !H1; simpl; [done|].
  split; [|done]. assert (l2 = l1) as -> by congruence.
  f_equal. rewrite alter_alter_eq. apply alter_ext. intros i _. reflexivity.
Qed.

Lemma apply_multisig_signatures_replaces_witness :
  apply_multisig_signatures demo_tx [[x30; x02]]
    {| rs_script := [x52; xae]; required := PyInt 2 |}
    (apply_multisig_signatures demo_tx [[x30; x01]]
       {| rs_script := [x51; xae]; required := PyInt 1 |} demo_heap).2
  = apply_multisig_signatures demo_tx [[x30; x02]]
      {| rs_script := [x52; xae]; required := PyInt 2 |} demo_heap ∧
  (forall e,
     (apply_multisig_signatures demo_tx [[x30; x01]]
        {| rs_script := [x51; xae]; required := PyInt 1 |} demo_heap).1 = Raise e ->
     (apply_multisig_signatures demo_tx [[x30; x01]]
        {| rs_script := [x51; xae]; required := PyInt 1 |} demo_heap).2 = demo_heap).
Proof.
  apply (apply_multisig_signatures_replaces demo_tx [[x30; x01]] [[x30; x02]]
           {| rs_script := [x51; xae]; required := PyInt 1 |}
           {| rs_script := [x52; xae]; required := PyInt 2 |} demo_heap).
  reflexivity.
Defined.

Lemma encode_op_pushdata_fits d b :
  Script.encode_op_pushdata d = Ok b -> Z.of_nat (length d) <= 0xffffffff.
Proof.
  unfold Script.encode_op_pushdata. repeat destruct (decide _); try done; lia.
Qed.

Lemma CScript_data_buildable ds : forall b,
  Script.CScript (map Script.EData ds) = Ok b ->
  Forall elem_buildable (map Script.EData ds).
Proof.
  induction ds as [|d ds IH]; intros b; simpl; [constructor|].
  destruct (Script.encode_op_pushdata d) as [bd|] eqn:Ed; [|done]. rewrite bind_Ok.
  destruct (Script.CScript (map Script.EData ds)) as [bs|]; [|done].
  intros _. constructor; [by eapply encode_op_pushdata_fits|by eapply IH].
Qed.

Lemma add_signatures_inv sigs : forall acc r,
  add_signatures acc sigs = Ok r ->
  exists body, Script.CScript (map Script.EData sigs) = Ok body ∧ r = acc ++ body.
Proof.
  induction sigs as [|sig sigs IH]; intros acc r; simpl.
  - intros [= <-]. exists []. by rewrite app_nil_r.
  - destruct (Script.encode_op_pushdata sig) as [b|]; [|done]. rewrite !bind_Ok.
    rewrite app_nil_r. unfold CScript_add. intros Hr.
    destruct (IH _ _ Hr) as (body & -> & ->).
    exists (b ++ body). by rewrite bind_Ok, app_assoc.
Qed.

(** X21.  After a call that succeeds, the script written into
    the first input reads back, element by element, as [OP_0], one push
    for each signature in the order given, and the push of the redeem
    script; an empty byte string reads back as [OP_0]. *)
Theorem apply_multisig_signatures_reads_back (tx : CTransaction)
    (sigs : list (list byte)) (rs : RedeemScript) (h h' : heap) :
  apply_multisig_signatures tx sigs rs h = (Ok (), h') ->
  exists l script,
    vin tx !! 0%nat = Some l ∧ h' = alter (set_scriptSig script) l h ∧
    Script.iter (length script) script
    = Ok (Script.EOp Script.OP_0
            :: map elem_read (map Script.EData sigs)
            ++ [elem_read (Script.EData (rs_script rs))]).
Proof.
  unfold apply_multisig_signatures.
  change (Script.CScript [Script.EOp Script.OP_0]) with (@Ok (list byte) [x00]).
  rewrite bind_Ok.
  destruct (add_signatures _ sigs) as [r|] eqn:Er; [|done]. rewrite bind_Ok.
  destruct (add_signatures_inv _ _ _ Er) as (body & Hbody & ->).
  destruct (Script.CScript [Script.EData (rs_script rs)]) as [br|] eqn:Ebr; [|done].
  rewrite bind_Ok. destruct (vin tx !! 0%nat) as [l|]; [|done].
  intros [= <-]. exists l, ([x00] ++ body ++ br). split; [done|].
  split; [reflexivity|].
  assert (Hs : Script.CScript ([Script.EOp Script.OP_0] ++ map Script.EData sigs
                               ++ [Script.EData (rs_script rs)])
               = Ok ([x00] ++ body ++ br)).
  { apply CScript_app; [reflexivity|]. by apply CScript_app. }
  assert (Hb : Forall elem_buildable ([Script.EOp Script.OP_0] ++ map Script.EData sigs
                                      ++ [Script.EData (rs_script rs)])).
  { apply Forall_app. split; [repeat constructor; by left|].
    apply Forall_app. split; [by eapply CScript_data_buildable|].
    apply (CScript_data_buildable [rs_script rs] _ Ebr). }
  rewrite (iter_CScript _ _ Hb Hs). by rewrite !map_app.
Qed.

Lemma apply_multisig_signatures_reads_back_witness :
  exists l script,
    vin demo_tx !! 0%nat = Some l ∧
    (apply_multisig_signatures demo_tx [[x30; x01]; []]
       {| rs_script := [x52; xae]; required := PyInt 2 |} demo_heap).2
    = alter (set_scriptSig script) l demo_heap ∧
    Script.iter (length script) script
    = Ok (Script.EOp Script.OP_0
            :: map elem_read (map Script.EData [[x30; x01]; []])
            ++ [elem_read (Script.EData [x52; xae])]).
Proof.
  apply (apply_multisig_signatures_reads_back demo_tx [[x30; x01]; []]
           {| rs_script := [x52; xae]; required := PyInt 2 |} demo_heap).
  reflexivity.
Defined.

(** ** The first symbol of an address *)

Lemma int_from_bytes_cons c b :
  Base58.int_from_bytes (c :: b)
  = Z_of_byte c * 256 ^ Z.of_nat (length b) + Base58.int_from_bytes b.
Proof.
  unfold Base58.int_from_bytes. simpl fold_left. generalize (Z_of_byte c).
  assert (Hg : forall n0, fold_left (fun n c => n * 256 + Z_of_byte c) b n0
                 = n0 * 256 ^ Z.of_nat (length b)
                   + fold_left (fun n c => n * 256 + Z_of_byte c) b 0).
  { induction b as [|c' b IH]; intros n0.
    - simpl. change (256 ^ Z.of_nat 0) with 1. lia.
    - simpl fold_left.
      rewrite (IH (n0 * 256 + Z_of_byte c')), (IH (0 * 256 + Z_of_byte c')).
      simpl length. rewrite Nat2Z.inj_succ, Z.pow_succ_r by lia. lia. }
  intros z. rewrite (Hg (0 * 256 + z)). lia.
Qed.

Lemma string_of_list_ascii_length l :
  String.length (string_of_list_ascii l) = length l.
Proof. induction l as [|c l IH]; simpl; [reflexivity|by rewrite IH]. Qed.

(** The first symbol and the number of symbols of the encoding of bytes
    that do not start with a zero byte. *)
Lemma base58_encode_top (c : byte) (b : list byte) (k : nat) (top : Z) :
  c ≠ x00 -> (k < 2 * length (c :: b))%nat ->
  top * 58 ^ Z.of_nat k <= Base58.int_from_bytes (c :: b)
    < (top + 1) * 58 ^ Z.of_nat k ->
  1 <= top < 58 ->
  exists t, Base58.encode (c :: b) = String (Base58.digit_char top) t
            ∧ String.length t = k.
Proof.
  intros Hc Hk Hn Htop. unfold Base58.encode.
  assert (HP : 0 < 58 ^ Z.of_nat k) by (apply Z.pow_pos_nonneg; lia).
  destruct (divmod_loop_top 58 k (2 * length (c :: b))
              (Base58.int_from_bytes (c :: b))) as (ds & Hds & Hl); [lia| |done|].
  { rewrite Nat2Z.inj_succ, Z.pow_succ_r by lia. nia. }
  assert (Hq : Base58.int_from_bytes (c :: b) / 58 ^ Z.of_nat k = top).
  { symmetry. apply Z.div_unique with
      (r := Base58.int_from_bytes (c :: b) - top * 58 ^ Z.of_nat k); lia. }
  rewrite Hds, Hq, rev_unit.
  assert (Hpad : Base58.leading x00 (c :: b) = 0%nat).
  { simpl. by destruct (decide (c = x00)). }
  rewrite Hpad. simpl. eexists. split; [reflexivity|].
  by rewrite string_of_list_ascii_length, length_map, length_rev.
Qed.

(** X22.  On the main network the string of a P2PKH address with a
    20-byte hash has 34 symbols and starts with ["T"]; that of a P2SH
    address has 34 symbols and starts with ["t"]. *)
Theorem mainnet_address_prefix `{Crypto, !CryptoLaws} (h : list byte) :
  length h = 20%nat ->
  (exists t, address_str MainParams (P2PKH_address MainParams h) = String "T" t
             ∧ String.length t = 33%nat) ∧
  (exists t, address_str MainParams (P2SH_address MainParams h) = String "t" t
             ∧ String.length t = 33%nat).
Proof.
  intros Hh.
  assert (Hb : forall (v : byte) (top : Z), 1 <= top < 58 ->
            top * 58 ^ 33 <= Z_of_byte v * 256 ^ 24 ->
            (Z_of_byte v + 1) * 256 ^ 24 <= (top + 1) * 58 ^ 33 ->
            v ≠ x00 ->
            exists t, Base58.encode ((v :: h) ++ take 4 (Hash (v :: h)))
                      = String (Base58.digit_char top) t ∧ String.length t = 33%nat).
  { intros v top Htop Hlo Hhi Hv. rewrite <- app_comm_cons.
    assert (Hlen : length (h ++ take 4 (Hash (v :: h))) = 24%nat).
    { rewrite length_app, length_take, Hash_length, Hh. reflexivity. }
    apply base58_encode_top; [done|simpl; lia| |done].
    rewrite int_from_bytes_cons, Hlen.
    pose proof (int_from_bytes_bound (h ++ take 4 (Hash (v :: h)))) as Hr.
    rewrite Hlen in Hr. change (Z.of_nat 24) with 24 in *.
    change (Z.of_nat 33) with 33. lia. }
  split.
  - apply (Hb x42 26); [lia|by vm_compute|by vm_compute|done].
  - apply (Hb x7f 51); [lia|by vm_compute|by vm_compute|done].
Qed.

Lemma mainnet_address_prefix_witness :
  (exists t, @address_str demo_crypto MainParams (P2PKH_address MainParams (repeat x07 20))
             = String "T" t ∧ String.length t = 33%nat) ∧
  (exists t, @address_str demo_crypto MainParams (P2SH_address MainParams (repeat x07 20))
             = String "t" t ∧ String.length t = 33%nat).
Proof.
  apply (@mainnet_address_prefix demo_crypto demo_crypto_laws (repeat x07 20)).
  reflexivity.
Defined.

(** ** Redeem scripts *)

(** X23.  When [Hash160] gives 20 bytes, [from_redeemScript] makes
    the P2SH address of the hash of the redeem script, the one
    [from_bytes] makes of that hash.  [to_redeemScript] of that address
    does not give the redeem script back: it returns the address's own
    23-byte scriptPubKey, from which [from_scriptPubKey] reads the same
    address. *)
Theorem from_redeemScript_address `{Crypto} (p : ChainParams) (redeemScript : list byte) :
  params_ok p -> length (Hash160 redeemScript) = 20%nat ->
  let a := P2SH_address p (Hash160 redeemScript) in
  P2SH_from_redeemScript p redeemScript = Ok a ∧
  P2SH_from_bytes p (Hash160 redeemScript) None = Ok a ∧
  to_redeemScript p a = Ok (RedeemScriptValue (p2sh_script (Hash160 redeemScript))) ∧
  length (p2sh_script (Hash160 redeemScript)) = 23%nat ∧
  CTelestaiAddress_from_scriptPubKey p (p2sh_script (Hash160 redeemScript)) = Ok a.
Proof.
  intros Hp Hh a. subst a.
  pose proof (to_scriptPubKey_P2SH p (Hash160 redeemScript) Hh) as Hs.
  destruct (is_p2sh_p2sh_script (Hash160 redeemScript) Hh) as [Hi Hsl].
  assert (Hr : to_p2sh_scriptPubKey redeemScript = Ok (p2sh_script (Hash160 redeemScript))).
  { unfold to_scriptPubKey, P2SH_address in Hs. simpl nVersion in Hs.
    simpl b58_data in Hs. by destruct (decide (SCRIPT_ADDR p = SCRIPT_ADDR p)). }
  split; [|split; [|split; [|split]]].
  - unfold P2SH_from_redeemScript. rewrite Hr, bind_Ok.
    rewrite P2SH_from_scriptPubKey_eq, Hi, Hsl by done. reflexivity.
  - by apply CBase58_from_bytes_script.
  - unfold to_redeemScript, P2SH_address. fold (P2SH_address p (Hash160 redeemScript)).
    by rewrite Hs.
  - unfold p2sh_script. simpl. rewrite length_app, Hh. reflexivity.
  - by apply from_scriptPubKey_p2sh_script.
Qed.

Lemma from_redeemScript_address_witness :
  let a := P2SH_address MainParams (@Hash160 demo_crypto [x52; xae]) in
  @P2SH_from_redeemScript demo_crypto MainParams [x52; xae] = Ok a ∧
  @P2SH_from_bytes MainParams (@Hash160 demo_crypto [x52; xae]) None = Ok a ∧
  to_redeemScript MainParams a
    = Ok (RedeemScriptValue (p2sh_script (@Hash160 demo_crypto [x52; xae]))) ∧
  length (p2sh_script (@Hash160 demo_crypto [x52; xae])) = 23%nat ∧
  @CTelestaiAddress_from_scriptPubKey demo_crypto MainParams
    (p2sh_script (@Hash160 demo_crypto [x52; xae])) = Ok a.
Proof.
  apply (@from_redeemScript_address demo_crypto MainParams [x52; xae]).
  - unfold params_ok. simpl. lia.
  - reflexivity.
Defined.

(** ** The configuration file *)

Lemma split_first_Some c s a b :
  split_first c s = Some (a, b) -> s = a ++ c :: b ∧ c ∉ a.
Proof.
  revert a. induction s as [|x s IH]; intros a; simpl; [done|].
  destruct (decide (x = c)) as [->|Hne].
  - intros [= <- <-]. split; [done|]. apply not_elem_of_nil.
  - destruct (split_first c s) as [[a' b']|]; [|done]. simpl.
    intros [= <- <-]. destruct (IH a' eq_refl) as [-> Hni].
    split; [done|]. by apply not_elem_of_cons.
Qed.

Lemma split_first_app c a b :
  c ∉ a -> split_first c (a ++ c :: b) = Some (a, b).
Proof.
  induction a as [|x a IH]; intros Hni; simpl.
  - by destruct (decide (c = c)).
  - apply not_elem_of_cons in Hni as [Hne Hni].
    destruct (decide (x = c)); [done|]. by rewrite IH.
Qed.

Lemma split_first_None c s : c ∉ s -> split_first c s = None.
Proof.
  induction s as [|x s IH]; intros Hni; simpl; [done|].
  apply not_elem_of_cons in Hni as [Hne Hni].
  destruct (decide (x = c)); [done|]. by rewrite IH.
Qed.

Lemma lstrip_suffix s : exists sp, s = sp ++ lstrip s.
Proof.
  induction s as [|c s [sp IH]]; [by exists []|]. simpl.
  destruct (is_py_space c); [|by exists []].
  exists (c :: sp). simpl. by f_equal.
Qed.

Lemma lstrip_head s c : head (lstrip s) = Some c -> is_py_space c = false.
Proof.
  induction s as [|x s IH]; simpl; [done|].
  destruct (is_py_space x) eqn:Ex; [exact IH|]. simpl. by intros [= <-].
Qed.

Lemma elem_of_rev_iff {A} (x : A) l : x ∈ rev l <-> x ∈ l.
Proof.
  induction l as [|y l IH]; simpl; [reflexivity|].
  rewrite elem_of_app, !elem_of_cons, elem_of_nil, IH. tauto.
Qed.

Lemma strip_elem c s : c ∈ strip s -> c ∈ s.
Proof.
  unfold strip. rewrite elem_of_rev_iff.
  destruct (lstrip_suffix (rev (lstrip s))) as [sp1 H1].
  destruct (lstrip_suffix s) as [sp2 H2].
  intros Hc. rewrite H2. apply elem_of_app. right.
  apply elem_of_rev_iff. rewrite H1. apply elem_of_app. by right.
Qed.

Lemma strip_ends s :
  (forall c, head (strip s) = Some c -> is_py_space c = false) ∧
  (forall c, last (strip s) = Some c -> is_py_space c = false).
Proof.
  unfold strip. split; intros c.
  - destruct (lstrip_suffix (rev (lstrip s))) as [sp Hsp].
    apply (f_equal (@rev ascii)) in Hsp. rewrite rev_involutive, rev_app_distr in Hsp.
    destruct (rev (lstrip (rev (lstrip s)))) as [|c' u] eqn:Eu; [done|].
    simpl. intros [= ->]. apply (lstrip_head s). by rewrite Hsp.
  - destruct (lstrip (rev (lstrip s))) as [|c' u] eqn:Eu; [done|].
    simpl. rewrite last_snoc. intros [= ->].
    apply (lstrip_head (rev (lstrip s))). by rewrite Eu.
Qed.

Lemma split_first_None_inv c s : split_first c s = None -> c ∉ s.
Proof.
  induction s as [|x s IH]; simpl; [intros _; apply not_elem_of_nil|].
  destruct (decide (x = c)); [done|].
  destruct (split_first c s); [done|]. intros _.
  apply not_elem_of_cons. split; [done|by apply IH].
Qed.

(** X24.  The lines that define an entry are those with an
    ["="] before any ["#"]: the key is the stripped text before the first
    ["="], the value the stripped text between it and the first ["#"] or
    the end of the line, so a value may hold further ["="] signs and what
    follows a ["#"] is never read. *)
Theorem conf_line_grammar (line k v : list ascii) :
  conf_line line = Some (k, v) <->
  exists k0 v0, ("#"%char ∉ k0) ∧ ("="%char ∉ k0) ∧ ("#"%char ∉ v0) ∧
    (line = k0 ++ "="%char :: v0 ∨ exists c, line = k0 ++ "="%char :: v0 ++ "#"%char :: c) ∧
    k = strip k0 ∧ v = strip v0.
Proof.
  unfold conf_line. split.
  - destruct (split_first "#" line) as [[before after]|] eqn:Eh.
    + apply split_first_Some in Eh as [-> Hni].
      destruct (split_first "=" before) as [[k0 v0]|] eqn:Ee; [|done].
      apply split_first_Some in Ee as [-> Hne]. intros [= <- <-].
      exists k0, v0. rewrite elem_of_app, elem_of_cons in Hni.
      split; [tauto|]. split; [done|]. split; [tauto|].
      split; [|done]. right. exists after. by rewrite <- app_assoc.
    + apply split_first_None_inv in Eh.
      destruct (split_first "=" line) as [[k0 v0]|] eqn:Ee; [|done].
      apply split_first_Some in Ee as [-> Hne]. intros [= <- <-].
      rewrite elem_of_app, elem_of_cons in Eh.
      exists k0, v0. split; [tauto|]. split; [done|]. split; [tauto|]. by split; [left|].
  - intros (k0 & v0 & Hk1 & Hk2 & Hv & [->|[c ->]] & -> & ->).
    + assert (Hni : "#"%char ∉ k0 ++ "="%char :: v0).
      { rewrite elem_of_app, elem_of_cons. intros [?|[?|?]]; done. }
      by rewrite (split_first_None "#" _ Hni), (split_first_app "=" _ _ Hk2).
    + assert (Hni : "#"%char ∉ k0 ++ "="%char :: v0).
      { rewrite elem_of_app, elem_of_cons. intros [?|[?|?]]; done. }
      replace (k0 ++ "="%char :: v0 ++ "#"%char :: c)
        with ((k0 ++ "="%char :: v0) ++ "#"%char :: c) by (by rewrite <- app_assoc).
      by rewrite (split_first_app "#" _ _ Hni), (split_first_app "=" _ _ Hk2).
Qed.

Lemma read_conf_snoc lines line :
  read_conf (lines ++ [line]) =
  match conf_line line with
  | None => read_conf lines
  | Some (k, v) => <[k := v]> (read_conf lines)
  end.
Proof. unfold read_conf. by rewrite foldl_app. Qed.

(** X25.  After the loop the dictionary holds, for each key, the value
    of the last line that defines it; a key no line defines is absent,
    except ["rpcuser"], which then has the empty string. *)
Theorem read_conf_last_wins (lines : list (list ascii)) (key : list ascii) :
  read_conf lines !! key =
  match last_entry key (rev lines) with
  | Some v => Some v
  | None => if decide (key = list_ascii_of_string "rpcuser") then Some [] else None
  end.
Proof.
  induction lines as [|line lines IH] using rev_ind.
  - unfold read_conf. cbn [foldl rev last_entry].
    destruct (decide (key = list_ascii_of_string "rpcuser")) as [->|Hne].
    + by rewrite lookup_singleton_eq.
    + by rewrite lookup_singleton_ne.
  - rewrite read_conf_snoc, rev_unit. cbn [last_entry].
    destruct (conf_line line) as [[k v]|]; [|exact IH].
    destruct (decide (k = key)) as [->|Hne].
    + by rewrite lookup_insert_eq.
    + by rewrite lookup_insert_ne.
Qed.

(** ** Answers of the server *)

Lemma _call_cases {V} d (r : response V) :
  (exists v, resp_error r = None ∧ resp_result r = Some v ∧ _call d r = Returns v) ∨
  (exists cls code,
     _call d r = RaisesJSONRPC cls code ∧
     JSONRPCError_new d JSONRPCError code = Ok cls ∧
     (resp_error r = Some (ErrorDict (Some code)) ∨
      (code = -345 ∧ resp_error r = Some (ErrorDict None)) ∨
      (code = -344 ∧ resp_error r = Some ErrorOther) ∨
      (code = -343 ∧ resp_error r = None ∧ resp_result r = None))).
Proof.
  unfold _call, raise_JSONRPCError, JSONRPCError_new.
  destruct (decide (JSONRPCError = JSONRPCError)); [|done].
  destruct r as [[[[code|]|]|] [v|]]; cbn [resp_error resp_result default];
    first [left; by eexists | right; eexists _, _; split; [reflexivity|]; split;
           [reflexivity|]; tauto].
Qed.

Ltac outcome_cases :=
  repeat split;
  first [done | congruence | by intros [? ?] | by intros [= ->]
        | intros; congruence | intros [? ?]; congruence].

(** X26.  With the registry of the class statements, an error
    dictionary with code -5 makes [gettransaction] raise [IndexError], and
    one with code -8 makes [getblockhash] raise it, and nothing else the
    server answers does.  [gettransaction] returns the value under
    ["result"] exactly when the response has no error and has that key;
    an error that is not a dictionary, or a response without ["result"],
    raises the base class with the codes -344 and -343. *)
Theorem rpc_errors_as_IndexError {V W : Type} :
  exists d, SUBCLS_BY_CODE = Ok d ∧
    forall (r : response V) (lx : V -> result W),
      (gettransaction d r = Raises IndexError <->
       resp_error r = Some (ErrorDict (Some (-5)))) ∧
      ((forall v, lx v ≠ Raise IndexError) ->
       (getblockhash d lx r = Raises IndexError <->
        resp_error r = Some (ErrorDict (Some (-8))))) ∧
      (forall v, gettransaction d r = Returns v <->
         resp_error r = None ∧ resp_result r = Some v) ∧
      (resp_error r = Some ErrorOther ->
         gettransaction d r = RaisesJSONRPC JSONRPCError (-344)) ∧
      (resp_error r = None -> resp_result r = None ->
         gettransaction d r = RaisesJSONRPC JSONRPCError (-343)).
Proof.
  destruct SUBCLS_BY_CODE_classes as (d & Hd & Hnew).
  exists d. split; [done|]. intros r lx.
  assert (Hbase : forall code cls, (forall c', RPC_ERROR_CODE c' ≠ Some code) ->
            JSONRPCError_new d JSONRPCError code = Ok cls -> cls = JSONRPCError).
  { intros code cls Hn Hc. apply Hnew in Hc as [Hc|[-> _]]; [by destruct (Hn cls)|done]. }
  assert (Hcode : forall code cls code0, RPC_ERROR_CODE cls = Some code0 ->
            JSONRPCError_new d JSONRPCError code = Ok cls -> code = code0).
  { intros code cls code0 H0 Hc. apply Hnew in Hc as [Hc|[-> _]]; [congruence|done]. }
  assert (Hreg : forall cls code0, RPC_ERROR_CODE cls = Some code0 ->
            JSONRPCError_new d JSONRPCError code0 = Ok cls).
  { intros cls code0 H0. apply Hnew. by left. }
  unfold gettransaction, getblockhash.
  destruct (_call_cases d r) as [(v & He & Hr & ->)|(cls & code & -> & Hc & Hwhy)].
  { rewrite He, Hr. split; [outcome_cases|]. split; [|outcome_cases].
    intros Hlx. specialize (Hlx v). destruct (lx v); outcome_cases. }
  assert (H343 : code = -343 -> cls = JSONRPCError).
  { intros ->. apply (Hbase (-343)); [|done]. intros c'. by destruct c'. }
  assert (H344 : code = -344 -> cls = JSONRPCError).
  { intros ->. apply (Hbase (-344)); [|done]. intros c'. by destruct c'. }
  assert (H345 : code = -345 -> cls = JSONRPCError).
  { intros ->. apply (Hbase (-345)); [|done]. intros c'. by destruct c'. }
  assert (H5 : cls = InvalidAddressOrKeyError <-> code = -5).
  { split; [intros ->; by apply (Hcode _ InvalidAddressOrKeyError)|].
    intros ->. pose proof (Hreg InvalidAddressOrKeyError (-5) eq_refl). congruence. }
  assert (H8 : cls = InvalidParameterError <-> code = -8).
  { split; [intros ->; by apply (Hcode _ InvalidParameterError)|].
    intros ->. pose proof (Hreg InvalidParameterError (-8) eq_refl). congruence. }
  clear Hnew Hbase Hcode Hreg Hc Hd.
  destruct Hwhy as [He|[[-> He]|[[-> He]|(-> & He & Hr)]]]; rewrite He.
  - split; [|split; [|split; [|split]]].
    + destruct (decide (code = -5)) as [->|Hne].
      * rewrite (proj2 H5 eq_refl). done.
      * split; [|by intros [= ->]]. destruct cls; try done. by destruct Hne, H5 as [-> _].
    + intros _. destruct (decide (code = -8)) as [->|Hne].
      * rewrite (proj2 H8 eq_refl). done.
      * split; [|by intros [= ->]]. destruct cls; try done. by destruct Hne, H8 as [-> _].
    + intros v. split; [by destruct cls|by intros [? ?]].
    + done.
    + done.
  - rewrite (H345 eq_refl). outcome_cases.
  - rewrite (H344 eq_refl). outcome_cases.
  - rewrite (H343 eq_refl), Hr. outcome_cases.
Qed.

(** ** Quantities *)

Lemma after_numeric_run_all s :
  Forall (fun c => is_numeric_char c = true) s -> after_numeric_run s = [].
Proof. induction 1 as [|c s Hc Hs IH]; simpl; [done|]. by rewrite Hc. Qed.

Lemma pretty_N_char_numeric x : is_numeric_char (pretty_N_char x) = true.
Proof. unfold pretty_N_char. by repeat case_match. Qed.

Lemma pretty_N_go_numeric x : forall s,
  Forall (fun c => is_numeric_char c = true) (list_ascii_of_string s) ->
  Forall (fun c => is_numeric_char c = true) (list_ascii_of_string (pretty_N_go x s)).
Proof.
  induction (N.lt_wf_0 x) as [x _ IH]; intros s Hs.
  assert (x = 0 ∨ 0 < x)%N as [->|Hx] by lia; [by rewrite pretty_N_go_0|].
  rewrite pretty_N_go_step by done. apply IH; [by apply N.div_lt|].
  simpl. constructor; [apply pretty_N_char_numeric|done].
Qed.

Lemma pretty_N_numeric (x : N) :
  Forall (fun c => is_numeric_char c = true) (list_ascii_of_string (pretty x)).
Proof.
  unfold pretty, pretty_N. destruct (decide (x = 0%N)).
  - by repeat constructor.
  - apply pretty_N_go_numeric. constructor.
Qed.

Lemma pretty_N_nonempty (x : N) : pretty x ≠ ""%string.
Proof.
  unfold pretty, pretty_N. destruct (decide (x = 0%N)) as [|Hx]; [done|].
  assert (Hlen : forall y s, (String.length s <= String.length (pretty_N_go y s))%nat).
  { intros y. induction (N.lt_wf_0 y) as [y _ IH]; intros s.
    assert (y = 0 ∨ 0 < y)%N as [->|Hy] by lia; [by rewrite pretty_N_go_0|].
    rewrite pretty_N_go_step by done.
    etrans; [|by eapply IH, N.div_lt]. simpl. lia. }
  rewrite pretty_N_go_step by lia. intros He.
  pose proof (Hlen (x `div` 10)%N (String (pretty_N_char (x `mod` 10)) "")) as Hl.
  rewrite He in Hl. simpl in Hl. lia.
Qed.

Lemma re_match_numeric_all s :
  s ≠ [] -> Forall (fun c => is_numeric_char c = true) s -> re_match_numeric s = true.
Proof.
  intros Hne Hs. destruct s as [|c s]; [done|]. unfold re_match_numeric.
  rewrite (after_numeric_run_all _ Hs). inversion Hs as [|? ? Hc _]; subst.
  rewrite Hc. rewrite bool_decide_eq_true_2; [done|by left].
Qed.

Lemma after_numeric_run_suffix s :
  exists t, s = t ++ after_numeric_run s ∧ Forall (fun c => is_numeric_char c = true) t.
Proof.
  induction s as [|c s (t & Ht & Hf)]; [by exists []|]. simpl.
  destruct (is_numeric_char c) eqn:Ec; [|by exists []].
  exists (c :: t). split; [simpl; by f_equal|by constructor].
Qed.

(** X27.  [check_numeric] accepts the decimal text of every
    integer that is not negative and raises [ValueError] for that of
    every negative one.  A text it accepts holds only digits and dots,
    but for a newline that ends it: never a sign or an exponent; and it
    accepts texts that are no numbers, such as any run of dots. *)
Theorem check_numeric_texts :
  (forall z : Z,
     check_numeric (pretty z) = if decide (0 <= z) then Ok () else Raise ValueError) ∧
  (forall s, check_numeric s = Ok () ->
     exists t, Forall (fun c => is_numeric_char c = true) t ∧ t ≠ [] ∧
       (list_ascii_of_string s = t ∨ list_ascii_of_string s = t ++ ["010"%char])) ∧
  (forall n, check_numeric (string_of_list_ascii (repeat "."%char (S n))) = Ok ()).
Proof.
  split; [|split].
  - intros z. unfold check_numeric. destruct z as [|x|x]; simpl decide.
    + reflexivity.
    + destruct (decide (0 <= Z.pos x)); [|lia].
      rewrite re_match_numeric_all; [done| |apply (pretty_N_numeric (N.pos x))].
      intros He. apply (pretty_N_nonempty (N.pos x)).
      change (pretty (Z.pos x)) with (pretty (N.pos x)) in He.
      by rewrite <- (string_of_list_ascii_of_string (pretty (N.pos x))), He.
    + destruct (decide (0 <= Z.neg x)); [lia|]. reflexivity.
  - intros s. unfold check_numeric.
    destruct (re_match_numeric (list_ascii_of_string s)) eqn:Em; [|done]. intros _.
    destruct (list_ascii_of_string s) as [|c cs] eqn:Es; [done|].
    unfold re_match_numeric in Em. apply andb_true_iff in Em as [Hc Hr].
    apply bool_decide_eq_true in Hr.
    destruct (after_numeric_run_suffix (c :: cs)) as (t & Ht & Hf).
    exists t. split; [done|]. split.
    + intros ->. rewrite app_nil_l in Ht.
      destruct Hr as [Hr|Hr]; rewrite Hr in Ht; [done|].
      injection Ht as -> _. done.
    + destruct Hr as [Hr|Hr]; rewrite Hr in Ht; [left; by rewrite app_nil_r in Ht|by right].
  - intros n. unfold check_numeric.
    rewrite list_ascii_of_string_of_list_ascii, re_match_numeric_all; [done|done|].
    apply Forall_repeat. reflexivity.
Qed.
